(** * Secure-Financial-Insights: evaluation and orchestration pipeline

    A shallow embedding of the scoring engines, the retrieval fusion and the
    workflow state machine of the repository, and the properties of them
    that the specification states.

    Conventions of the embedding.
    - A Python [float] is an exact rational ([Q]), and arithmetic does
      not round: a sum in binary64 can differ from the exact one in its
      last bits, which [round(x, 4)] shows when the exact sum is at a
      tie.  [round(x, n)] is rounding half to even on the exact value, as
      CPython does on the exact value of a double.  The infinities and
      NaN are added in [PyFloat], and [WithNaN] has the two scorers on
      such floats.
    - A Python [str] is a [string] whose characters are the code points
      U+0000..U+00FF; the character classes below ([isspace], [\d], [\w],
      [lower]) are Python's on that range.
    - A function that can raise returns a [result]; the exception classes
      are the constructors of [exn].
    - The language model, the embedding provider and the vector index are
      collaborators: a run is given what they answer as data. *)

From Stdlib Require Import ZArith QArith Qround Qabs Qminmax Lqa Lia.
From Stdlib Require Import String Ascii DecimalString List Bool.
From Stdlib Require Import Permutation Sorted.
From stdpp Require Import base gmap sets list strings.

Local Open Scope string_scope.
Set Warnings "-register-all,-clear-no-such-hyp".

(* ================================================================== *)
(** * Part I: the program *)
(* ================================================================== *)

(** ** Python numbers *)

Module PyNum.
Local Open Scope Q_scope.

(** [a > b], [a < b], [a >= b], [a <= b] on floats. *)
Definition gt (a b : Q) : bool := negb (Qle_bool a b).
Definition lt (a b : Q) : bool := negb (Qle_bool b a).
Definition ge (a b : Q) : bool := Qle_bool b a.
Definition le (a b : Q) : bool := Qle_bool a b.

(** The builtins [max(a, b)] and [min(a, b)]: the first argument is kept
    unless the second is strictly better. *)
Definition max2 (a b : Q) : Q := if gt b a then b else a.
Definition min2 (a b : Q) : Q := if lt b a then b else a.

(** [max(xs)] on a non-empty list. *)
Definition max_list (x : Q) (xs : list Q) : Q := fold_left max2 xs x.

(** [sum(xs)]: a left fold from 0. *)
Definition sum (xs : list Q) : Q := fold_left Qplus xs 0.

(** The nearest integer, ties to the even one. *)
Definition round_half_even (x : Q) : Z :=
  let f := Qfloor x in
  match Qcompare (x - inject_Z f) (1 # 2) with
  | Lt => f
  | Gt => (f + 1)%Z
  | Eq => if Z.even f then f else (f + 1)%Z
  end.

Definition pow10 (n : nat) : Q := inject_Z (10 ^ Z.of_nat n).

(** [round(x, ndigits)]. *)
Definition round (x : Q) (ndigits : nat) : Q :=
  inject_Z (round_half_even (x * pow10 ndigits)) / pow10 ndigits.

(** An [int] count as an operand of a true division. *)
Definition of_nat (n : nat) : Q := inject_Z (Z.of_nat n).

(** [sum(1 for x in xs if p(x))]. *)
Definition count_if {A : Type} (p : A -> bool) (xs : list A) : nat :=
  length (List.filter p xs).

Fixpoint zeros (n : nat) : string :=
  match n with
  | O => EmptyString
  | S n' => String "0" (zeros n')
  end.

Definition decimal (n : Z) : string :=
  NilZero.string_of_uint (N.to_uint (Z.to_N n)).

(** [format(x, '.<ndigits>f')]: [x] rounded half to even at [ndigits]
    decimals, the sign that of [x]. *)
Definition format_f (ndigits : nat) (x : Q) : string :=
  let n := round_half_even (Qabs x * pow10 ndigits) in
  let p := (10 ^ Z.of_nat ndigits)%Z in
  let frac := decimal (n mod p) in
  ((if lt x 0 then "-" else "")
   ++ decimal (n / p)
   ++ match ndigits with
      | O => ""
      | _ => "." ++ zeros (ndigits - String.length frac) ++ frac
      end)%string.
End PyNum.

(** ** Python strings *)

Module PyStr.

Definition code (c : ascii) : N := N_of_ascii c.

Definition between (lo hi : N) (c : ascii) : bool :=
  ((lo <=? code c) && (code c <=? hi))%N.

(** [str.isspace] of one character, which is also the regex class [\s]. *)
Definition isspace (c : ascii) : bool :=
  between 9 13 c || between 28 32 c || between 133 133 c || between 160 160 c.

(** The regex class [\d] (decimal digits). *)
Definition isdecimal (c : ascii) : bool := between 48 57 c.

(** [str.isalnum] of one character. *)
Definition isalnum (c : ascii) : bool :=
  between 48 57 c || between 65 90 c || between 97 122 c
  || between 170 170 c || between 178 179 c || between 181 181 c
  || between 185 186 c || between 188 190 c
  || between 192 214 c || between 216 246 c || between 248 255 c.

(** The regex class [\w]. *)
Definition isword (c : ascii) : bool := isalnum c || between 95 95 c.

Definition lower_char (c : ascii) : ascii :=
  if between 65 90 c || (between 192 222 c && negb (between 215 215 c))
  then ascii_of_N (code c + 32)
  else c.

(** [s.lower()]. *)
Fixpoint lower (s : string) : string :=
  match s with
  | EmptyString => EmptyString
  | String c s' => String (lower_char c) (lower s')
  end.

Definition snoc (s : string) (c : ascii) : string :=
  (s ++ String c EmptyString)%string.

Fixpoint split_go (cur : string) (s : string) : list string :=
  match s with
  | EmptyString => match cur with EmptyString => [] | _ => [cur] end
  | String c s' =>
      if isspace c
      then match cur with
           | EmptyString => split_go EmptyString s'
           | _ => cur :: split_go EmptyString s'
           end
      else split_go (snoc cur c) s'
  end.

(** [s.split()]: the maximal runs of characters that are not whitespace. *)
Definition split (s : string) : list string := split_go EmptyString s.

Fixpoint lstrip (s : string) : string :=
  match s with
  | String c s' => if isspace c then lstrip s' else s
  | EmptyString => EmptyString
  end.

Fixpoint rev (s : string) : string :=
  match s with
  | EmptyString => EmptyString
  | String c s' => snoc (rev s') c
  end.

Definition rstrip (s : string) : string := rev (lstrip (rev s)).

(** [s.strip()]. *)
Definition strip (s : string) : string := rstrip (lstrip s).

(** [s[:n]]. *)
Definition slice_to (n : nat) (s : string) : string := substring 0 n s.

(** [sep.join(parts)]. *)
Fixpoint join (sep : string) (parts : list string) : string :=
  match parts with
  | [] => EmptyString
  | [p] => p
  | p :: rest => (p ++ sep ++ join sep rest)%string
  end.

(** [sub in s]. *)
Fixpoint contains (sub s : string) : bool :=
  String.prefix sub s
  || match s with
     | EmptyString => false
     | String _ s' => contains sub s'
     end.

Definition last_char (s : string) : option ascii :=
  match rev s with
  | String c _ => Some c
  | EmptyString => None
  end.
End PyStr.

(** ** Regular expressions

    The subset of Python's [re] that the patterns of the repository use,
    with [re]'s backtracking semantics: alternatives are tried left to
    right, repetitions are greedy, and the first way to match wins. *)

Module Re.
Import PyStr.

Inductive regex : Type :=
| Eps
| Chr (p : ascii -> bool)
| Seq (r1 r2 : regex)
| Alt (r1 r2 : regex)
| Star (r : regex)
| WordBoundary.

Definition Plus (r : regex) : regex := Seq r (Star r).
Definition Opt (r : regex) : regex := Alt r Eps.
Definition Char (c : ascii) : regex := Chr (Ascii.eqb c).

Fixpoint Lit (s : string) : regex :=
  match s with
  | EmptyString => Eps
  | String c s' => Seq (Char c) (Lit s')
  end.

Fixpoint OneOf (s : string) (c : ascii) : bool :=
  match s with
  | EmptyString => false
  | String d s' => Ascii.eqb d c || OneOf s' c
  end.

(** [r{n}] and [r{m,m+extra}]. *)
Fixpoint Times (n : nat) (r : regex) : regex :=
  match n with
  | O => Eps
  | S n' => Seq r (Times n' r)
  end.

Fixpoint UpTo (n : nat) (r : regex) : regex :=
  match n with
  | O => Eps
  | S n' => Opt (Seq r (UpTo n' r))
  end.

Definition Range (m extra : nat) (r : regex) : regex :=
  Seq (Times m r) (UpTo extra r).

Definition is_word (c : option ascii) : bool :=
  match c with
  | Some c => isword c
  | None => false
  end.

Definition head (s : string) : option ascii :=
  match s with
  | String c _ => Some c
  | EmptyString => None
  end.

(** [rmatch r prev s k]: match [r] at the front of [s], the character
    before it being [prev], and hand what is left to [k]; when [k]
    refuses, the next way to match [r] is tried. *)
Fixpoint rmatch {A : Type} (r : regex) (prev : option ascii) (s : string)
    (k : option ascii -> string -> option A) : option A :=
  match r with
  | Eps => k prev s
  | Chr p =>
      match s with
      | String c s' => if p c then k (Some c) s' else None
      | EmptyString => None
      end
  | Seq r1 r2 => rmatch r1 prev s (fun prev' s' => rmatch r2 prev' s' k)
  | Alt r1 r2 =>
      match rmatch r1 prev s k with
      | Some x => Some x
      | None => rmatch r2 prev s k
      end
  | Star r' =>
      (fix star (fuel : nat) (prev : option ascii) (s : string) : option A :=
         match fuel with
         | O => k prev s
         | S fuel' =>
             match
               rmatch r' prev s
                 (fun prev' s' =>
                    if (String.length s' <? String.length s)%nat
                    then star fuel' prev' s'
                    else None)
             with
             | Some x => Some x
             | None => k prev s
             end
         end) (String.length s) prev s
  | WordBoundary =>
      if xorb (is_word prev) (is_word (head s)) then k prev s else None
  end.

(** [pattern.match] at one position: what is left after the match. *)
Definition match_at (r : regex) (prev : option ascii) (s : string)
    : option string :=
  rmatch r prev s (fun _ rest => Some rest).

(** The scan of [re.finditer]: the leftmost match, then on from its end.
    None of the patterns below matches the empty string; an empty match
    would move the scan on by one character. *)
Fixpoint finditer_go (fuel : nat) (r : regex) (prev : option ascii)
    (s : string) : list string :=
  match fuel with
  | O => []
  | S fuel' =>
      match match_at r prev s with
      | Some rest =>
          let n := (String.length s - String.length rest)%nat in
          let m := substring 0 n s in
          match n, s with
          | O, String c s' => m :: finditer_go fuel' r (Some c) s'
          | O, EmptyString => [m]
          | _, _ => m :: finditer_go fuel' r (last_char m) rest
          end
      | None =>
          match s with
          | String c s' => finditer_go fuel' r (Some c) s'
          | EmptyString => []
          end
      end
  end.

(** [[m.group() for m in re.finditer(r, s)]], which is [re.findall(r, s)]
    for a pattern without capturing groups. *)
Definition findall (r : regex) (s : string) : list string :=
  finditer_go (S (String.length s)) r None s.
End Re.

(** ** Exceptions *)

(** The exception classes that the modelled code raises or handles. *)
Inductive exn : Type :=
| LLMError
| EmbeddingError
| RetrievalError
| JSONDecodeError
| KeyError
| TypeError
| AttributeError
| ValueError
| ValidationError
| GraphRecursionError.

Inductive result (A : Type) : Type :=
| Ok (a : A)
| Raise (e : exn).
Arguments Ok {A} a.
Arguments Raise {A} e.

(** [result] is a monad in stdpp's sense: [x ← m; k] runs [m] and stops at
    the first exception. *)
#[global] Instance result_ret : MRet result := fun A a => Ok a.
#[global] Instance result_bind : MBind result := fun A B f m =>
  match m with
  | Ok a => f a
  | Raise e => Raise e
  end.
#[global] Instance result_fmap : FMap result := fun A B f m =>
  match m with
  | Ok a => Ok (f a)
  | Raise e => Raise e
  end.

(** ** src/models/schemas.py *)

Module Schemas.
Inductive EvaluationStatus : Type := PASSED | FLAGGED | FAILED.

Record Citation : Type := {
  cit_chunk_id : string;
  source_document : string;
  section : string;
  relevance_score : Q;
  text_excerpt : string
}.

Record EvaluationResult : Type := {
  hallucination_score : Q;
  factual_grounding_score : Q;
  semantic_consistency_score : Q;
  confidence_score : Q;
  status : EvaluationStatus;
  flags : list string;
  evaluation_reasoning : string
}.
End Schemas.

(** ** src/core/config.py *)

Module Config.
Local Open Scope Q_scope.

(** The fields of [Settings] that the modelled code reads. *)
Record Settings : Type := {
  hallucination_threshold : Q;
  consistency_threshold : Q;
  min_confidence_score : Q;
  retrieval_top_k : nat;
  rerank_top_k : nat;
  hybrid_search_alpha : Q
}.

(** The defaults of the class. *)
Definition default : Settings := {|
  hallucination_threshold := 0.7;
  consistency_threshold := 0.8;
  min_confidence_score := 0.6;
  retrieval_top_k := 8;
  rerank_top_k := 4;
  hybrid_search_alpha := 0.7
|}.
End Config.

(** ** src/evaluation/confidence_scorer.py *)

Module ConfidenceScorer.
Import PyNum PyStr Re Schemas.
Local Open Scope Q_scope.

Definition HEDGING_PHRASES : list string := [
  "it is possible that";
  "may have";
  "could potentially";
  "it appears that";
  "it seems";
  "approximately";
  "roughly";
  "unclear";
  "not enough information";
  "limited data";
  "cannot determine";
  "uncertain";
  "speculative"
].

Definition digit : regex := Chr isdecimal.
Definition space : regex := Chr isspace.

(** [\[Source \d+\]] *)
Definition citation_marker : regex :=
  Seq (Lit "[Source ") (Seq (Plus digit) (Lit "]")).

(** [\$[\d,]+] *)
Definition dollar_amount : regex :=
  Seq (Lit "$") (Plus (Chr (fun c => isdecimal c || OneOf "," c))).

(** [\d+\.?\d*%] *)
Definition percentage : regex :=
  Seq (Plus digit) (Seq (Opt (Lit ".")) (Seq (Star digit) (Lit "%"))).

(** [(?:Q[1-4]|FY)\s*\d{4}] *)
Definition time_period : regex :=
  Seq (Alt (Seq (Lit "Q") (Chr (OneOf "1234"))) (Lit "FY"))
      (Seq (Star space) (Times 4 digit)).

(** [(?:increased|decreased|grew|declined)\s+(?:by\s+)?\d] *)
Definition quantified_change : regex :=
  Seq (Alt (Lit "increased")
         (Alt (Lit "decreased") (Alt (Lit "grew") (Lit "declined"))))
      (Seq (Plus space)
         (Seq (Opt (Seq (Lit "by") (Plus space))) digit)).

Definition HIGH_CONFIDENCE_SIGNALS : list regex := [
  citation_marker; dollar_amount; percentage; time_period; quantified_change
].

Record ConfidenceResult : Type := {
  confidence_score : Q;
  source_coverage_score : Q;
  citation_density_score : Q;
  specificity_score : Q;
  hedging_penalty : Q;
  retrieval_relevance_score : Q;
  breakdown : list (string * Q)
}.

Definition STOPWORDS : gset string :=
  list_to_set
    ["what"; "how"; "why"; "when"; "is"; "the"; "a"; "an"; "of"; "in"; "for"].

Definition _score_source_coverage (query : string)
    (source_chunks : list string) : Q :=
  match source_chunks with
  | [] => 0.0
  | _ =>
      let query_terms : gset string :=
        list_to_set (split (lower query)) ∖ STOPWORDS in
      if decide (query_terms = ∅) then 0.5
      else
        let combined_sources := lower (join " " source_chunks) in
        let matched :=
          count_if (fun term => contains term combined_sources)
            (elements query_terms) in
        of_nat matched / of_nat (size query_terms)
  end.

Definition _score_citation_density (response_text : string) : Q :=
  let citation_count := length (findall citation_marker response_text) in
  let word_count := length (split response_text) in
  if (word_count =? 0)%nat then 0.0
  else
    let expected_citations := max2 1 (of_nat word_count / 100) in
    let ratio := of_nat citation_count / expected_citations in
    min2 ratio 1.0.

Definition _score_specificity (response_text : string) : Q :=
  let signal_count :=
    fold_left
      (fun acc pattern => (acc + length (findall pattern response_text))%nat)
      HIGH_CONFIDENCE_SIGNALS 0%nat in
  min2 (of_nat signal_count / 5.0) 1.0.

Definition _score_hedging_penalty (response_text : string) : Q :=
  let text_lower := lower response_text in
  let hedge_count :=
    count_if (fun phrase => contains phrase text_lower) HEDGING_PHRASES in
  min2 (of_nat hedge_count / 3.0) 1.0.

Definition _score_retrieval_relevance (citations : list Citation) : Q :=
  match citations with
  | [] => 0.0
  | _ =>
      let avg :=
        sum (map relevance_score citations) / of_nat (length citations) in
      min2 (max2 avg 0.0) 1.0
  end.

(** The weighted sum of [score], before clamping and rounding. *)
Definition composite (source_coverage citation_density specificity hedging
    retrieval_relevance hallucination_score consistency_score : Q) : Q :=
  0.20 * source_coverage
  + 0.15 * citation_density
  + 0.10 * specificity
  + 0.15 * (1.0 - hedging)
  + 0.10 * retrieval_relevance
  + 0.15 * (1.0 - hallucination_score)
  + 0.15 * consistency_score.

Definition score (response_text query : string) (citations : list Citation)
    (source_chunks : list string) (hallucination_score consistency_score : Q)
    : ConfidenceResult :=
  let source_coverage := _score_source_coverage query source_chunks in
  let citation_density := _score_citation_density response_text in
  let specificity := _score_specificity response_text in
  let hedging := _score_hedging_penalty response_text in
  let retrieval_relevance := _score_retrieval_relevance citations in
  let composite :=
    composite source_coverage citation_density specificity hedging
      retrieval_relevance hallucination_score consistency_score in
  {| confidence_score := round (min2 (max2 composite 0.0) 1.0) 4;
     source_coverage_score := round source_coverage 4;
     citation_density_score := round citation_density 4;
     specificity_score := round specificity 4;
     hedging_penalty := round hedging 4;
     retrieval_relevance_score := round retrieval_relevance 4;
     breakdown := [
       ("source_coverage", round source_coverage 4);
       ("citation_density", round citation_density 4);
       ("specificity", round specificity 4);
       ("hedging_penalty", round hedging 4);
       ("retrieval_relevance", round retrieval_relevance 4);
       ("hallucination_factor", round (1.0 - hallucination_score) 4);
       ("consistency_factor", round consistency_score 4)
     ] |}.

(** The call with the defaults of the two optional arguments. *)
Definition score_default (response_text query : string)
    (citations : list Citation) (source_chunks : list string)
    : ConfidenceResult :=
  score response_text query citations source_chunks 0.0 1.0.
End ConfidenceScorer.

(** ** Decoded JSON *)

Module Json.
Import PyStr.
Local Open Scope Q_scope.

(** What [json.loads] returns: [None], a [bool], a number, a [str], a
    [list] or a [dict] (its items in order, the keys distinct). *)
Inductive json : Type :=
| JNull
| JBool (b : bool)
| JNum (q : Q)
| JStr (s : string)
| JArr (items : list json)
| JObj (fields : list (string * json)).

Fixpoint assoc (key : string) (fields : list (string * json)) : option json :=
  match fields with
  | [] => None
  | (k, v) :: rest => if String.eqb k key then Some v else assoc key rest
  end.

(** [v.get(key, default)]: only a [dict] has the method. *)
Definition get (v : json) (key : string) (default : json) : result json :=
  match v with
  | JObj fields =>
      Ok (match assoc key fields with Some x => x | None => default end)
  | _ => Raise AttributeError
  end.

Definition chars (s : string) : list json :=
  map (fun c => JStr (String c EmptyString)) (list_ascii_of_string s).

(** [iter(v)], as a [for] loop, a comprehension or [list.extend] runs it:
    the items of a list, the characters of a string, the keys of a dict;
    the other values are not iterable. *)
Definition iter (v : json) : result (list json) :=
  match v with
  | JArr items => Ok items
  | JStr s => Ok (chars s)
  | JObj fields => Ok (map (fun kv => JStr (fst kv)) fields)
  | JNull | JBool _ | JNum _ => Raise TypeError
  end.

Definition digit_value (c : ascii) : Z := (Z.of_N (code c) - 48)%Z.

Fixpoint read_digits (s : string) (acc : Z) (n : nat) : Z * nat * string :=
  match s with
  | String c s' =>
      if isdecimal c then read_digits s' (10 * acc + digit_value c)%Z (S n)
      else (acc, n, s)
  | EmptyString => (acc, n, s)
  end.

(** [float(s)] on a string in plain decimal notation: optional blanks,
    an optional sign, digits with an optional point.  The other
    spellings [float] reads (an exponent, underscores, [inf], [nan]) are
    not covered here: no statement about this function is about them,
    and [PyFloat.of_str] below reads them. *)
Definition float_of_str (s : string) : option Q :=
  let s := strip s in
  let '(negative, s) :=
    match s with
    | String "-" s' => (true, s')
    | String "+" s' => (false, s')
    | _ => (false, s)
    end in
  let '(ip, ni, s) := read_digits s 0%Z 0%nat in
  let '(fp, nf, s) :=
    match s with
    | String "." s' => read_digits s' 0%Z 0%nat
    | _ => (0%Z, 0%nat, s)
    end in
  match s with
  | EmptyString =>
      if (ni + nf =? 0)%nat then None
      else
        let v := inject_Z ip + inject_Z fp / PyNum.pow10 nf in
        Some (if negative then - v else v)
  | _ => None
  end.

(** [float(v)]. *)
Definition float (v : json) : result Q :=
  match v with
  | JNum q => Ok q
  | JBool b => Ok (if b then 1 else 0)
  | JStr s =>
      match float_of_str s with
      | Some q => Ok q
      | None => Raise ValueError
      end
  | JNull | JArr _ | JObj _ => Raise TypeError
  end.
End Json.

(** ** Effects *)

(** A computation that calls the language model: it is given the number of
    calls made so far and returns the number made when it ends, also when
    it ends by raising. *)
Definition Run (A : Type) : Type := nat -> result A * nat.

#[global] Instance run_ret : MRet Run := fun A a n => (Ok a, n).
#[global] Instance run_bind : MBind Run := fun A B f m n =>
  match m n with
  | (Ok a, n') => f a n'
  | (Raise e, n') => (Raise e, n')
  end.

Definition lift {A : Type} (r : result A) : Run A := fun n => (r, n).

(** ** The collaborators *)

Module LLM.
Import Json.

(** A completion: its text, and what [json.loads] makes of that text
    ([None] when it raises [JSONDecodeError]). *)
Record completion : Type := {
  text : string;
  decoded : option json
}.

(** [LLMClient]: what the n-th call of [generate] gives; after its
    retries the method raises [LLMError] and nothing else. *)
Record LLMClient : Type := {
  reply : nat -> option completion
}.

(** [json.loads(result_text)]. *)
Definition loads (c : completion) : result json :=
  match decoded c with
  | Some v => Ok v
  | None => Raise JSONDecodeError
  end.

(** [await self._llm.generate(...)]. *)
Definition generate (llm : LLMClient) : Run completion := fun n =>
  match reply llm n with
  | Some c => (Ok c, S n)
  | None => (Raise LLMError, S n)
  end.
End LLM.

(** [try: body except (classes): handler]. *)
Definition try_except {A : Type} (body : Run A) (caught : exn -> bool)
    (handler : exn -> Run A) : Run A := fun n =>
  match body n with
  | (Raise e, n') => if caught e then handler e n' else (Raise e, n')
  | done => done
  end.

(** [except (json.JSONDecodeError, KeyError, TypeError)]. *)
Definition parse_errors (e : exn) : bool :=
  match e with
  | JSONDecodeError | KeyError | TypeError => true
  | _ => false
  end.

(** [except Exception]. *)
Definition any_exception (e : exn) : bool := true.

(** [str(e)]: the message of an exception is not modelled, the name of its
    class stands for it. *)
Definition str_exn (e : exn) : string :=
  match e with
  | LLMError => "LLMError"
  | EmbeddingError => "EmbeddingError"
  | RetrievalError => "RetrievalError"
  | JSONDecodeError => "JSONDecodeError"
  | KeyError => "KeyError"
  | TypeError => "TypeError"
  | AttributeError => "AttributeError"
  | ValueError => "ValueError"
  | ValidationError => "ValidationError"
  | GraphRecursionError => "GraphRecursionError"
  end.

Module Embeddings.
(** [EmbeddingService].  [embed_query] gives the vector of a text, or
    raises.  [similarities] is what the similarity check computes from
    the service: embedding the response and the chunks and taking the
    cosine of the response with each chunk gives a list of similarities,
    or raises (a cosine is not a rational function of the vectors, so
    its value is given). *)
Record EmbeddingService : Type := {
  embed_query : string -> result (list Q);
  similarities : string -> list string -> result (list Q)
}.
End Embeddings.

(** ** src/evaluation/hallucination_detector.py

    The free-text [reasoning] of the results is left out: no decision
    reads it. *)

Module HallucinationDetector.
Import PyNum PyStr Re Json LLM Embeddings.
Local Open Scope Q_scope.

(** The fields are what the judge put under each key: a dataclass does
    not check them. *)
Record ClaimVerification : Type := {
  claim : json;
  verdict : json;
  evidence : json;
  source_ref : json
}.

Record HallucinationResult : Type := {
  hallucination_score : Q;
  factual_grounding_score : Q;
  claims : list ClaimVerification;
  entity_overlap_score : Q;
  semantic_similarity_score : Q
}.

Definition digit : regex := Chr isdecimal.
Definition space : regex := Chr isspace.

(** [\$[\d,]+\.?\d*\s*[BMKbmk]?(?:illion|illion)?] *)
Definition dollar_entity : regex :=
  Seq (Lit "$")
    (Seq (Plus (Chr (fun c => isdecimal c || OneOf "," c)))
       (Seq (Opt (Lit "."))
          (Seq (Star digit)
             (Seq (Star space)
                (Seq (Opt (Chr (OneOf "BMKbmk")))
                   (Opt (Alt (Lit "illion") (Lit "illion")))))))).

(** [-?[\d.]+%] *)
Definition percent_entity : regex :=
  Seq (Opt (Lit "-"))
    (Seq (Plus (Chr (fun c => isdecimal c || OneOf "." c))) (Lit "%")).

(** [(?:Q[1-4]\s*\d{4}|FY\d{4}|\d{4})] *)
Definition date_entity : regex :=
  Alt (Seq (Lit "Q")
         (Seq (Chr (OneOf "1234")) (Seq (Star space) (Times 4 digit))))
    (Alt (Seq (Lit "FY") (Times 4 digit)) (Times 4 digit)).

(** [\b\d{1,3}(?:,\d{3})+(?:\.\d+)?\b] *)
Definition large_number : regex :=
  Seq WordBoundary
    (Seq (Range 1 2 digit)
       (Seq (Plus (Seq (Lit ",") (Times 3 digit)))
          (Seq (Opt (Seq (Lit ".") (Plus digit))) WordBoundary))).

Definition _extract_financial_entities (text : string) : gset string :=
  list_to_set (map (fun m => lower (strip m)) (findall dollar_entity text))
  ∪ list_to_set (findall percent_entity text)
  ∪ list_to_set (findall date_entity text)
  ∪ list_to_set (findall large_number text).

Definition _entity_overlap_check (response_text : string)
    (source_chunks : list string) : Q :=
  let response_entities := _extract_financial_entities response_text in
  if decide (response_entities = ∅) then 1.0
  else
    let source_text := join " " source_chunks in
    let source_entities := _extract_financial_entities source_text in
    if decide (source_entities = ∅) then 0.5
    else
      let matched :=
        count_if (fun e => bool_decide (e ∈ source_entities))
          (elements response_entities) in
      of_nat matched / of_nat (size response_entities).

Definition _semantic_similarity_check (embeddings : EmbeddingService)
    (response_text : string) (source_chunks : list string) : Q :=
  match source_chunks with
  | [] => 0.0
  | _ =>
      match similarities embeddings response_text source_chunks with
      | Ok (x :: xs) => max_list x xs
      | Ok [] => 0.0
      | Raise _ => 0.5
      end
  end.

(** One item of the judge's claim list. *)
Definition claim_of (c : json) : result ClaimVerification :=
  claim ← get c "claim" (JStr "");
  verdict ← get c "verdict" (JStr "UNSUPPORTED");
  evidence ← get c "evidence" (JStr "");
  source_ref ← get c "source_ref" (JStr "");
  mret {| claim := claim; verdict := verdict; evidence := evidence;
          source_ref := source_ref |}.

(** The statements of the [try] block after the call of the model. *)
Definition parse_judge (c : completion) : result HallucinationResult :=
  parsed ← loads c;
  items ← get parsed "claims" (JArr []) ≫= iter;
  claims ← mapM claim_of items;
  h ← get parsed "hallucination_score" (JNum 0.5) ≫= float;
  g ← get parsed "factual_grounding_score" (JNum 0.5) ≫= float;
  mret {| hallucination_score := h; factual_grounding_score := g;
          claims := claims; entity_overlap_score := 0.0;
          semantic_similarity_score := 0.0 |}.

(** The result of the [except] clause. *)
Definition neutral : HallucinationResult :=
  {| hallucination_score := 0.5; factual_grounding_score := 0.5;
     claims := []; entity_overlap_score := 0.0;
     semantic_similarity_score := 0.0 |}.

Definition _llm_judge_verification (llm : LLMClient)
    (response_text : string) (source_chunks : list string) (query : string)
    : Run HallucinationResult :=
  try_except
    (result_text ← generate llm; lift (parse_judge result_text))
    parse_errors
    (fun _ => mret neutral).

Definition combined_hallucination (judge entity_score semantic_score : Q)
    : Q :=
  0.6 * judge + 0.2 * (1.0 - entity_score) + 0.2 * (1.0 - semantic_score).

Definition combined_grounding (judge entity_score semantic_score : Q) : Q :=
  0.6 * judge + 0.2 * entity_score + 0.2 * semantic_score.

Definition detect (llm : LLMClient) (embeddings : EmbeddingService)
    (response_text : string) (source_chunks : list string) (query : string)
    : Run HallucinationResult :=
  llm_result ← _llm_judge_verification llm response_text source_chunks query;
  let entity_score := _entity_overlap_check response_text source_chunks in
  let semantic_score :=
    _semantic_similarity_check embeddings response_text source_chunks in
  let combined_hallucination :=
    combined_hallucination (hallucination_score llm_result)
      entity_score semantic_score in
  let combined_grounding :=
    combined_grounding (factual_grounding_score llm_result)
      entity_score semantic_score in
  mret {|
    hallucination_score :=
      round (min2 (max2 combined_hallucination 0.0) 1.0) 4;
    factual_grounding_score :=
      round (min2 (max2 combined_grounding 0.0) 1.0) 4;
    claims := claims llm_result;
    entity_overlap_score := round entity_score 4;
    semantic_similarity_score := round semantic_score 4
  |}.
End HallucinationDetector.

(** ** src/evaluation/consistency_scorer.py *)

Module ConsistencyScorer.
Import PyNum Json LLM.
Local Open Scope Q_scope.

Definition DEFAULT_NUM_SAMPLES : nat := 2.

(** The items of [discrepancies] are what the judge listed: a dataclass
    does not check them. *)
Record ConsistencyResult : Type := {
  consistency_score : Q;
  num_samples : nat;
  discrepancies : list json
}.

(** The dict that [_compare_pair] returns. *)
Record pair_result : Type := {
  pair_score : Q;
  pair_discrepancies : json
}.

(** The statements of the [try] block after the call of the model. *)
Definition parse_pair (c : completion) : result pair_result :=
  parsed ← loads c;
  score ← get parsed "consistency_score" (JNum 0.5) ≫= float;
  discrepancies ← get parsed "discrepancies" (JArr []);
  mret {| pair_score := score; pair_discrepancies := discrepancies |}.

Definition _compare_pair (llm : LLMClient) (query response_a response_b : string)
    : Run pair_result :=
  try_except
    (result_text ← generate llm; lift (parse_pair result_text))
    parse_errors
    (fun e => mret {|
       pair_score := 0.5;
       pair_discrepancies := JArr [JStr ("Parse error: " ++ str_exn e)]
     |}).

(** The first loop of [score]: [n] more samples are asked for, and one
    that fails is dropped. *)
Fixpoint sample_loop (llm : LLMClient) (n : nat)
    (alternative_responses : list string) : Run (list string) :=
  match n with
  | O => mret alternative_responses
  | S n' =>
      alternative_responses ←
        try_except
          (alt_response ← generate llm;
           mret (alternative_responses ++ [text alt_response])%list)
          any_exception
          (fun _ => mret alternative_responses);
      sample_loop llm n' alternative_responses
  end.

(** The second loop of [score]: the original against each alternative. *)
Fixpoint compare_loop (llm : LLMClient) (query original_response : string)
    (alternative_responses : list string)
    (pairwise_scores : list Q) (all_discrepancies : list json)
    : Run (list Q * list json) :=
  match alternative_responses with
  | [] => mret (pairwise_scores, all_discrepancies)
  | alt_response :: rest =>
      pair ← _compare_pair llm query original_response alt_response;
      items ← lift (iter (pair_discrepancies pair));
      compare_loop llm query original_response rest
        (pairwise_scores ++ [pair_score pair])%list
        (all_discrepancies ++ items)%list
  end.

Definition score (llm : LLMClient) (original_response : string)
    (query : string) (num_samples : nat) : Run ConsistencyResult :=
  alternative_responses ← sample_loop llm num_samples [];
  match alternative_responses with
  | [] =>
      mret {| consistency_score := 0.5;
              num_samples := 0;
              discrepancies :=
                [JStr "Failed to generate comparison samples"] |}
  | _ =>
      '(pairwise_scores, all_discrepancies) ←
        compare_loop llm query original_response alternative_responses [] [];
      let avg_score :=
        sum pairwise_scores / of_nat (length pairwise_scores) in
      mret {| consistency_score := round avg_score 4;
              num_samples := length alternative_responses;
              discrepancies := all_discrepancies |}
  end.
End ConsistencyScorer.

(** ** src/evaluation/evaluator.py *)

Module EvaluationPipeline.
Import PyNum Schemas Config LLM Embeddings.
Local Open Scope Q_scope.

Definition _determine_status (settings : Settings)
    (hallucination_score consistency_score confidence_score : Q)
    (flags : list string) : EvaluationStatus :=
  if gt hallucination_score 0.8 then FAILED
  else if (3 <=? length flags)%nat then FAILED
  else match flags with
       | _ :: _ => FLAGGED
       | [] =>
           if le hallucination_score (hallucination_threshold settings)
              && ge consistency_score (consistency_threshold settings)
              && ge confidence_score (min_confidence_score settings)
           then PASSED
           else FLAGGED
       end.

Definition in_unit_interval (x : Q) : bool := ge x 0.0 && le x 1.0.

(** The constructor of the pydantic model [EvaluationResult]: each score
    field is declared with [ge=0.0, le=1.0]. *)
Definition make_EvaluationResult (r : EvaluationResult)
    : result EvaluationResult :=
  if in_unit_interval (Schemas.hallucination_score r)
     && in_unit_interval (Schemas.factual_grounding_score r)
     && in_unit_interval (Schemas.semantic_consistency_score r)
     && in_unit_interval (Schemas.confidence_score r)
  then Ok r
  else Raise ValidationError.

(** [messages] is the prompt of the response: a list of chat messages,
    each a role and a content.  The free-text reasoning of the result is
    left out, as are the metrics and the log. *)
Definition evaluate (settings : Settings) (llm : LLMClient)
    (embeddings : EmbeddingService)
    (response_text : string) (source_chunks : list string) (query : string)
    (citations : list Citation) (messages : list (string * string))
    (run_consistency : bool) : Run EvaluationResult :=
  let flags : list string := [] in
  hallucination ←
    HallucinationDetector.detect llm embeddings response_text source_chunks
      query;
  let h := HallucinationDetector.hallucination_score hallucination in
  let flags :=
    if gt h (hallucination_threshold settings)
    then (flags ++ [("High hallucination score: " ++ format_f 2 h)%string])%list
    else flags in
  '(consistency_score, flags) ←
    (if run_consistency && negb (bool_decide (messages = []))
     then
       consistency ←
         ConsistencyScorer.score llm response_text query
           ConsistencyScorer.DEFAULT_NUM_SAMPLES;
       let c := ConsistencyScorer.consistency_score consistency in
       mret (c,
             if lt c (consistency_threshold settings)
             then (flags ++ [("Low consistency score: " ++ format_f 2 c)%string])%list
             else flags)
     else mret (1.0, flags));
  let confidence :=
    ConfidenceScorer.score response_text query citations source_chunks
      h consistency_score in
  let conf := ConfidenceScorer.confidence_score confidence in
  let flags :=
    if lt conf (min_confidence_score settings)
    then (flags ++ [("Low confidence score: " ++ format_f 2 conf)%string])%list
    else flags in
  let status :=
    _determine_status settings h consistency_score conf flags in
  lift (make_EvaluationResult {|
    hallucination_score := h;
    factual_grounding_score :=
      HallucinationDetector.factual_grounding_score hallucination;
    semantic_consistency_score := consistency_score;
    confidence_score := conf;
    status := status;
    flags := flags;
    evaluation_reasoning := ""
  |}).
End EvaluationPipeline.

(** ** src/rag/vector_store.py *)

Module VectorStore.
(** A search result: the dict with the keys [chunk_id], [content],
    [metadata] and [relevance_score], and [rrf_score] once fused. *)
Record Chunk : Type := {
  chunk_id : string;
  content : string;
  metadata : gmap string string;
  relevance_score : Q;
  rrf_score : option Q
}.

(** The vector index: [search(query_embedding, top_k, metadata_filter)]
    and [keyword_search(query_text, top_k, metadata_filter)] give results
    or raise; [is_chroma] is [isinstance(store, ChromaVectorStore)]. *)
Record VectorStoreBase : Type := {
  is_chroma : bool;
  search : list Q -> nat -> list (string * string) -> result (list Chunk);
  keyword_search :
    string -> nat -> list (string * string) -> result (list Chunk)
}.
End VectorStore.

(** ** src/rag/retriever.py *)

Module HybridRetriever.
Import PyNum PyStr Re Schemas Config Embeddings VectorStore.
Local Open Scope Q_scope.

(** [scores[chunk_id] = scores.get(chunk_id, 0) + term] on a dict, which
    keeps its keys in the order of their first insertion. *)
Fixpoint dict_add (scores : list (string * Q)) (chunk_id : string) (term : Q)
    : list (string * Q) :=
  match scores with
  | [] => [(chunk_id, 0 + term)]
  | (key, v) :: rest =>
      if String.eqb key chunk_id then (key, v + term) :: rest
      else (key, v) :: dict_add rest chunk_id term
  end.

(** The loop over [enumerate(semantic)], from [rank] on. *)
Fixpoint score_semantic (alpha : Q) (k rank : nat) (semantic : list Chunk)
    (scores : list (string * Q)) (chunk_map : gmap string Chunk)
    : list (string * Q) * gmap string Chunk :=
  match semantic with
  | [] => (scores, chunk_map)
  | result :: rest =>
      let id := chunk_id result in
      score_semantic alpha k (S rank) rest
        (dict_add scores id (alpha / of_nat (k + rank + 1)))
        (<[id := result]> chunk_map)
  end.

(** The loop over [enumerate(keyword)], from [rank] on. *)
Fixpoint score_keyword (alpha : Q) (k rank : nat) (keyword : list Chunk)
    (scores : list (string * Q)) (chunk_map : gmap string Chunk)
    : list (string * Q) * gmap string Chunk :=
  match keyword with
  | [] => (scores, chunk_map)
  | result :: rest =>
      let id := chunk_id result in
      score_keyword alpha k (S rank) rest
        (dict_add scores id ((1 - alpha) / of_nat (k + rank + 1)))
        (match chunk_map !! id with
         | Some _ => chunk_map
         | None => <[id := result]> chunk_map
         end)
  end.

Fixpoint insert_desc (x : string * Q) (l : list (string * Q))
    : list (string * Q) :=
  match l with
  | [] => [x]
  | y :: l' => if lt (snd x) (snd y) then y :: insert_desc x l' else x :: l
  end.

(** [sorted(scores.keys(), key=lambda x: scores[x], reverse=True)], each
    key with its score.  [sorted] is stable, also with [reverse=True]:
    keys of equal score stay in the order of the dict. *)
Definition sorted_desc (scores : list (string * Q)) : list (string * Q) :=
  foldr insert_desc [] scores.

(** The scores of the fusion, in the order of the dict. *)
Definition rrf_scores (semantic keyword : list Chunk) (alpha : Q) (k : nat)
    : list (string * Q) * gmap string Chunk :=
  let '(scores, chunk_map) := score_semantic alpha k 0 semantic [] ∅ in
  score_keyword alpha k 0 keyword scores chunk_map.

Definition _reciprocal_rank_fusion (semantic keyword : list Chunk)
    (alpha : Q) (k : nat) : result (list Chunk) :=
  let '(scores, chunk_map) := rrf_scores semantic keyword alpha k in
  mapM (fun '(id, score) =>
          match chunk_map !! id with
          | Some result =>
              Ok {| chunk_id := chunk_id result;
                    content := content result;
                    metadata := metadata result;
                    relevance_score := VectorStore.relevance_score result;
                    rrf_score := Some score |}
          | None => Raise KeyError
          end)
       (sorted_desc scores).

(** The default of the parameter [k]. *)
Definition RRF_K : nat := 60.

Definition meta (metadata : gmap string string) (key default : string)
    : string :=
  match metadata !! key with
  | Some v => v
  | None => default
  end.

Definition citation_of (result : Chunk) : Citation :=
  let metadata := metadata result in
  let content := content result in
  let excerpt := strip (slice_to 200 content) in
  let excerpt :=
    if (200 <? String.length content)%nat then (excerpt ++ "...")%string
    else excerpt in
  {| cit_chunk_id := chunk_id result;
     source_document :=
       strip (meta metadata "company_name" "Unknown" ++ " "
              ++ meta metadata "filing_type" "" ++ " "
              ++ meta metadata "filing_date" "");
     section := meta metadata "section" "";
     Schemas.relevance_score :=
       match rrf_score result with
       | Some s => s
       | None => VectorStore.relevance_score result
       end;
     text_excerpt := excerpt |}.

Definition _build_citations (results : list Chunk) : list Citation :=
  map citation_of results.

(** The set literal of [_extract_key_terms], in the order it is written;
    Python iterates a set in an order of its own. *)
Definition financial_terms : list string := [
  "revenue"; "earnings"; "ebitda"; "eps"; "net income"; "gross margin";
  "operating income"; "free cash flow"; "debt"; "equity"; "assets";
  "liabilities"; "dividend"; "buyback"; "guidance"; "outlook";
  "risk factor"; "litigation"; "regulatory"; "compliance";
  "market cap"; "p/e ratio"; "roi"; "roa"; "roe"
].

(** [\b[A-Z]{1,5}\b] *)
Definition ticker : regex :=
  Seq WordBoundary (Seq (Range 1 4 (Chr (between 65 90))) WordBoundary).

(** [\$?[\d,]+\.?\d*%?] *)
Definition number : regex :=
  Seq (Opt (Lit "$"))
    (Seq (Plus (Chr (fun c => isdecimal c || OneOf "," c)))
       (Seq (Opt (Lit "."))
          (Seq (Star (Chr isdecimal)) (Opt (Lit "%"))))).

Definition _extract_key_terms (query : string) : list string :=
  let query_lower := lower query in
  let found_terms :=
    List.filter (fun term => contains term query_lower) financial_terms in
  let tickers := findall ticker query in
  let numbers := findall number query in
  (found_terms ++ tickers ++ numbers)%list.

(** The loop over [key_terms[:3]]: a search that raises is skipped. *)
Fixpoint keyword_loop (store : VectorStoreBase) (terms : list string)
    (top_k : nat) (metadata_filter : list (string * string))
    (keyword_results : list Chunk) : list Chunk :=
  match terms with
  | [] => keyword_results
  | term :: rest =>
      keyword_loop store rest top_k metadata_filter
        match keyword_search store term top_k metadata_filter with
        | Ok results => (keyword_results ++ results)%list
        | Raise _ => keyword_results
        end
  end.

(** [a or b] on counts. *)
Definition or_else (a b : nat) : nat := if (a =? 0)%nat then b else a.

(** [top_k] is the argument of the call, 0 standing for [None]; an empty
    [metadata_filter] stands for [None]. *)
Definition retrieve (settings : Settings) (embeddings : EmbeddingService)
    (store : VectorStoreBase) (query : string) (top_k : nat)
    (metadata_filter : list (string * string))
    : result (list Chunk * list Citation) :=
  let top_k := or_else top_k (retrieval_top_k settings) in
  query_embedding ← embed_query embeddings query;
  semantic_results ← search store query_embedding (top_k * 2) metadata_filter;
  let keyword_results :=
    if is_chroma store
    then keyword_loop store (firstn 3 (_extract_key_terms query)) top_k
           metadata_filter []
    else [] in
  fused ← _reciprocal_rank_fusion semantic_results keyword_results
            (hybrid_search_alpha settings) RRF_K;
  let final_results :=
    firstn (or_else (rerank_top_k settings) top_k) fused in
  let citations := _build_citations final_results in
  mret (final_results, citations).
End HybridRetriever.

(** ** src/orchestration/workflow.py *)

Module Workflow.
Import PyNum Schemas Config LLM Embeddings VectorStore.
Local Open Scope Q_scope.

Definition MAX_REGENERATION_ATTEMPTS : nat := 2.

Inductive QueryType : Type :=
| RISK_SUMMARY
| FINANCIAL_ANALYSIS
| MARKET_IMPACT
| SEC_FILING_QA
| INVESTMENT_FAQ
| GENERAL.

(** The fields of [QueryRequest] that [execute] reads. *)
Record QueryRequest : Type := {
  req_query : string;
  req_query_type : QueryType;
  req_company_filter : option string;
  req_filing_type_filter : option string;
  req_top_k : nat;
  req_include_evaluation : bool
}.

(** [WorkflowState], without the token usage, the model name and the
    clock. *)
Record WorkflowState : Type := {
  query : string;
  query_type : QueryType;
  company_filter : option string;
  filing_type_filter : option string;
  top_k : nat;
  include_evaluation : bool;
  retrieved_chunks : list Chunk;
  chunk_texts : list string;
  citations : list Citation;
  messages : list (string * string);
  response_text : string;
  evaluation : option EvaluationResult;
  generation_attempts : nat;
  pii_entities_found : nat;
  content_filter_passed : bool;
  warnings : list string
}.

(** What [PIIRedactor.redact] and [ContentFilter.filter] return, as far
    as the workflow reads it. *)
Record RedactionResult : Type := {
  redacted_text : string;
  entity_count : nat;
  was_redacted : bool
}.

Record FilterResult : Type := {
  passed : bool;
  filter_warnings : list string;
  filtered_text : string
}.

(** The components that [QueryOrchestrator.__init__] builds; the two
    guardrails are taken as functions of the text. *)
Record QueryOrchestrator : Type := {
  _settings : Settings;
  _embedding_service : EmbeddingService;
  _vector_store : VectorStoreBase;
  _llm_client : LLMClient;
  _pii_redactor : string -> RedactionResult;
  _content_filter : string -> FilterResult
}.

(** The nodes of the graph, and the labels of its conditional edges. *)
Inductive node : Type := retrieve | generate | evaluate | guardrails | assemble.
Inductive evaluate_edge : Type := to_evaluate | skip_eval.
Inductive regenerate_edge : Type := regenerate | continue.

#[global] Instance node_eq_dec : EqDecision node.
Proof. solve_decision. Defined.

Section Nodes.
(** The texts of the prompt and [str.upper], which are not modelled. *)
Variable SYSTEM_PROMPT : string.
Variable user_prompt : string -> list string -> QueryType -> string.
Variable upper : string -> string.

Variable self : QueryOrchestrator.

(** [build_rag_prompt] of src/llm/prompts.py. *)
Definition build_rag_prompt (query : string) (context_chunks : list string)
    (query_type : QueryType) : list (string * string) :=
  [("system", SYSTEM_PROMPT);
   ("user", user_prompt query context_chunks query_type)].

Definition truthy (o : option string) : option string :=
  match o with
  | Some EmptyString | None => None
  | Some s => Some s
  end.

Definition _retrieve_node (state : WorkflowState) : Run WorkflowState :=
  let metadata_filter :=
    (match truthy (company_filter state) with
     | Some c => [("ticker", upper c)]
     | None => []
     end
     ++ match truthy (filing_type_filter state) with
        | Some f => [("filing_type", f)]
        | None => []
        end)%list in
  '(chunks, citations) ←
    lift (HybridRetriever.retrieve (_settings self)
            (_embedding_service self) (_vector_store self)
            (query state) (top_k state) metadata_filter);
  mret {|
    query := query state;
    query_type := query_type state;
    company_filter := company_filter state;
    filing_type_filter := filing_type_filter state;
    top_k := top_k state;
    include_evaluation := include_evaluation state;
    retrieved_chunks := chunks;
    chunk_texts := map content chunks;
    citations := citations;
    messages := messages state;
    response_text := response_text state;
    evaluation := evaluation state;
    generation_attempts := generation_attempts state;
    pii_entities_found := pii_entities_found state;
    content_filter_passed := content_filter_passed state;
    warnings := warnings state
  |}.

Definition _generate_node (state : WorkflowState) : Run WorkflowState :=
  let generation_attempts := (generation_attempts state + 1)%nat in
  let messages :=
    build_rag_prompt (query state) (chunk_texts state) (query_type state) in
  response ← LLM.generate (_llm_client self);
  mret {|
    query := query state;
    query_type := query_type state;
    company_filter := company_filter state;
    filing_type_filter := filing_type_filter state;
    top_k := top_k state;
    include_evaluation := include_evaluation state;
    retrieved_chunks := retrieved_chunks state;
    chunk_texts := chunk_texts state;
    citations := citations state;
    messages := messages;
    response_text := text response;
    evaluation := evaluation state;
    generation_attempts := generation_attempts;
    pii_entities_found := pii_entities_found state;
    content_filter_passed := content_filter_passed state;
    warnings := warnings state
  |}.

Definition _evaluate_node (state : WorkflowState) : Run WorkflowState :=
  evaluation ←
    EvaluationPipeline.evaluate (_settings self) (_llm_client self)
      (_embedding_service self)
      (response_text state) (chunk_texts state) (query state)
      (citations state) (messages state)
      (generation_attempts state =? 1)%nat;
  mret {|
    query := query state;
    query_type := query_type state;
    company_filter := company_filter state;
    filing_type_filter := filing_type_filter state;
    top_k := top_k state;
    include_evaluation := include_evaluation state;
    retrieved_chunks := retrieved_chunks state;
    chunk_texts := chunk_texts state;
    citations := citations state;
    messages := messages state;
    response_text := response_text state;
    evaluation := Some evaluation;
    generation_attempts := generation_attempts state;
    pii_entities_found := pii_entities_found state;
    content_filter_passed := content_filter_passed state;
    warnings := warnings state
  |}.

Definition _guardrails_node (state : WorkflowState) : Run WorkflowState :=
  let pii_result := _pii_redactor self (response_text state) in
  let response_text :=
    if was_redacted pii_result then redacted_text pii_result
    else response_text state in
  let pii_entities_found :=
    if was_redacted pii_result then entity_count pii_result
    else pii_entities_found state in
  let filter_result := _content_filter self response_text in
  mret {|
    query := query state;
    query_type := query_type state;
    company_filter := company_filter state;
    filing_type_filter := filing_type_filter state;
    top_k := top_k state;
    include_evaluation := include_evaluation state;
    retrieved_chunks := retrieved_chunks state;
    chunk_texts := chunk_texts state;
    citations := citations state;
    messages := messages state;
    response_text := filtered_text filter_result;
    evaluation := evaluation state;
    generation_attempts := generation_attempts state;
    pii_entities_found := pii_entities_found;
    content_filter_passed := passed filter_result;
    warnings := (warnings state ++ filter_warnings filter_result)%list
  |}.

Definition _assemble_node (state : WorkflowState) : Run WorkflowState :=
  mret state.

Definition _should_evaluate (state : WorkflowState) : evaluate_edge :=
  if include_evaluation state then to_evaluate else skip_eval.

Definition _should_regenerate (state : WorkflowState) : regenerate_edge :=
  match evaluation state with
  | Some evaluation =>
      if gt (hallucination_score evaluation) 0.8
         && (generation_attempts state <? MAX_REGENERATION_ATTEMPTS)%nat
      then regenerate
      else continue
  | None => continue
  end.

(** The graph that [_build_graph] compiles: what a node does, and the
    node that follows it ([None] is [END]). *)
Definition run_node (n : node) : WorkflowState -> Run WorkflowState :=
  match n with
  | retrieve => _retrieve_node
  | generate => _generate_node
  | evaluate => _evaluate_node
  | guardrails => _guardrails_node
  | assemble => _assemble_node
  end.

Definition next_node (n : node) (state : WorkflowState) : option node :=
  match n with
  | retrieve => Some generate
  | generate =>
      match _should_evaluate state with
      | to_evaluate => Some evaluate
      | skip_eval => Some guardrails
      end
  | evaluate =>
      match _should_regenerate state with
      | regenerate => Some generate
      | continue => Some guardrails
      end
  | guardrails => Some assemble
  | assemble => None
  end.

(** The step limit of a compiled graph (LangGraph's default
    [recursion_limit]). *)
Definition RECURSION_LIMIT : nat := 25.

(** A run of the graph from node [n]: the final state or the exception
    that ended it, the nodes that ran, in order, and the count of calls
    of the model. *)
Fixpoint run_from (limit : nat) (n : node) (state : WorkflowState)
    (trace : list node) (calls : nat)
    : result WorkflowState * list node * nat :=
  match limit with
  | O => (Raise GraphRecursionError, trace, calls)
  | S limit' =>
      match run_node n state calls with
      | (Raise e, calls') => (Raise e, (trace ++ [n])%list, calls')
      | (Ok state', calls') =>
          match next_node n state' with
          | None => (Ok state', (trace ++ [n])%list, calls')
          | Some n' =>
              run_from limit' n' state' (trace ++ [n])%list calls'
          end
      end
  end.

(** [self._graph.ainvoke(state)]: the entry point is [retrieve]. *)
Definition ainvoke (state : WorkflowState) (calls : nat)
    : result WorkflowState * list node * nat :=
  run_from RECURSION_LIMIT retrieve state [] calls.

(** The state that [execute] builds from the request. *)
Definition initial_state (request : QueryRequest) : WorkflowState := {|
  query := req_query request;
  query_type := req_query_type request;
  company_filter := req_company_filter request;
  filing_type_filter := req_filing_type_filter request;
  top_k := req_top_k request;
  include_evaluation := req_include_evaluation request;
  retrieved_chunks := [];
  chunk_texts := [];
  citations := [];
  messages := [];
  response_text := "";
  evaluation := None;
  generation_attempts := 0;
  pii_entities_found := 0;
  content_filter_passed := true;
  warnings := []
|}.

(** [execute]: the final state stands for the [QueryResponse] that is
    built from it. *)
Definition execute (request : QueryRequest) (calls : nat)
    : result WorkflowState * list node * nat :=
  ainvoke (initial_state request) calls.
End Nodes.
End Workflow.

(** ** More of Python's [str] *)

Module PyText.
Import PyStr.

(** [s[n:]]. *)
Fixpoint slice_from (n : nat) (s : string) : string :=
  match n, s with
  | O, _ => s
  | S n', String _ s' => slice_from n' s'
  | S _, EmptyString => EmptyString
  end.

(** [s.replace(old, new)] for a non-empty [old]: the occurrences of [old]
    are found from left to right, none overlapping the one before;
    [skip] counts the characters of an occurrence still to pass over. *)
Fixpoint replace_go (old new : string) (skip : nat) (s : string) : string :=
  match s with
  | EmptyString => EmptyString
  | String c s' =>
      match skip with
      | S k => replace_go old new k s'
      | O =>
          if String.prefix old s
          then (new ++ replace_go old new (String.length old - 1) s')%string
          else String c (replace_go old new 0 s')
      end
  end.

(** With an empty [old], [new] goes before each character and at the
    end. *)
Fixpoint intersperse (new : string) (s : string) : string :=
  match s with
  | EmptyString => new
  | String c s' => (new ++ String c (intersperse new s'))%string
  end.

Definition replace (s old new : string) : string :=
  match old with
  | EmptyString => intersperse new s
  | _ => replace_go old new 0 s
  end.

(** The line feed. *)
Definition LF : string := String "010" EmptyString.
End PyText.

(** ** Patterns compiled with [re.IGNORECASE] *)

Module ReIgnoreCase.
Import PyStr Re.

(** A letter of the pattern: it matches the characters that are the same
    letter in lower case. *)
Definition IChar (c : ascii) : regex :=
  Chr (fun x => Ascii.eqb (lower_char x) (lower_char c)).

Fixpoint ILit (s : string) : regex :=
  match s with
  | EmptyString => Eps
  | String c s' => Seq (IChar c) (ILit s')
  end.
End ReIgnoreCase.

(** ** src/guardrails/content_filter.py *)

Module ContentFilter.
Import PyStr PyText Re ReIgnoreCase.

Inductive ViolationType : Type :=
| INVESTMENT_ADVICE
| FORWARD_LOOKING
| INSIDER_INFO
| TOKEN_LIMIT
| PROHIBITED_CONTENT.

#[global] Instance ViolationType_eq_dec : EqDecision ViolationType.
Proof. solve_decision. Defined.

Record Violation : Type := {
  violation_type : ViolationType;
  description : string;
  severity : string;
  matched_text : string
}.

Record FilterResult : Type := {
  passed : bool;
  violations : list Violation;
  warnings : list string;
  filtered_text : string
}.

(** [\s+] and [\s*]. *)
Definition blanks : regex := Plus (Chr isspace).
Definition any_blanks : regex := Star (Chr isspace).

(** [a\s+b], case ignored. *)
Definition words2 (a b : string) : regex :=
  Seq (ILit a) (Seq blanks (ILit b)).

Definition words3 (a b c : string) : regex :=
  Seq (ILit a) (Seq blanks (Seq (ILit b) (Seq blanks (ILit c)))).

(** [\b(?:you\s+should|we\s+recommend|i\s+suggest)\s+(?:buy|sell|hold|invest)] *)
Definition advice_1 : regex :=
  Seq WordBoundary
    (Seq (Alt (words2 "you" "should")
            (Alt (words2 "we" "recommend") (words2 "i" "suggest")))
       (Seq blanks
          (Alt (ILit "buy")
             (Alt (ILit "sell") (Alt (ILit "hold") (ILit "invest")))))).

(** [\b(?:strong\s+buy|must\s+buy|sell\s+immediately|avoid\s+this\s+stock)] *)
Definition advice_2 : regex :=
  Seq WordBoundary
    (Alt (words2 "strong" "buy")
       (Alt (words2 "must" "buy")
          (Alt (words2 "sell" "immediately")
             (words3 "avoid" "this" "stock")))).

(** [\b(?:buy\s+rating|sell\s+rating|outperform|underperform)\b] *)
Definition advice_3 : regex :=
  Seq WordBoundary
    (Seq (Alt (words2 "buy" "rating")
            (Alt (words2 "sell" "rating")
               (Alt (ILit "outperform") (ILit "underperform"))))
       WordBoundary).

(** [\b(?:target\s+price|price\s+target)\s*(?:of|is|:)\s*\$] *)
Definition advice_4 : regex :=
  Seq WordBoundary
    (Seq (Alt (words2 "target" "price") (words2 "price" "target"))
       (Seq any_blanks
          (Seq (Alt (ILit "of") (Alt (ILit "is") (Lit ":")))
             (Seq any_blanks (Lit "$"))))).

Definition INVESTMENT_ADVICE_PATTERNS : list regex :=
  [advice_1; advice_2; advice_3; advice_4].

(** [\bwill\s+(?:likely|probably|definitely)\s+(?:increase|decrease|grow|decline)] *)
Definition fls_1 : regex :=
  Seq WordBoundary
    (Seq (ILit "will")
       (Seq blanks
          (Seq (Alt (ILit "likely")
                  (Alt (ILit "probably") (ILit "definitely")))
             (Seq blanks
                (Alt (ILit "increase")
                   (Alt (ILit "decrease")
                      (Alt (ILit "grow") (ILit "decline")))))))).

(** [\b(?:expected\s+to|projected\s+to|forecast\s+to|anticipated\s+to)\b] *)
Definition fls_2 : regex :=
  Seq WordBoundary
    (Seq (Alt (words2 "expected" "to")
            (Alt (words2 "projected" "to")
               (Alt (words2 "forecast" "to") (words2 "anticipated" "to"))))
       WordBoundary).

(** [\b(?:future\s+(?:revenue|earnings|growth|performance))] *)
Definition fls_3 : regex :=
  Seq WordBoundary
    (Seq (ILit "future")
       (Seq blanks
          (Alt (ILit "revenue")
             (Alt (ILit "earnings")
                (Alt (ILit "growth") (ILit "performance")))))).

(** [\b(?:guidance\s+(?:of|for|suggests|indicates))] *)
Definition fls_4 : regex :=
  Seq WordBoundary
    (Seq (ILit "guidance")
       (Seq blanks
          (Alt (ILit "of")
             (Alt (ILit "for")
                (Alt (ILit "suggests") (ILit "indicates")))))).

Definition FORWARD_LOOKING_PATTERNS : list regex :=
  [fls_1; fls_2; fls_3; fls_4].

Definition FLS_DISCLAIMER : string :=
  LF ++ LF ++ "---" ++ LF
  ++ "*This analysis contains forward-looking statements based on "
  ++ "company filings. Actual results may differ materially. This is not "
  ++ "investment advice.*".

Definition CONTENT_REMOVED : string :=
  "[CONTENT REMOVED: Investment advice is not provided by this system]".

(** The attributes that [__init__] reads from the settings. *)
Record ContentFilter : Type := {
  _enabled : bool;
  _max_tokens : nat
}.

(** [content_filter_enabled] and [max_token_output] as the settings
    default them. *)
Definition default : ContentFilter :=
  {| _enabled := true; _max_tokens := 4096 |}.

Definition _check_investment_advice (text : string) : list Violation :=
  flat_map
    (fun pattern =>
       map (fun m =>
              {| violation_type := INVESTMENT_ADVICE;
                 description := "Detected investment advice / recommendation";
                 severity := "block";
                 matched_text := m |})
           (findall pattern text))
    INVESTMENT_ADVICE_PATTERNS.

Definition _check_forward_looking (text : string) : list Violation :=
  flat_map
    (fun pattern =>
       map (fun m =>
              {| violation_type := FORWARD_LOOKING;
                 description := "Forward-looking statement detected";
                 severity := "warn";
                 matched_text := m |})
           (findall pattern text))
    FORWARD_LOOKING_PATTERNS.

(** The loop over the blocking violations. *)
Definition remove_matched (filtered_text : string) (blocking : list Violation)
    : string :=
  fold_left
    (fun filtered_text v =>
       match matched_text v with
       | EmptyString => filtered_text
       | m => replace filtered_text m CONTENT_REMOVED
       end)
    blocking filtered_text.

Definition filter (self : ContentFilter) (text : string) : FilterResult :=
  if negb (_enabled self)
  then {| passed := true; violations := []; warnings := [];
          filtered_text := text |}
  else
    let violations : list Violation := [] in
    let warnings : list string := [] in
    let advice_violations := _check_investment_advice text in
    let violations := (violations ++ advice_violations)%list in
    let fls_violations := _check_forward_looking text in
    let violations := (violations ++ fls_violations)%list in
    let violations :=
      if (_max_tokens self <? length (split text))%nat
      then (violations
            ++ [{| violation_type := TOKEN_LIMIT;
                   description :=
                     "Response exceeds "
                     ++ PyNum.decimal (Z.of_nat (_max_tokens self))
                     ++ " token limit";
                   severity := "warn";
                   matched_text := "" |}])%list
      else violations in
    let blocking :=
      List.filter (fun v => String.eqb (severity v) "block") violations in
    let has_fls :=
      existsb (fun v => bool_decide (violation_type v = FORWARD_LOOKING))
        violations in
    let filtered_text := text in
    let '(filtered_text, warnings) :=
      match blocking with
      | [] => (filtered_text, warnings)
      | _ =>
          (remove_matched filtered_text blocking,
           (warnings
            ++ ["Investment advice content was removed from the response."])%list)
      end in
    let '(filtered_text, warnings) :=
      if has_fls
      then ((filtered_text ++ FLS_DISCLAIMER)%string,
            (warnings ++ ["Forward-looking statement disclaimer added."])%list)
      else (filtered_text, warnings) in
    let passed := (length blocking =? 0)%nat in
    {| passed := passed; violations := violations; warnings := warnings;
       filtered_text := filtered_text |}.
End ContentFilter.

(** ** The matches of a scan with their positions *)

Module ReSpan.
Import PyStr Re.

(** A match: [m.start()], [m.end()] and [m.group()]. *)
Record span : Type := {
  span_start : nat;
  span_end : nat;
  span_text : string
}.

(** The scan of [Re.finditer_go], counting the position [pos] of the
    rest [s] in the text. *)
Fixpoint finditer_go (fuel : nat) (r : regex) (prev : option ascii)
    (s : string) (pos : nat) : list span :=
  match fuel with
  | O => []
  | S fuel' =>
      match match_at r prev s with
      | Some rest =>
          let n := (String.length s - String.length rest)%nat in
          let m := substring 0 n s in
          let found :=
            {| span_start := pos; span_end := (pos + n)%nat;
               span_text := m |} in
          match n, s with
          | O, String c s' => found :: finditer_go fuel' r (Some c) s' (S pos)
          | O, EmptyString => [found]
          | _, _ =>
              found :: finditer_go fuel' r (last_char m) rest (pos + n)%nat
          end
      | None =>
          match s with
          | String c s' => finditer_go fuel' r (Some c) s' (S pos)
          | EmptyString => []
          end
      end
  end.

(** [list(pattern.finditer(s))]. *)
Definition finditer (r : regex) (s : string) : list span :=
  finditer_go (S (String.length s)) r None s 0.
End ReSpan.

(** ** src/guardrails/pii_redactor.py

    The detection with Presidio is not modelled: the redactor below is
    the one that [__init__] leaves when Presidio cannot be imported
    ([_use_presidio] false). *)

Module PIIRedactor.
Import PyStr PyText Re ReIgnoreCase ReSpan.
Local Open Scope Q_scope.

Inductive PIIEntityType : Type :=
| SSN
| CREDIT_CARD
| ACCOUNT_NUMBER
| ROUTING_NUMBER
| EMAIL
| PHONE
| PERSON_NAME
| ADDRESS
| DATE_OF_BIRTH.

#[global] Instance PIIEntityType_eq_dec : EqDecision PIIEntityType.
Proof. solve_decision. Defined.

(** [end] is [end_] here. *)
Record PIIEntity : Type := {
  entity_type : PIIEntityType;
  start : nat;
  end_ : nat;
  text : string;
  confidence : Q
}.

Record RedactionResult : Type := {
  original_text : string;
  redacted_text : string;
  entities_found : list PIIEntity;
  entity_count : nat;
  was_redacted : bool
}.

Definition digit : regex := Chr isdecimal.

(** [[-\s]] and [[-.\s]] *)
Definition dash_or_space : regex := Chr (fun c => OneOf "-" c || isspace c).
Definition separator : regex := Chr (fun c => OneOf "-." c || isspace c).

(** [\b\d{3}-\d{2}-\d{4}\b] *)
Definition ssn : regex :=
  Seq WordBoundary
    (Seq (Times 3 digit)
       (Seq (Lit "-")
          (Seq (Times 2 digit)
             (Seq (Lit "-") (Seq (Times 4 digit) WordBoundary))))).

(** [\b(?:\d{4}[-\s]?){3}\d{4}\b] *)
Definition credit_card : regex :=
  Seq WordBoundary
    (Seq (Times 3 (Seq (Times 4 digit) (Opt dash_or_space)))
       (Seq (Times 4 digit) WordBoundary)).

(** [(?:number|#|no\.?)?[:.\s]*], case ignored. *)
Definition number_label : regex :=
  Seq (Opt (Alt (ILit "number")
              (Alt (Lit "#") (Seq (ILit "no") (Opt (Lit "."))))))
      (Star (Chr (fun c => OneOf ":." c || isspace c))).

(** The pattern of [ACCOUNT_NUMBER], compiled with [re.IGNORECASE]:
    [\b], the group of [account\s*] and the label, then [\d{8,17}\b]. *)
Definition account_number : regex :=
  Seq WordBoundary
    (Seq (Seq (ILit "account") (Seq (Star (Chr isspace)) number_label))
       (Seq (Range 8 9 digit) WordBoundary)).

(** The pattern of [ROUTING_NUMBER], compiled with [re.IGNORECASE]:
    [\b], the group of [routing\s*] and the label, then [\d{9}\b]. *)
Definition routing_number : regex :=
  Seq WordBoundary
    (Seq (Seq (ILit "routing") (Seq (Star (Chr isspace)) number_label))
       (Seq (Times 9 digit) WordBoundary)).

Definition ascii_alnum (c : ascii) : bool :=
  between 65 90 c || between 97 122 c || between 48 57 c.

(** [\b[A-Za-z0-9._%+-]+@[A-Za-z0-9.-]+\.[A-Z|a-z]{2,}\b] *)
Definition email : regex :=
  Seq WordBoundary
    (Seq (Plus (Chr (fun c => ascii_alnum c || OneOf "._%+-" c)))
       (Seq (Lit "@")
          (Seq (Plus (Chr (fun c => ascii_alnum c || OneOf ".-" c)))
             (Seq (Lit ".")
                (Seq (let tld :=
                        Chr (fun c => between 65 90 c || OneOf "|" c
                                      || between 97 122 c) in
                      Seq (Times 2 tld) (Star tld))
                   WordBoundary))))).

(** [\b(?:\+?1[-.\s]?)?\(?\d{3}\)?[-.\s]?\d{3}[-.\s]?\d{4}\b] *)
Definition phone : regex :=
  Seq WordBoundary
    (Seq (Opt (Seq (Opt (Lit "+")) (Seq (Lit "1") (Opt separator))))
       (Seq (Opt (Lit "("))
          (Seq (Times 3 digit)
             (Seq (Opt (Lit ")"))
                (Seq (Opt separator)
                   (Seq (Times 3 digit)
                      (Seq (Opt separator)
                         (Seq (Times 4 digit) WordBoundary)))))))).

(** The dict [PII_PATTERNS], in the order of its keys. *)
Definition PII_PATTERNS : list (PIIEntityType * regex) := [
  (SSN, ssn);
  (CREDIT_CARD, credit_card);
  (ACCOUNT_NUMBER, account_number);
  (ROUTING_NUMBER, routing_number);
  (EMAIL, email);
  (PHONE, phone)
].

(** [REDACTION_MARKERS.get(entity_type, "[REDACTED]")]: the dict has
    every member of the enumeration. *)
Definition REDACTION_MARKERS (t : PIIEntityType) : string :=
  match t with
  | SSN => "[SSN_REDACTED]"
  | CREDIT_CARD => "[CREDIT_CARD_REDACTED]"
  | ACCOUNT_NUMBER => "[ACCOUNT_REDACTED]"
  | ROUTING_NUMBER => "[ROUTING_REDACTED]"
  | EMAIL => "[EMAIL_REDACTED]"
  | PHONE => "[PHONE_REDACTED]"
  | PERSON_NAME => "[NAME_REDACTED]"
  | ADDRESS => "[ADDRESS_REDACTED]"
  | DATE_OF_BIRTH => "[DOB_REDACTED]"
  end.

(** The attributes of the redactor. *)
Record PIIRedactor : Type := {
  _enabled : bool
}.

Definition entity_of (entity_type : PIIEntityType) (m : span) : PIIEntity :=
  {| entity_type := entity_type;
     start := span_start m;
     end_ := span_end m;
     text := span_text m;
     confidence := 0.9 |}.

Definition _detect_with_regex (text : string) : list PIIEntity :=
  flat_map
    (fun '(entity_type, pattern) =>
       map (entity_of entity_type) (finditer pattern text))
    PII_PATTERNS.

(** [sorted(entities, key=lambda e: e.start, reverse=True)]: the sort is
    stable, entities of one start keep their order. *)
Fixpoint insert_by_start (e : PIIEntity) (l : list PIIEntity)
    : list PIIEntity :=
  match l with
  | [] => [e]
  | y :: l' =>
      if (start e <? start y)%nat then y :: insert_by_start e l'
      else e :: l
  end.

Definition sorted_by_start_desc (entities : list PIIEntity)
    : list PIIEntity :=
  foldr insert_by_start [] entities.

(** [redacted[:entity.start] + marker + redacted[entity.end:]]. *)
Definition splice (redacted : string) (entity : PIIEntity) : string :=
  (slice_to (start entity) redacted
   ++ REDACTION_MARKERS (entity_type entity)
   ++ slice_from (end_ entity) redacted)%string.

Definition _redact_with_regex (text : string) : RedactionResult :=
  let entities := _detect_with_regex text in
  match entities with
  | [] =>
      {| original_text := text; redacted_text := text;
         entities_found := []; entity_count := 0; was_redacted := false |}
  | _ =>
      let redacted := fold_left splice (sorted_by_start_desc entities) text in
      {| original_text := text; redacted_text := redacted;
         entities_found := entities; entity_count := length entities;
         was_redacted := true |}
  end.

Definition redact (self : PIIRedactor) (text : string) : RedactionResult :=
  if negb (_enabled self)
  then {| original_text := text; redacted_text := text;
          entities_found := []; entity_count := 0; was_redacted := false |}
  else _redact_with_regex text.

Definition detect_only (self : PIIRedactor) (text : string)
    : list PIIEntity :=
  if negb (_enabled self) then [] else _detect_with_regex text.
End PIIRedactor.

(** ** The guardrails of the orchestrator

    [QueryOrchestrator.__init__] builds [PIIRedactor()] and
    [ContentFilter()]; the workflow reads three fields of what each of
    them returns. *)

Module Guardrails.
Import Workflow.

Definition redact (redactor : PIIRedactor.PIIRedactor) (text : string)
    : RedactionResult :=
  let result := PIIRedactor.redact redactor text in
  {| redacted_text := PIIRedactor.redacted_text result;
     entity_count := PIIRedactor.entity_count result;
     was_redacted := PIIRedactor.was_redacted result |}.

Definition filter (content_filter : ContentFilter.ContentFilter)
    (text : string) : FilterResult :=
  let result := ContentFilter.filter content_filter text in
  {| passed := ContentFilter.passed result;
     filter_warnings := ContentFilter.warnings result;
     filtered_text := ContentFilter.filtered_text result |}.
End Guardrails.

(** ** backend/src/llm/prompts.py: the numbered sources *)

Module Prompts.
Import PyNum PyStr PyText.

(** The loop over [enumerate(chunks, i)]: the part of each chunk is
    [f"[Source {i}]\n{chunk}\n"]. *)
Fixpoint formatted_parts (i : nat) (chunks : list string) : list string :=
  match chunks with
  | [] => []
  | chunk :: rest =>
      ("[Source " ++ decimal (Z.of_nat i) ++ "]" ++ LF ++ chunk ++ LF)%string
      :: formatted_parts (S i) rest
  end.

Definition _format_context (chunks : list string) : string :=
  match chunks with
  | [] => "[No source documents available]"
  | _ => join (LF ++ "---" ++ LF) (formatted_parts 1 chunks)
  end.
End Prompts.

(** ** Floats that are not numbers

    The modules above take a float for the real number it stands for.  A
    Python float can also be an infinity or NaN, which the arithmetic
    hands on and every comparison with NaN answers with [False].  Here
    the numbers are still exact - the rounding of binary64 and its
    overflow to an infinity are not modelled -, the two infinities and
    NaN are added, and zero has no sign. *)

Module PyFloat.
Import PyStr.
Local Open Scope Q_scope.

Inductive float : Type :=
| Real (q : Q)
| Inf (negative : bool)
| NaN.

Definition of_nat (n : nat) : float := Real (PyNum.of_nat n).

Definition neg (a : float) : float :=
  match a with
  | Real x => Real (- x)
  | Inf negative => Inf (negb negative)
  | NaN => NaN
  end.

Definition add (a b : float) : float :=
  match a, b with
  | NaN, _ | _, NaN => NaN
  | Real x, Real y => Real (x + y)
  | Inf negative, Real _ | Real _, Inf negative => Inf negative
  | Inf na, Inf nb => if Bool.eqb na nb then Inf na else NaN
  end.

Definition sub (a b : float) : float := add a (neg b).

Definition mul (a b : float) : float :=
  match a, b with
  | NaN, _ | _, NaN => NaN
  | Real x, Real y => Real (x * y)
  | Inf negative, Real y | Real y, Inf negative =>
      if Qeq_bool y 0 then NaN else Inf (xorb negative (PyNum.lt y 0))
  | Inf na, Inf nb => Inf (xorb na nb)
  end.

(** [a / b] for a divisor that is not zero: on a zero divisor Python
    raises ZeroDivisionError, and no division of the code below has
    one. *)
Definition div (a b : float) : float :=
  match a, b with
  | NaN, _ | _, NaN => NaN
  | Real x, Real y => Real (x / y)
  | Real _, Inf _ => Real 0
  | Inf negative, Real y => Inf (xorb negative (PyNum.lt y 0))
  | Inf _, Inf _ => NaN
  end.

(** [a > b] and [a < b]: [False] when one of the two is NaN. *)
Definition gt (a b : float) : bool :=
  match a, b with
  | NaN, _ | _, NaN => false
  | Real x, Real y => PyNum.gt x y
  | Real _, Inf negative => negative
  | Inf negative, Real _ => negb negative
  | Inf na, Inf nb => negb na && nb
  end.

Definition lt (a b : float) : bool := gt b a.

(** The builtins [max(a, b)] and [min(a, b)]: the first argument is kept
    unless the second is strictly better, so a NaN that comes first is
    kept. *)
Definition max2 (a b : float) : float := if gt b a then b else a.
Definition min2 (a b : float) : float := if lt b a then b else a.

(** [sum(xs)]: a left fold from 0. *)
Definition sum (xs : list float) : float := fold_left add xs (Real 0).

(** [round(x, ndigits)]: an infinity and NaN round to themselves. *)
Definition round (x : float) (ndigits : nat) : float :=
  match x with
  | Real q => Real (PyNum.round q ndigits)
  | _ => x
  end.

Definition digit_value (c : ascii) : Z := (Z.of_N (code c) - 48)%Z.

(** The digits of a number, a single underscore allowed between two of
    them: the value read, the count of digits and the rest; [None] when
    an underscore is not followed by a digit. *)
Fixpoint digits_go (s : string) (acc : Z) (n : nat)
    : option (Z * nat * string) :=
  match s with
  | String c s' =>
      if isdecimal c then digits_go s' (10 * acc + digit_value c)%Z (S n)
      else if Ascii.eqb c "_" then
        match s' with
        | String d _ => if isdecimal d then digits_go s' acc n else None
        | EmptyString => None
        end
      else Some (acc, n, s)
  | EmptyString => Some (acc, n, s)
  end.

(** The digits at the front of [s], none when [s] does not start with
    one. *)
Definition digits (s : string) : option (Z * nat * string) :=
  match s with
  | String c _ => if isdecimal c then digits_go s 0%Z 0%nat
                  else Some (0%Z, 0%nat, s)
  | EmptyString => Some (0%Z, 0%nat, s)
  end.

Definition signed (s : string) : bool * string :=
  match s with
  | String "-" s' => (true, s')
  | String "+" s' => (false, s')
  | _ => (false, s)
  end.

(** The exponent of a number: nothing, or [e] or [E], a sign and
    digits. *)
Definition exponent (s : string) : option (Z * string) :=
  match s with
  | String c s' =>
      if Ascii.eqb c "e" || Ascii.eqb c "E" then
        let '(negative, s') := signed s' in
        match digits s' with
        | Some (e, S _, rest) => Some (if negative then (- e)%Z else e, rest)
        | _ => None
        end
      else Some (0%Z, s)
  | EmptyString => Some (0%Z, s)
  end.

(** A number in decimal notation: digits with an optional point and an
    optional exponent, one digit at least before the exponent. *)
Definition number (s : string) : option Q :=
  match digits s with
  | Some (ip, ni, s) =>
      match
        match s with
        | String "." s' => digits s'
        | _ => Some (0%Z, 0%nat, s)
        end
      with
      | Some (fp, nf, s) =>
          if (ni + nf =? 0)%nat then None
          else
            match exponent s with
            | Some (e, EmptyString) =>
                Some ((inject_Z ip + inject_Z fp / PyNum.pow10 nf)
                      * Qpower 10 e)
            | _ => None
            end
      | None => None
      end
  | None => None
  end.

(** [float(s)] on a string, [None] standing for ValueError: blanks
    around, a sign, then [inf], [infinity] or [nan] in any case, or a
    number. *)
Definition of_str (s : string) : option float :=
  let '(negative, body) := signed (strip s) in
  let name := lower body in
  if String.eqb name "nan" then Some NaN
  else if String.eqb name "inf" || String.eqb name "infinity"
  then Some (Inf negative)
  else
    match number body with
    | Some q => Some (Real (if negative then - q else q))
    | None => None
    end.

(** [float(v)] on a value of [json.loads].  The literals [NaN] and
    [Infinity] that [json.loads] also reads are not values of [json]: a
    string that spells them gives the same float. *)
Definition of_json (v : Json.json) : result float :=
  match v with
  | Json.JNum q => Ok (Real q)
  | Json.JBool b => Ok (Real (if b then 1 else 0))
  | Json.JStr s =>
      match of_str s with
      | Some x => Ok x
      | None => Raise ValueError
      end
  | Json.JNull | Json.JArr _ | Json.JObj _ => Raise TypeError
  end.

Declare Scope float_scope.
Delimit Scope float_scope with F.
Bind Scope float_scope with float.
Infix "+" := add : float_scope.
Infix "-" := sub : float_scope.
Infix "*" := mul : float_scope.
Infix "/" := div : float_scope.
End PyFloat.

(** ** The two scorers on all floats

    [score] of the confidence scorer and [detect] of the hallucination
    detector once more, with the floats that come from outside - the
    relevance of a citation, the two outside factors, the scores of the
    judge - possibly infinite or NaN.  What the code computes from texts
    is a number and is taken from the modules above. *)

Module WithNaN.

(** *** backend/src/evaluation/confidence_scorer.py *)

Module ConfidenceScorer.
Import PyFloat.
Local Open Scope Q_scope.

(** [Citation] of src/models/schemas.py: [relevance_score] is a float
    without bounds. *)
Record Citation : Type := {
  chunk_id : string;
  source_document : string;
  section : string;
  relevance_score : float;
  text_excerpt : string
}.

Record ConfidenceResult : Type := {
  confidence_score : float;
  source_coverage_score : float;
  citation_density_score : float;
  specificity_score : float;
  hedging_penalty : float;
  retrieval_relevance_score : float;
  breakdown : list (string * float)
}.

Definition _score_retrieval_relevance (citations : list Citation) : float :=
  match citations with
  | [] => Real 0.0
  | _ =>
      let avg :=
        (sum (map relevance_score citations) / of_nat (length citations))%F in
      min2 (max2 avg (Real 0.0)) (Real 1.0)
  end.

Definition score (response_text query : string) (citations : list Citation)
    (source_chunks : list string) (hallucination_score consistency_score : float)
    : ConfidenceResult :=
  let source_coverage :=
    Real (ConfidenceScorer._score_source_coverage query source_chunks) in
  let citation_density :=
    Real (ConfidenceScorer._score_citation_density response_text) in
  let specificity :=
    Real (ConfidenceScorer._score_specificity response_text) in
  let hedging :=
    Real (ConfidenceScorer._score_hedging_penalty response_text) in
  let retrieval_relevance := _score_retrieval_relevance citations in
  let composite :=
    (Real 0.20 * source_coverage
     + Real 0.15 * citation_density
     + Real 0.10 * specificity
     + Real 0.15 * (Real 1.0 - hedging)
     + Real 0.10 * retrieval_relevance
     + Real 0.15 * (Real 1.0 - hallucination_score)
     + Real 0.15 * consistency_score)%F in
  {| confidence_score := round (min2 (max2 composite (Real 0.0)) (Real 1.0)) 4;
     source_coverage_score := round source_coverage 4;
     citation_density_score := round citation_density 4;
     specificity_score := round specificity 4;
     hedging_penalty := round hedging 4;
     retrieval_relevance_score := round retrieval_relevance 4;
     breakdown := [
       ("source_coverage", round source_coverage 4);
       ("citation_density", round citation_density 4);
       ("specificity", round specificity 4);
       ("hedging_penalty", round hedging 4);
       ("retrieval_relevance", round retrieval_relevance 4);
       ("hallucination_factor", round (Real 1.0 - hallucination_score)%F 4);
       ("consistency_factor", round consistency_score 4)
     ] |}.
End ConfidenceScorer.

(** *** src/evaluation/hallucination_detector.py *)

Module HallucinationDetector.
Import Json LLM Embeddings PyFloat.
Local Open Scope Q_scope.

Record HallucinationResult : Type := {
  hallucination_score : float;
  factual_grounding_score : float;
  claims : list HallucinationDetector.ClaimVerification;
  entity_overlap_score : float;
  semantic_similarity_score : float
}.

(** The statements of the [try] block after the call of the model. *)
Definition parse_judge (c : completion) : result HallucinationResult :=
  parsed ← loads c;
  items ← get parsed "claims" (JArr []) ≫= iter;
  claims ← mapM HallucinationDetector.claim_of items;
  h ← get parsed "hallucination_score" (JNum 0.5) ≫= of_json;
  g ← get parsed "factual_grounding_score" (JNum 0.5) ≫= of_json;
  mret {| hallucination_score := h; factual_grounding_score := g;
          claims := claims; entity_overlap_score := Real 0.0;
          semantic_similarity_score := Real 0.0 |}.

(** The result of the [except] clause. *)
Definition neutral : HallucinationResult :=
  {| hallucination_score := Real 0.5; factual_grounding_score := Real 0.5;
     claims := []; entity_overlap_score := Real 0.0;
     semantic_similarity_score := Real 0.0 |}.

Definition _llm_judge_verification (llm : LLMClient)
    (response_text : string) (source_chunks : list string) (query : string)
    : Run HallucinationResult :=
  try_except
    (result_text ← generate llm; lift (parse_judge result_text))
    parse_errors
    (fun _ => mret neutral).

Definition detect (llm : LLMClient) (embeddings : EmbeddingService)
    (response_text : string) (source_chunks : list string) (query : string)
    : Run HallucinationResult :=
  llm_result ← _llm_judge_verification llm response_text source_chunks query;
  let entity_score :=
    Real (HallucinationDetector._entity_overlap_check response_text
            source_chunks) in
  let semantic_score :=
    Real (HallucinationDetector._semantic_similarity_check embeddings
            response_text source_chunks) in
  let combined_hallucination :=
    (Real 0.6 * hallucination_score llm_result
     + Real 0.2 * (Real 1.0 - entity_score)
     + Real 0.2 * (Real 1.0 - semantic_score))%F in
  let combined_grounding :=
    (Real 0.6 * factual_grounding_score llm_result
     + Real 0.2 * entity_score
     + Real 0.2 * semantic_score)%F in
  mret {|
    hallucination_score :=
      round (min2 (max2 combined_hallucination (Real 0.0)) (Real 1.0)) 4;
    factual_grounding_score :=
      round (min2 (max2 combined_grounding (Real 0.0)) (Real 1.0)) 4;
    claims := claims llm_result;
    entity_overlap_score := round entity_score 4;
    semantic_similarity_score := round semantic_score 4
  |}.
End HallucinationDetector.
End WithNaN.

(* ================================================================== *)
(** * Part II: the terms of the statements, and sample inputs *)
(* ================================================================== *)

Section DetectionTerms.
Import PyNum PyStr Json LLM Embeddings HallucinationDetector.
Local Open Scope Q_scope.

(** [s] between double quotes. *)
Definition quoted (s : string) : string :=
  String "034" (s ++ String "034" EmptyString).

(** A judge whose reply is the JSON object with the scores 0.2 and 0.9. *)
Definition judge_reply_sample : completion := {|
  text := "{" ++ quoted "hallucination_score" ++ ": 0.2, "
          ++ quoted "factual_grounding_score" ++ ": 0.9}";
  decoded := Some (JObj [("hallucination_score", JNum 0.2);
                         ("factual_grounding_score", JNum 0.9)])
|}.

Definition embeddings_sample : EmbeddingService := {|
  embed_query := fun _ => Ok [1; 0];
  similarities := fun _ chunks => Ok (map (fun _ => 0.75) chunks)
|}.

(** Two replies of the judge that are JSON objects, but not of the shape
    the prompt asks for: the claims as a list of strings, and a score
    spelt as a word. *)
Definition judge_claims_as_strings : completion := {|
  text := "{" ++ quoted "claims" ++ ": [" ++ quoted "Revenue grew 8%"
          ++ "], " ++ quoted "hallucination_score" ++ ": 0.1, "
          ++ quoted "factual_grounding_score" ++ ": 0.9}";
  decoded := Some (JObj [("claims", JArr [JStr "Revenue grew 8%"]);
                         ("hallucination_score", JNum 0.1);
                         ("factual_grounding_score", JNum 0.9)])
|}.

Definition judge_score_as_word : completion := {|
  text := "{" ++ quoted "claims" ++ ": [], "
          ++ quoted "hallucination_score" ++ ": " ++ quoted "low" ++ ", "
          ++ quoted "factual_grounding_score" ++ ": 0.9}";
  decoded := Some (JObj [("claims", JArr []);
                         ("hallucination_score", JStr "low");
                         ("factual_grounding_score", JNum 0.9)])
|}.
End DetectionTerms.

Section ExcerptTerms.
Import PyStr Schemas VectorStore HybridRetriever.

(** The content of 201 letters [a]. *)
Definition long_content : string := String.concat "" (replicate 201 "a").

Definition chunk_of_content (content : string) : Chunk := {|
  chunk_id := "c1";
  content := content;
  metadata := ∅;
  VectorStore.relevance_score := 0.9;
  rrf_score := Some 0.01%Q
|}.
End ExcerptTerms.

Section ConsistencyTerms.
Import PyNum Json LLM ConsistencyScorer.
Local Open Scope Q_scope.

(** The texts of the calls [n], ..., [n + k - 1] of the model that
    succeed, in order. *)
Fixpoint successes (llm : LLMClient) (n k : nat) : list string :=
  match k with
  | O => []
  | S k' =>
      match reply llm n with
      | Some c => text c :: successes llm (S n) k'
      | None => successes llm (S n) k'
      end
  end.

(** A run with two samples asked for: both are obtained; the judge gives
    0.9 with one discrepancy for the first, and an answer that is not
    JSON for the second. *)
Definition consistency_run_sample : LLMClient := {|
  reply := fun n =>
    match n with
    | 0%nat => Some {| text := "Revenue grew 8%."; decoded := None |}
    | 1%nat => Some {| text := "Revenue rose 8%."; decoded := None |}
    | 2%nat =>
        Some {| text := "{" ++ quoted "consistency_score" ++ ": 0.9, "
                        ++ quoted "discrepancies" ++ ": ["
                        ++ quoted "wording" ++ "]}";
                decoded :=
                  Some (JObj [("consistency_score", JNum 0.9);
                              ("discrepancies", JArr [JStr "wording"])]) |}
    | 3%nat => Some {| text := "no JSON here"; decoded := None |}
    | _ => None
    end
|}.

(** Three replies of the pairwise judge that are JSON, but not of the
    shape the prompt asks for: the score spelt as a word, a list in place
    of the object, and [null] for the list of discrepancies. *)
Definition pair_score_as_word : completion := {|
  text := "{" ++ quoted "consistency_score" ++ ": " ++ quoted "high" ++ ", "
          ++ quoted "discrepancies" ++ ": []}";
  decoded := Some (JObj [("consistency_score", JStr "high");
                         ("discrepancies", JArr [])])
|}.

Definition pair_as_list : completion := {|
  text := "[0.9]";
  decoded := Some (JArr [JNum 0.9])
|}.

Definition pair_discrepancies_null : completion := {|
  text := "{" ++ quoted "consistency_score" ++ ": 0.9, "
          ++ quoted "discrepancies" ++ ": null}";
  decoded := Some (JObj [("consistency_score", JNum 0.9);
                         ("discrepancies", JNull)])
|}.

(** A run of the scorer with one sample asked for and obtained, in which
    the pairwise judge replies [c]. *)
Definition pair_run (c : completion) : LLMClient := {|
  reply := fun n =>
    match n with
    | 0%nat => Some {| text := "Revenue rose 8%."; decoded := None |}
    | 1%nat => Some c
    | _ => None
    end
|}.

(** A run of the evaluation: the judge of the detector replies as asked,
    the two samples are obtained, and the pairwise judge replies [c] for
    the first of them. *)
Definition evaluation_run (c : completion) : LLMClient := {|
  reply := fun n =>
    match n with
    | 0%nat => Some judge_reply_sample
    | 1%nat => Some {| text := "Revenue grew 8%."; decoded := None |}
    | 2%nat => Some {| text := "Revenue rose 8%."; decoded := None |}
    | 3%nat => Some c
    | _ => None
    end
|}.
End ConsistencyTerms.

Section RegenerationTerms.
Import PyNum Schemas Workflow.
Local Open Scope Q_scope.

(** How many more nodes can run from node [n], and how many of them can be
    [generate], given the attempts made so far. *)
Definition steps_left (n : node) (attempts : nat) : nat :=
  match n with
  | assemble => 1
  | guardrails => 2
  | evaluate => 3 + 2 * (MAX_REGENERATION_ATTEMPTS - attempts)
  | generate => 4 + 2 * (MAX_REGENERATION_ATTEMPTS - S attempts)
  | retrieve => 5 + 2 * (MAX_REGENERATION_ATTEMPTS - S attempts)
  end.

Definition generations_left (n : node) (attempts : nat) : nat :=
  match n with
  | assemble | guardrails => 0
  | evaluate => MAX_REGENERATION_ATTEMPTS - attempts
  | generate | retrieve => 1 + (MAX_REGENERATION_ATTEMPTS - S attempts)
  end.
End RegenerationTerms.

Section RegenerationSampleTerms.
Import PyNum Json LLM Embeddings VectorStore Schemas Workflow.
Local Open Scope Q_scope.

Definition invented_answer : completion := {|
  text := "Revenue was $450 billion in FY2023.";
  decoded := None
|}.

Definition judge_hallucinated : completion := {|
  text := "{" ++ quoted "hallucination_score" ++ ": 1.0, "
          ++ quoted "factual_grounding_score" ++ ": 0.0}";
  decoded := Some (JObj [("hallucination_score", JNum 1.0);
                         ("factual_grounding_score", JNum 0.0)])
|}.

Definition judge_consistent : completion := {|
  text := "{" ++ quoted "consistency_score" ++ ": 0.9}";
  decoded := Some (JObj [("consistency_score", JNum 0.9)])
|}.

Definition hallucinating_llm : LLMClient := {|
  reply := fun n =>
    nth n [Some invented_answer; Some judge_hallucinated;
           Some invented_answer; Some invented_answer;
           Some judge_consistent; Some judge_consistent;
           Some invented_answer; Some judge_hallucinated] None
|}.

Definition source_chunk : Chunk := {|
  chunk_id := "aapl-10k-7";
  content := "Total net sales were $394.3 billion, an increase of 8%.";
  metadata := {[ "company_name" := "Apple"; "filing_type" := "10-K" ]};
  VectorStore.relevance_score := 0.9;
  rrf_score := None
|}.

Definition orchestrator_sample : QueryOrchestrator := {|
  _settings := Config.default;
  _embedding_service :=
    {| embed_query := fun _ => Ok [1; 0];
       similarities := fun _ chunks => Ok (map (fun _ => 0) chunks) |};
  _vector_store :=
    {| is_chroma := true;
       search := fun _ _ _ => Ok [source_chunk];
       keyword_search := fun _ _ _ => Ok [source_chunk] |};
  _llm_client := hallucinating_llm;
  _pii_redactor := fun t =>
    {| redacted_text := t; entity_count := 0; was_redacted := false |};
  _content_filter := fun t =>
    {| passed := true; filter_warnings := []; filtered_text := t |}
|}.

Definition request_sample : QueryRequest := {|
  req_query := "What was Apple's revenue growth in FY2023?";
  req_query_type := GENERAL;
  req_company_filter := Some "aapl";
  req_filing_type_filter := None;
  req_top_k := 5;
  req_include_evaluation := true
|}.

Definition run_sample : result WorkflowState * list node * nat :=
  execute "system" (fun _ _ _ => "user") (fun s => s) orchestrator_sample
    request_sample 0.
End RegenerationSampleTerms.

Section FusionTerms.
Import PyNum PyStr Schemas Embeddings VectorStore HybridRetriever.
Local Open Scope Q_scope.

(** [scores.get(id)]. *)
Fixpoint dict_get (scores : list (string * Q)) (id : string) : option Q :=
  match scores with
  | [] => None
  | (key, v) :: rest => if String.eqb key id then Some v else dict_get rest id
  end.

(** The ids of a list in the order of their first occurrence. *)
Fixpoint first_seen (ids : list string) : list string :=
  match ids with
  | [] => []
  | id :: rest => id :: filter (fun x => x <> id) (first_seen rest)
  end.

(** The ranking that a fused list shows: each id with its fused score. *)
Definition ranking (fused : list Chunk) : list (string * Q) :=
  map (fun c => (chunk_id c, default 0 (rrf_score c))) fused.

Definition same_score (v : Q) (x : string * Q) : bool := Qeq_bool (snd x) v.

(** The keys after a scoring loop over the results [l], from the keys
    [K]: the new ones come after, in the order they are first seen. *)
Definition keys_after (K : list string) (l : list Chunk) : list string :=
  (K ++ filter (fun x => x ∉ K) (first_seen (map chunk_id l)))%list.

Definition score_ge (x y : string * Q) : Prop := snd y <= snd x.

(** Every id that has a score has a result in the map, and the map files
    each result under its own id. *)
Definition covers (scores : list (string * Q)) (chunk_map : gmap string Chunk)
    : Prop :=
  (forall id, id ∈ map fst scores -> is_Some (chunk_map !! id))
  /\ (forall id c, chunk_map !! id = Some c -> chunk_id c = id).

(** A result that has nothing but its id. *)
Definition chunk_with_id (id : string) : Chunk := {|
  chunk_id := id;
  content := "";
  metadata := ∅;
  VectorStore.relevance_score := 0.5;
  rrf_score := None
|}.

(** The claim C7, in its words: some fixed order on chunk ids decides, in
    every fused list, which of two candidates of equal score comes
    first. *)
Definition tie_break_on_identity : Prop :=
  exists before : string -> string -> Prop,
    (forall a b, before a b -> before b a -> a = b)
    /\ forall semantic keyword alpha k fused l1 x l2 y l3,
         _reciprocal_rank_fusion semantic keyword alpha k = Ok fused ->
         ranking fused = (l1 ++ x :: l2 ++ y :: l3)%list ->
         snd x == snd y ->
         before (fst x) (fst y).
End FusionTerms.

Section FusionBoundsTerms.
Import PyNum PyStr Schemas Embeddings VectorStore HybridRetriever.
Local Open Scope Q_scope.

(** How many times an id occurs in a list of results. *)
Definition occurrences (id : string) (l : list Chunk) : nat :=
  length (filter (fun c => chunk_id c = id) l).

(** Every score is between 0 and [occ id] times [B]. *)
Definition bounded (B : Q) (occ : string -> nat) (scores : list (string * Q))
    : Prop :=
  forall id s, dict_get scores id = Some s -> 0 <= s <= of_nat (occ id) * B.

Definition positive (scores : list (string * Q)) : Prop :=
  forall id s, dict_get scores id = Some s -> 0 < s.

(** Both loops add to the dict, for the result at each rank, its weight
    over [k + rank + 1]. *)
Fixpoint add_terms (w : Q) (k rank : nat) (l : list Chunk)
    (scores : list (string * Q)) : list (string * Q) :=
  match l with
  | [] => scores
  | c :: rest =>
      add_terms w k (S rank) rest
        (dict_add scores (chunk_id c) (w / of_nat (k + rank + 1)))
  end.
End FusionBoundsTerms.

Section RelevanceTerms.
Import PyNum PyStr Schemas Embeddings VectorStore HybridRetriever.
Local Open Scope Q_scope.

(** Each search of the index returns a chunk at most once. *)
Definition distinct_ids (store : VectorStoreBase) : Prop :=
  (forall e n f r, search store e n f = Ok r -> NoDup (map chunk_id r))
  /\ (forall t n f r,
        keyword_search store t n f = Ok r -> NoDup (map chunk_id r)).

(** An index in which only the keyword search finds a chunk, and the
    default settings with the weight of the semantic search set to 1. *)
Definition keyword_only_store : VectorStoreBase := {|
  is_chroma := true;
  search := fun _ _ _ => Ok [];
  keyword_search := fun _ _ _ => Ok [chunk_with_id "a"]
|}.

Definition settings_alpha_one : Config.Settings := {|
  Config.hallucination_threshold := 0.7;
  Config.consistency_threshold := 0.8;
  Config.min_confidence_score := 0.6;
  Config.retrieval_top_k := 8;
  Config.rerank_top_k := 4;
  Config.hybrid_search_alpha := 1
|}.

(** The bound on the default settings, for an index of two chunks. *)
Definition two_chunk_store : VectorStoreBase := {|
  is_chroma := true;
  search := fun _ _ _ => Ok [chunk_with_id "a"; chunk_with_id "b"];
  keyword_search := fun _ _ _ => Ok [chunk_with_id "b"]
|}.
End RelevanceTerms.

Section FusionFormulaTerms.
Import PyNum PyStr Schemas Embeddings VectorStore HybridRetriever.
Local Open Scope Q_scope.

(** The sum, over the ranks from [rank] on at which [id] stands in [l], of
    [w / (k + rank + 1)]; a list in which [id] does not stand gives 0. *)
Fixpoint rank_sum (w : Q) (k rank : nat) (l : list Chunk) (id : string) : Q :=
  match l with
  | [] => 0
  | c :: rest =>
      (if decide (chunk_id c = id) then w / of_nat (k + rank + 1) else 0)
      + rank_sum w k (S rank) rest id
  end.
End FusionFormulaTerms.

Section PipelineSampleTerms.
Import PyNum Schemas LLM Embeddings EvaluationPipeline.
Local Open Scope Q_scope.

(** An evaluation of a grounded answer with its citation, without the
    consistency check. *)
Definition evaluation_sample : Run EvaluationResult :=
  evaluate Config.default {| reply := fun _ => Some judge_reply_sample |}
    embeddings_sample
    "Revenue was $394.3 billion, an increase of 8%."
    ["Revenue was $394.3 billion, an increase of 8% year over year."]
    "What was the revenue?"
    [{| cit_chunk_id := "c1"; source_document := "10-K";
        section := "Item 7"; Schemas.relevance_score := 0.05;
        text_excerpt := "Revenue was $394.3 billion" |}]
    [("user", "What was the revenue?")] false.
End PipelineSampleTerms.

Section ConfidenceTestsTerms.
Import PyNum Schemas ConfidenceScorer.
Local Open Scope Q_scope.

Definition high_quality_response : string :=
  "According to [Source 1], Apple's revenue increased 8% year-over-year "
  ++ "to $394.3 billion in FY2023. The Services segment grew 16% to "
  ++ "$85.2 billion [Source 2]. Gross margin improved to 45.2% from 43.3% "
  ++ "[Source 1]. Operating expenses were $55.0 billion, representing a 5% "
  ++ "increase [Source 3].".

Definition low_quality_response : string :=
  "It seems like Apple may have had some revenue growth, possibly "
  ++ "around some amount. It is possible that they did well, but it's "
  ++ "unclear exactly how much. There isn't enough information to say.".

Definition sample_citations : list Citation :=
  [ {| cit_chunk_id := "1"; source_document := "Apple 10-K 2024";
       section := "MDA"; Schemas.relevance_score := 0.92;
       text_excerpt := "Revenue increased 8%..." |};
    {| cit_chunk_id := "2"; source_document := "Apple 10-K 2024";
       section := "Financial Statements"; Schemas.relevance_score := 0.88;
       text_excerpt := "Services revenue was $85.2B..." |} ].
End ConfidenceTestsTerms.

Section ModelCallsTerms.
Import PyNum Schemas Config Json LLM Embeddings EvaluationPipeline.
Local Open Scope Q_scope.

(** The model answers the two sample calls and then fails. *)
Definition comparison_fails_sample : LLMClient := {|
  reply := fun n =>
    if (n <? 2)%nat then Some {| text := "Revenue rose 8%."; decoded := None |}
    else None
|}.
End ModelCallsTerms.

Section RetrievalTerms.
Import PyNum PyStr Schemas Config Embeddings VectorStore HybridRetriever.
Local Open Scope Q_scope.

(** [top_k or self._top_k], and [self._rerank_top_k or top_k]. *)
Definition fetch_size (settings : Settings) (top_k : nat) : nat :=
  or_else top_k (retrieval_top_k settings).

Definition result_limit (settings : Settings) (top_k : nat) : nat :=
  or_else (rerank_top_k settings) (fetch_size settings top_k).

(** The results at the ranks from [rank] on, each with the fused score of
    a result that stands at that rank of the semantic list only. *)
Fixpoint ranked (alpha : Q) (k rank : nat) (l : list Chunk) : list Chunk :=
  match l with
  | [] => []
  | c :: rest =>
      {| chunk_id := chunk_id c;
         content := content c;
         metadata := metadata c;
         VectorStore.relevance_score := VectorStore.relevance_score c;
         rrf_score := Some (0 + alpha / of_nat (k + rank + 1)) |}
      :: ranked alpha k (S rank) rest
  end.

(** No keyword search of the index finds anything: each one returns no
    result or raises. *)
Definition keyword_silent (store : VectorStoreBase) : Prop :=
  forall term n f,
    keyword_search store term n f = Ok []
    \/ exists e, keyword_search store term n f = Raise e.

(** An index without keyword search that finds two chunks. *)
Definition semantic_store : VectorStoreBase := {|
  is_chroma := false;
  search := fun _ _ _ => Ok [chunk_with_id "a"; chunk_with_id "b"];
  keyword_search := fun _ _ _ => Raise RetrievalError
|}.
End RetrievalTerms.

Section RunsTerms.
Import PyNum Schemas LLM Workflow.
Local Open Scope Q_scope.

(** The three complete runs of the graph. *)
Definition path_skip : list node := [retrieve; generate; guardrails; assemble].

Definition path_once : list node :=
  [retrieve; generate; evaluate; guardrails; assemble].

Definition path_twice : list node :=
  [retrieve; generate; evaluate; generate; evaluate; guardrails; assemble].

Definition paths (include_evaluation : bool) : list (list node) :=
  if include_evaluation then [path_once; path_twice] else [path_skip].

(** What the guardrails node makes of a generated text. *)
Definition guarded (orchestrator : QueryOrchestrator) (generated : string)
    (final : WorkflowState) : Prop :=
  let pii := _pii_redactor orchestrator generated in
  let redacted :=
    if was_redacted pii then redacted_text pii else generated in
  let filtered := _content_filter orchestrator redacted in
  response_text final = filtered_text filtered
  /\ content_filter_passed final = passed filtered
  /\ warnings final = filter_warnings filtered
  /\ pii_entities_found final
     = if was_redacted pii then entity_count pii else 0%nat.
End RunsTerms.

Section RegexTerms.
Import PyStr PyText Re.

(** [derives r prev m rest prev']: the pattern [r] can match the text
    [m] when the character before it is [prev] and the text after it is
    [rest]; [prev'] is then the character before [rest]. *)
Inductive derives : regex -> option ascii -> string -> string
                    -> option ascii -> Prop :=
| derives_eps prev rest : derives Eps prev "" rest prev
| derives_chr (p : ascii -> bool) prev c rest :
    p c = true -> derives (Chr p) prev (String c "") rest (Some c)
| derives_seq r1 r2 prev m1 m2 rest p1 p2 :
    derives r1 prev m1 (m2 ++ rest) p1 ->
    derives r2 p1 m2 rest p2 ->
    derives (Seq r1 r2) prev (m1 ++ m2) rest p2
| derives_alt_l r1 r2 prev m rest p' :
    derives r1 prev m rest p' -> derives (Alt r1 r2) prev m rest p'
| derives_alt_r r1 r2 prev m rest p' :
    derives r2 prev m rest p' -> derives (Alt r1 r2) prev m rest p'
| derives_star_nil r prev rest : derives (Star r) prev "" rest prev
| derives_star_cons r prev m1 m2 rest p1 p2 :
    derives r prev m1 (m2 ++ rest) p1 ->
    derives (Star r) p1 m2 rest p2 ->
    derives (Star r) prev (m1 ++ m2) rest p2
| derives_boundary prev rest :
    xorb (is_word prev) (is_word (head rest)) = true ->
    derives WordBoundary prev "" rest prev.

(** [m] stands in [s] at the position [i]. *)
Definition occurs_at (m s : string) (i : nat) : Prop :=
  exists before after,
    s = (before ++ m ++ after)%string /\ String.length before = i.
End RegexTerms.

Section SpansTerms.
Import PyStr PyText Re ReSpan.

(** A pattern that can match the empty text. *)
Fixpoint nullable (r : regex) : bool :=
  match r with
  | Eps | WordBoundary | Star _ => true
  | Chr _ => false
  | Seq r1 r2 => nullable r1 && nullable r2
  | Alt r1 r2 => nullable r1 || nullable r2
  end.

(** The spans follow one another from [pos] on, none reaching into the
    next. *)
Fixpoint ordered_from (pos : nat) (l : list span) : Prop :=
  match l with
  | [] => True
  | sp :: l' =>
      (pos <= span_start sp)%nat /\ (span_start sp <= span_end sp)%nat
      /\ ordered_from (span_end sp) l'
  end.
End SpansTerms.

Section RedactionTerms.
Import PyStr PyText Re ReSpan PIIRedactor.
Local Open Scope Q_scope.

(** The text up to [bound] rebuilt from the entities in the order of
    their positions: what stands between two entities is kept, each
    entity gives way to its marker. *)
Fixpoint rebuild (text : string) (pos : nat) (entities : list PIIEntity)
    (bound : nat) : string :=
  match entities with
  | [] => substring pos (bound - pos) text
  | e :: rest =>
      (substring pos (start e - pos) text
       ++ REDACTION_MARKERS (entity_type e)
       ++ rebuild text (end_ e) rest bound)%string
  end.

(** The entities, from the last one to the first, lie apart: each ends
    where the one after it starts, or before, and the last one within
    [bound]. *)
Fixpoint separated (entities : list PIIEntity) (bound : nat) : Prop :=
  match entities with
  | [] => True
  | e :: rest =>
      (start e <= end_ e)%nat /\ (end_ e <= bound)%nat
      /\ separated rest (start e)
  end.
End RedactionTerms.

Section OccurrencesTerms.
Import PyStr PyText.

(** No character of [x] is [d]. *)
Fixpoint lacks (d : ascii) (x : string) : bool :=
  match x with
  | EmptyString => true
  | String c x' => negb (Ascii.eqb c d) && lacks d x'
  end.
End OccurrencesTerms.

Section RegexAnalysisTerms.
Import PyStr PyText Re.

(** The characters, all 256 of them. *)
Definition all_ascii : list ascii := map ascii_of_nat (seq 0 256).

Definition for_all_ascii (f : ascii -> bool) : bool := forallb f all_ascii.

(** [q] holds of every character of [s]. *)
Fixpoint all_chars (q : ascii -> bool) (s : string) : bool :=
  match s with
  | EmptyString => true
  | String c s' => q c && all_chars q s'
  end.

(** [q] holds of every character that the pattern can match. *)
Fixpoint consumes (q : ascii -> bool) (r : regex) : bool :=
  match r with
  | Eps | WordBoundary => true
  | Chr p => for_all_ascii (fun c => negb (p c) || q c)
  | Seq r1 r2 | Alt r1 r2 => consumes q r1 && consumes q r2
  | Star r' => consumes q r'
  end.

(** [q] holds of the last character of every match that is not empty. *)
Fixpoint ends_with (q : ascii -> bool) (r : regex) : bool :=
  match r with
  | Eps | WordBoundary => true
  | Chr p => for_all_ascii (fun c => negb (p c) || q c)
  | Seq r1 r2 => ends_with q r2 && (negb (nullable r2) || ends_with q r1)
  | Alt r1 r2 => ends_with q r1 && ends_with q r2
  | Star r' => ends_with q r'
  end.

(** The letter that a character class stands for when case is ignored:
    the one that all the characters of the class are, in lower case. *)
Definition letter (p : ascii -> bool) : option ascii :=
  match List.filter p all_ascii with
  | [] => None
  | c :: l =>
      if forallb (fun d => Ascii.eqb (lower_char d) (lower_char c)) l
      then Some (lower_char c)
      else None
  end.

(** The word that a pattern spells letter by letter, in lower case. *)
Fixpoint spell (r : regex) : option string :=
  match r with
  | Eps => Some EmptyString
  | Chr p =>
      match letter p with
      | Some c => Some (String c EmptyString)
      | None => None
      end
  | Seq r1 r2 =>
      match spell r1, spell r2 with
      | Some w1, Some w2 => Some (w1 ++ w2)%string
      | _, _ => None
      end
  | Alt _ _ | Star _ | WordBoundary => None
  end.

(** Every match of the pattern has, case ignored, one of the words. *)
Fixpoint has_word (words : list string) (r : regex) : bool :=
  match spell r with
  | Some w => existsb (fun x => contains x w) words
  | None =>
      match r with
      | Seq r1 r2 => has_word words r1 || has_word words r2
      | Alt r1 r2 => has_word words r1 && has_word words r2
      | _ => false
      end
  end.
End RegexAnalysisTerms.

Section FilteringTerms.
Import PyStr PyText Re ContentFilter.

(** Every investment advice pattern spells one of these words. *)
Definition ADVICE_WORDS : list string :=
  ["should"; "recommend"; "suggest"; "buy"; "sell"; "avoid"; "rating";
   "perform"; "price"].

(** What is known of a text that an investment advice pattern matched:
    it is not empty, has no bracket and no hyphen, does not end with a
    line feed and has, case ignored, one of the words. *)
Definition advice_text (m : string) : Prop :=
  m <> ""
  /\ lacks "[" m = true /\ lacks "]" m = true /\ lacks "-" m = true
  /\ (exists m' c, m = (m' ++ String c "")%string /\ c <> "010"%char)
  /\ existsb (fun w => contains w (lower m)) ADVICE_WORDS = true.

(** The same, checked on the pattern. *)
Definition advice_pattern (r : regex) : bool :=
  negb (nullable r)
  && consumes (fun c => negb (Ascii.eqb c "[")) r
  && consumes (fun c => negb (Ascii.eqb c "]")) r
  && consumes (fun c => negb (Ascii.eqb c "-")) r
  && ends_with (fun c => negb (Ascii.eqb c "010")) r
  && has_word ADVICE_WORDS r.

(** The inside of the replacement text. *)
Definition REMOVED_INSIDE : string :=
  "CONTENT REMOVED: Investment advice is not provided by this system".

(** The violation for a response that is too long. *)
Definition token_limit (self : ContentFilter) (text : string)
    : list Violation :=
  if (_max_tokens self <? length (split text))%nat
  then [{| violation_type := TOKEN_LIMIT;
           description :=
             "Response exceeds "
             ++ PyNum.decimal (Z.of_nat (_max_tokens self))
             ++ " token limit";
           severity := "warn";
           matched_text := "" |}]
  else [].
End FilteringTerms.

Section GuardedRunsSampleTerms.
Import PyStr Re LLM Workflow.
Local Open Scope Q_scope.

Definition advising_answer : completion := {|
  text := "Net sales grew 8% [Source 1]. We recommend buy. "
          ++ "Questions to 123-45-6789.";
  decoded := None
|}.

(** The sample orchestrator with the mock model replaced by one that
    gives advice, and with the two guardrails of the repository. *)
Definition guarded_orchestrator : QueryOrchestrator := {|
  _settings := _settings orchestrator_sample;
  _embedding_service := _embedding_service orchestrator_sample;
  _vector_store := _vector_store orchestrator_sample;
  _llm_client := {| reply := fun n => nth n [Some advising_answer] None |};
  _pii_redactor := Guardrails.redact {| PIIRedactor._enabled := true |};
  _content_filter := Guardrails.filter ContentFilter.default
|}.

Definition unevaluated_request : QueryRequest := {|
  req_query := "What was Apple's revenue growth in FY2023?";
  req_query_type := GENERAL;
  req_company_filter := Some "aapl";
  req_filing_type_filter := None;
  req_top_k := 5;
  req_include_evaluation := false
|}.
End GuardedRunsSampleTerms.

Section FloatsTerms.
Import PyFloat.
Local Open Scope Q_scope.

(** A float of the unit interval: a number between 0 and 1. *)
Definition in_unit (x : float) : Prop :=
  match x with
  | Real q => 0 <= q <= 1
  | _ => False
  end.
End FloatsTerms.

Section ConfidenceFloatsTerms.
Import PyFloat WithNaN.ConfidenceScorer.
Local Open Scope Q_scope.

(** The relevance of every citation is a number. *)
Definition real_relevances (citations : list Citation) : Prop :=
  Forall (fun c => exists q, relevance_score c = Real q) citations.

(** A citation of [Schemas], whose relevance is a number, as a citation
    of [WithNaN.ConfidenceScorer]. *)
Definition of_schema (c : Schemas.Citation) : Citation := {|
  chunk_id := Schemas.cit_chunk_id c;
  source_document := Schemas.source_document c;
  section := Schemas.section c;
  relevance_score := Real (Schemas.relevance_score c);
  text_excerpt := Schemas.text_excerpt c
|}.


Definition citation_sample : Citation := {|
  chunk_id := "chunk-2";
  source_document := "AAPL 10-K 2023";
  section := "Item 7";
  relevance_score := Real 0.75;
  text_excerpt := "Revenue grew 8%."
|}.
End ConfidenceFloatsTerms.

Section DetectionFloatsTerms.
Import Json LLM Embeddings PyFloat WithNaN.HallucinationDetector.
Local Open Scope Q_scope.

(** A reply of the judge in which the hallucination score is the string
    that [float] reads as NaN. *)
Definition judge_score_not_a_number : completion := {|
  text := "{" ++ quoted "claims" ++ ": [], "
          ++ quoted "hallucination_score" ++ ": " ++ quoted "NaN" ++ ", "
          ++ quoted "factual_grounding_score" ++ ": 0.9}";
  decoded := Some (JObj [("claims", JArr []);
                         ("hallucination_score", JStr "NaN");
                         ("factual_grounding_score", JNum 0.9)])
|}.
End DetectionFloatsTerms.

(* ================================================================== *)
(** * Part III: properties *)
(* ================================================================== *)

(** ** Numbers *)

Section Numbers.
Import PyNum.
Local Open Scope Q_scope.

Lemma gt_spec (a b : Q) : reflect (b < a) (gt a b).
Proof.
  unfold gt. destruct (Qle_bool a b) eqn:E; constructor.
  - apply Qle_bool_iff in E. lra.
  - apply Qnot_le_lt. intros H. apply Qle_bool_iff in H. congruence.
Qed.

Lemma lt_spec (a b : Q) : reflect (a < b) (lt a b).
Proof. apply gt_spec. Qed.

Lemma le_spec (a b : Q) : reflect (a <= b) (le a b).
Proof.
  unfold le. destruct (Qle_bool a b) eqn:E; constructor.
  - by apply Qle_bool_iff.
  - intros H. apply Qle_bool_iff in H. congruence.
Qed.

Lemma ge_spec (a b : Q) : reflect (b <= a) (ge a b).
Proof. apply le_spec. Qed.

(** [min(max(x, 0.0), 1.0)] is [x] cut to the unit interval. *)
Lemma clamp_range (x : Q) : 0 <= min2 (max2 x 0.0) 1.0 <= 1.
Proof.
  unfold min2, max2.
  destruct (gt_spec 0.0 x);
    [destruct (lt_spec 1.0 0.0) | destruct (lt_spec 1.0 x)]; lra.
Qed.

Lemma clamp_id (x : Q) : 0 <= x <= 1 -> min2 (max2 x 0.0) 1.0 = x.
Proof.
  intros H. unfold min2, max2.
  destruct (gt_spec 0.0 x); [lra|]. destruct (lt_spec 1.0 x); [lra|done].
Qed.

Lemma clamp_low (x : Q) : x < 0 -> min2 (max2 x 0.0) 1.0 = 0.0.
Proof.
  intros H. unfold min2, max2.
  destruct (gt_spec 0.0 x); [|lra]. destruct (lt_spec 1.0 0.0); [lra|done].
Qed.

Lemma clamp_high (x : Q) : 1 < x -> min2 (max2 x 0.0) 1.0 = 1.0.
Proof.
  intros H. unfold min2, max2.
  destruct (gt_spec 0.0 x); [lra|]. destruct (lt_spec 1.0 x); [done|lra].
Qed.

Lemma min2_le_1 (x : Q) : 0 <= x -> 0 <= min2 x 1.0 <= 1.
Proof. intros H. unfold min2. destruct (lt_spec 1.0 x); lra. Qed.

Lemma floor_bounds (x : Q) : inject_Z (Qfloor x) <= x < inject_Z (Qfloor x) + 1.
Proof.
  split; [apply Qfloor_le|].
  pose proof (Qlt_floor x) as H. rewrite inject_Z_plus in H. exact H.
Qed.

(** Rounding to the nearest integer moves a number by at most a half. *)
Lemma round_half_even_near (x : Q) :
  Qabs (inject_Z (round_half_even x) - x) <= 1 # 2.
Proof.
  unfold round_half_even. pose proof (floor_bounds x) as [Hl Hu].
  set (f := Qfloor x) in *.
  destruct (Qcompare_spec (x - inject_Z f) (1 # 2)) as [E|E|E].
  - destruct (Z.even f); [|rewrite inject_Z_plus];
      apply Qabs_case; intros; change (inject_Z 1) with 1 in *; lra.
  - apply Qabs_case; intros; lra.
  - rewrite inject_Z_plus. change (inject_Z 1) with 1 in *.
    apply Qabs_case; intros; lra.
Qed.

(** It does not cross an integer. *)
Lemma round_half_even_ge (x : Q) (n : Z) :
  inject_Z n <= x -> (n <= round_half_even x)%Z.
Proof.
  intros H. assert (n <= Qfloor x)%Z as Hf.
  { rewrite <- (Qfloor_Z n). by apply Qfloor_resp_le. }
  unfold round_half_even.
  destruct (Qcompare _ _); [destruct (Z.even _)|..]; lia.
Qed.

Lemma round_half_even_le (x : Q) (n : Z) :
  x <= inject_Z n -> (round_half_even x <= n)%Z.
Proof.
  intros H. pose proof (floor_bounds x) as [Hl Hu].
  assert (Qfloor x <= n)%Z as Hf.
  { rewrite <- (Qfloor_Z n). by apply Qfloor_resp_le. }
  unfold round_half_even.
  destruct (Z.eq_dec (Qfloor x) n) as [E|Hne].
  - rewrite E in *.
    destruct (Qcompare_spec (x - inject_Z n) (1 # 2)); [lra|lia|lra].
  - destruct (Qcompare _ _); [destruct (Z.even _)|..]; lia.
Qed.

Lemma round_half_even_comp (x y : Q) :
  x == y -> round_half_even x = round_half_even y.
Proof.
  intros H. unfold round_half_even. rewrite (Qfloor_comp _ _ H).
  assert (Qcompare (x - inject_Z (Qfloor y)) (1 # 2)
          = Qcompare (y - inject_Z (Qfloor y)) (1 # 2)) as ->; [|done].
  apply Qcompare_comp; [by rewrite H | done].
Qed.

Lemma pow10_pos (n : nat) : 0 < pow10 n.
Proof.
  unfold pow10. change 0 with (inject_Z 0). rewrite <- Zlt_Qlt.
  apply Z.pow_pos_nonneg; lia.
Qed.

#[global] Instance round_comp : Proper (Qeq ==> eq ==> Qeq) round.
Proof.
  intros x y H n ? <-. unfold round.
  rewrite (round_half_even_comp (x * pow10 n) (y * pow10 n)); [done|].
  by rewrite H.
Qed.

(** [round(x, n)] stays within the unit interval. *)
Lemma round_unit (x : Q) (n : nat) : 0 <= x <= 1 -> 0 <= round x n <= 1.
Proof.
  intros [H0 H1]. pose proof (pow10_pos n) as Hp. unfold round.
  assert (0 <= round_half_even (x * pow10 n))%Z as Hlo.
  { apply round_half_even_ge. change (inject_Z 0) with 0. nra. }
  assert (round_half_even (x * pow10 n) <= 10 ^ Z.of_nat n)%Z as Hhi.
  { apply round_half_even_le. fold (pow10 n). nra. }
  rewrite Zle_Qle in Hlo, Hhi. fold (pow10 n) in Hhi.
  change (inject_Z 0) with 0 in Hlo.
  split.
  - apply Qle_shift_div_l; [done|]. lra.
  - apply Qle_shift_div_r; [done|]. lra.
Qed.

(** [round(x, n)] is within half a unit of the last place of [x]. *)
Lemma round_near (x : Q) (n : nat) :
  Qabs (round x n - x) <= (1 # 2) / pow10 n.
Proof.
  pose proof (pow10_pos n) as Hp. unfold round.
  pose proof (round_half_even_near (x * pow10 n)) as H.
  apply Qabs_Qle_condition in H as [Hl Hu].
  set (r := inject_Z (round_half_even (x * pow10 n))) in *.
  assert (r / pow10 n - x == (r - x * pow10 n) / pow10 n) as ->
    by (field; lra).
  set (q := (1 # 2) / pow10 n).
  assert (q * pow10 n == 1 # 2) as Hq by (unfold q; field; lra).
  apply Qabs_Qle_condition. split.
  - apply Qle_shift_div_l; [done|]. nra.
  - apply Qle_shift_div_r; [done|]. nra.
Qed.

Lemma of_nat_nonneg (n : nat) : 0 <= of_nat n.
Proof.
  unfold of_nat. change 0 with (inject_Z 0). rewrite <- Zle_Qle. lia.
Qed.

Lemma of_nat_pos (n : nat) : (0 < n)%nat -> 0 < of_nat n.
Proof.
  intros H. unfold of_nat. change 0 with (inject_Z 0).
  rewrite <- Zlt_Qlt. lia.
Qed.

Lemma of_nat_le (m n : nat) : (m <= n)%nat -> of_nat m <= of_nat n.
Proof. intros H. unfold of_nat. rewrite <- Zle_Qle. lia. Qed.

Lemma of_nat_S (n : nat) : of_nat (S n) == of_nat n + 1.
Proof.
  unfold of_nat. rewrite Nat2Z.inj_succ, <- Z.add_1_r, inject_Z_plus. done.
Qed.

(** A part over the whole is in the unit interval. *)
Lemma fraction_unit (m n : nat) :
  (m <= n)%nat -> (0 < n)%nat -> 0 <= of_nat m / of_nat n <= 1.
Proof.
  intros Hle Hn. pose proof (of_nat_pos n Hn). pose proof (of_nat_nonneg m).
  pose proof (of_nat_le m n Hle). split.
  - apply Qle_shift_div_l; [done|]. lra.
  - apply Qle_shift_div_r; [done|]. lra.
Qed.

Lemma count_if_le {A : Type} (p : A -> bool) (xs : list A) :
  (count_if p xs <= length xs)%nat.
Proof. unfold count_if. apply filter_length_le. Qed.
End Numbers.

(** ** The confidence scorer *)

Section Confidence.
Import PyNum PyStr Schemas ConfidenceScorer.
Local Open Scope Q_scope.

Lemma source_coverage_unit (query : string) (source_chunks : list string) :
  0 <= _score_source_coverage query source_chunks <= 1.
Proof.
  unfold _score_source_coverage. destruct source_chunks as [|c cs]; [lra|].
  set (terms := list_to_set (split (lower query)) ∖ STOPWORDS).
  destruct (decide (terms = ∅)) as [|Hne]; [lra|].
  apply fraction_unit.
  - apply count_if_le.
  - destruct (size terms) eqn:E; [|lia].
    apply size_empty_inv in E. apply leibniz_equiv in E. done.
Qed.

Lemma citation_density_unit (response_text : string) :
  0 <= _score_citation_density response_text <= 1.
Proof.
  unfold _score_citation_density.
  destruct (length (split response_text) =? 0)%nat; [lra|].
  apply min2_le_1.
  set (n := length (Re.findall citation_marker response_text)).
  set (w := of_nat (length (split response_text)) / 100).
  assert (1 <= max2 1 w) as H.
  { unfold max2. destruct (gt_spec w 1); lra. }
  apply Qle_shift_div_l; [lra|]. pose proof (of_nat_nonneg n). lra.
Qed.

Lemma specificity_unit (response_text : string) :
  0 <= _score_specificity response_text <= 1.
Proof.
  unfold _score_specificity. apply min2_le_1.
  apply Qle_shift_div_l; [lra|]. rewrite Qmult_0_l. apply of_nat_nonneg.
Qed.

Lemma hedging_penalty_unit (response_text : string) :
  0 <= _score_hedging_penalty response_text <= 1.
Proof.
  unfold _score_hedging_penalty. apply min2_le_1.
  apply Qle_shift_div_l; [lra|]. rewrite Qmult_0_l. apply of_nat_nonneg.
Qed.

Lemma retrieval_relevance_unit (citations : list Citation) :
  0 <= _score_retrieval_relevance citations <= 1.
Proof.
  unfold _score_retrieval_relevance. destruct citations; [lra|].
  apply clamp_range.
Qed.

(** With the two outside factors in the unit interval the weighted sum
    is in it too, and the clamp of [score] does nothing. *)
Lemma composite_unit (sc cd sp hp rr h c : Q) :
  0 <= sc <= 1 -> 0 <= cd <= 1 -> 0 <= sp <= 1 -> 0 <= hp <= 1 ->
  0 <= rr <= 1 -> 0 <= h <= 1 -> 0 <= c <= 1 ->
  0 <= composite sc cd sp hp rr h c <= 1.
Proof. unfold composite. intros. lra. Qed.
End Confidence.

(** ** C1: the verdict *)

Section Verdict.
Import PyNum Schemas Config EvaluationPipeline.
Local Open Scope Q_scope.

Lemma make_EvaluationResult_ok (r r' : EvaluationResult) :
  make_EvaluationResult r = Ok r' -> r' = r.
Proof.
  unfold make_EvaluationResult. destruct (_ && _); congruence.
Qed.

(** The verdict of a result that [evaluate] returns is the one
    [_determine_status] gives on the scores and the flags of that result. *)
Lemma evaluate_status settings llm embeddings response_text source_chunks
    query citations messages run_consistency n r n' :
  evaluate settings llm embeddings response_text source_chunks query
    citations messages run_consistency n = (Ok r, n') ->
  status r
  = _determine_status settings (hallucination_score r)
      (semantic_consistency_score r) (confidence_score r) (flags r).
Proof.
  unfold evaluate, mbind, run_bind, mret, run_ret, lift.
  destruct (HallucinationDetector.detect _ _ _ _ _ n) as [[hall|e] n1];
    [|congruence].
  destruct (run_consistency && _).
  - destruct (ConsistencyScorer.score _ _ _ _ n1) as [[cons|e] n2];
      [|congruence].
    intros H. injection H as H _. by apply make_EvaluationResult_ok in H as ->.
  - intros H. injection H as H _. by apply make_EvaluationResult_ok in H as ->.
Qed.

(** C1. The verdict follows this order of precedence: a hallucination
    score above 0.8 gives FAILED, whatever the other scores and the flags;
    otherwise three flags or more give FAILED; otherwise one flag or more
    gives FLAGGED; otherwise, when the hallucination score is at most its
    threshold and the consistency and the confidence scores are at least
    theirs, the verdict is PASSED; otherwise it is FLAGGED.  Every
    evaluation that returns a result decides its status this way, from
    the scores and the flags of that result. *)
Theorem verdict_precedence (settings : Settings) :
  (forall (h c conf : Q) (flags : list string),
     let verdict := _determine_status settings h c conf flags in
     let thresholds_met :=
       h <= hallucination_threshold settings
       /\ consistency_threshold settings <= c
       /\ min_confidence_score settings <= conf in
     (0.8 < h -> verdict = FAILED)
     /\ (h <= 0.8 -> (3 <= length flags)%nat -> verdict = FAILED)
     /\ (h <= 0.8 -> (1 <= length flags < 3)%nat -> verdict = FLAGGED)
     /\ (h <= 0.8 -> length flags = 0%nat -> thresholds_met ->
         verdict = PASSED)
     /\ (h <= 0.8 -> length flags = 0%nat -> ~ thresholds_met ->
         verdict = FLAGGED))
  /\ (forall llm embeddings response_text source_chunks query citations
        messages run_consistency n r n',
        evaluate settings llm embeddings response_text source_chunks query
          citations messages run_consistency n = (Ok r, n') ->
        status r
        = _determine_status settings (hallucination_score r)
            (semantic_consistency_score r) (confidence_score r) (flags r)).
Proof.
  split; [|intros; by eapply evaluate_status].
  intros h c conf flags verdict thresholds_met.
  subst verdict thresholds_met. unfold _determine_status.
  destruct (gt_spec h 0.8) as [Hh|Hh].
  { repeat split; intros; first [done | lra]. }
  destruct (Nat.leb_spec 3 (length flags)).
  { repeat split; intros; first [done | lra | lia]. }
  destruct flags as [|f flags]; simpl in *.
  2: { repeat split; intros; first [done | lra | lia]. }
  destruct (le_spec h (hallucination_threshold settings));
    destruct (ge_spec c (consistency_threshold settings));
    destruct (ge_spec conf (min_confidence_score settings)); simpl;
    repeat split; intros; first [done | lra | lia | tauto].
Qed.
End Verdict.

(** ** C5: hallucination detection *)

Section Detection.
Import PyNum PyStr Json LLM Embeddings HallucinationDetector.
Local Open Scope Q_scope.

(** What the judge step does with the reply of the model. *)
Lemma judge_cases (llm : LLMClient) response_text source_chunks query n :
  _llm_judge_verification llm response_text source_chunks query n
  = match reply llm n with
    | None => (Raise LLMError, S n)
    | Some c =>
        match parse_judge c with
        | Ok r => (Ok r, S n)
        | Raise e => if parse_errors e then (Ok neutral, S n)
                     else (Raise e, S n)
        end
    end.
Proof.
  unfold _llm_judge_verification, try_except, mbind, run_bind, generate, lift.
  destruct (reply llm n) as [c|]; [|done].
  destruct (parse_judge c) as [r|e]; [done|]. by destruct (parse_errors e).
Qed.

(** A reply that [json.loads] rejects gives the neutral result. *)
Lemma judge_undecodable_neutral (llm : LLMClient) response_text source_chunks
    query n c :
  reply llm n = Some c -> decoded c = None ->
  _llm_judge_verification llm response_text source_chunks query n
  = (Ok neutral, S n).
Proof.
  intros Hc Hd. rewrite judge_cases, Hc.
  unfold parse_judge, loads. by rewrite Hd.
Qed.

Lemma detect_cases (llm : LLMClient) (embeddings : EmbeddingService)
    response_text source_chunks query n :
  detect llm embeddings response_text source_chunks query n
  = match _llm_judge_verification llm response_text source_chunks query n with
    | (Ok j, n') =>
        let e := _entity_overlap_check response_text source_chunks in
        let s :=
          _semantic_similarity_check embeddings response_text source_chunks in
        (Ok {| hallucination_score :=
                 round (min2 (max2 (combined_hallucination
                                      (hallucination_score j) e s) 0.0) 1.0) 4;
               factual_grounding_score :=
                 round (min2 (max2 (combined_grounding
                                      (factual_grounding_score j) e s) 0.0)
                          1.0) 4;
               claims := claims j;
               entity_overlap_score := round e 4;
               semantic_similarity_score := round s 4 |}, n')
    | (Raise e, n') => (Raise e, n')
    end.
Proof.
  unfold detect, mbind, run_bind, mret, run_ret.
  by destruct (_llm_judge_verification _ _ _ _ _) as [[j|e] n'].
Qed.

(** C5 fails on the code.  The [except] clause of the judge step names
    JSONDecodeError, KeyError and TypeError only: a reply that decodes but
    lists its claims as strings makes [c.get] raise AttributeError, a score
    spelt as a word makes [float] raise ValueError, and neither is caught,
    so the judge step, [detect] and the whole evaluation raise instead of
    returning the neutral 0.5 / 0.5. *)
Theorem judge_misshapen_reply_raises :
  let llm c := {| reply := fun _ => Some c |} in
  _llm_judge_verification (llm judge_claims_as_strings) "r" ["s"] "q" 0%nat
  = (Raise AttributeError, 1%nat)
  /\ detect (llm judge_claims_as_strings) embeddings_sample "r" ["s"] "q" 0%nat
     = (Raise AttributeError, 1%nat)
  /\ EvaluationPipeline.evaluate Config.default (llm judge_claims_as_strings)
       embeddings_sample "r" ["s"] "q" [] [] true 0%nat
     = (Raise AttributeError, 1%nat)
  /\ _llm_judge_verification (llm judge_score_as_word) "r" ["s"] "q" 0%nat
     = (Raise ValueError, 1%nat)
  /\ detect (llm judge_score_as_word) embeddings_sample "r" ["s"] "q" 0%nat
     = (Raise ValueError, 1%nat).
Proof. repeat split; vm_compute; reflexivity. Qed.

(** What the clause does recover: a reply that is not JSON, and a reply
    whose claims or scores are of a type that makes the code raise
    TypeError ([null] for a score, a number for the claims). *)
Lemma judge_recovered_replies (llm : LLMClient) response_text source_chunks
    query n c :
  reply llm n = Some c ->
  decoded c = None
  \/ decoded c = Some (JObj [("hallucination_score", JNull)])
  \/ decoded c = Some (JObj [("claims", JNum 3)]) ->
  _llm_judge_verification llm response_text source_chunks query n
  = (Ok neutral, S n).
Proof.
  intros Hc Hd. rewrite judge_cases, Hc. unfold parse_judge, loads.
  by destruct Hd as [->|[->| ->]].
Qed.
End Detection.

(** ** C8: the entity overlap *)

Section EntityOverlap.
Import PyNum PyStr HallucinationDetector.
Local Open Scope Q_scope.

(** Counting the members of a set that are in another one counts their
    intersection. *)
Lemma filter_bool_decide {A : Type} (P : A -> Prop)
    `{!forall x, Decision (P x)} (l : list A) :
  List.filter (fun x => bool_decide (P x)) l = filter P l.
Proof.
  induction l as [|x l IH]; [done|]. simpl. rewrite filter_cons, IH.
  by destruct (decide (P x)); [rewrite bool_decide_eq_true_2
                              |rewrite bool_decide_eq_false_2].
Qed.

Lemma count_members (R S : gset string) :
  count_if (fun e => bool_decide (e ∈ S)) (elements R) = size (R ∩ S).
Proof.
  unfold count_if. rewrite filter_bool_decide.
  unfold size, set_size. simpl. apply Permutation_length.
  apply NoDup_Permutation.
  - apply NoDup_filter, NoDup_elements.
  - apply NoDup_elements.
  - intros x. rewrite list_elem_of_filter, !elem_of_elements. set_solver.
Qed.

Lemma size_pos (X : gset string) : X <> ∅ -> (0 < size X)%nat.
Proof.
  intros H. destruct (size X) eqn:E; [|lia].
  apply size_empty_inv, leibniz_equiv in E. done.
Qed.

(** C8. The entity-overlap score of a response against the sources is 1.0
    when the response has no financial entity; 0.5 when it has some and
    the joined sources have none; otherwise the fraction of the entities
    of the response that are among those of the sources.  Hence a response
    that has entities, none of them in the sources, scores strictly lower
    than a response whose entities are all in the sources. *)
Theorem entity_overlap_cases (response_text : string)
    (source_chunks : list string) :
  let R := _extract_financial_entities response_text in
  let S := _extract_financial_entities (join " " source_chunks) in
  let score := _entity_overlap_check response_text source_chunks in
  (R = ∅ -> score = 1.0)
  /\ (R <> ∅ -> S = ∅ -> score = 0.5)
  /\ (R <> ∅ -> S <> ∅ -> score = of_nat (size (R ∩ S)) / of_nat (size R))
  /\ (forall grounded_response : string,
        R <> ∅ -> R ## S ->
        _extract_financial_entities grounded_response ⊆ S ->
        score < _entity_overlap_check grounded_response source_chunks).
Proof.
  intros R S score. subst score. unfold _entity_overlap_check.
  fold R S. split; [|split; [|split]].
  - intros ->. by rewrite decide_True.
  - intros HR ->. by rewrite decide_False, decide_True.
  - intros HR HS. rewrite !decide_False by done. by rewrite count_members.
  - intros grounded HR Hdisj Hsub.
    set (G := _extract_financial_entities grounded) in *.
    rewrite (decide_False (P := R = ∅)) by done.
    assert (forall X : gset string, X <> ∅ -> X ⊆ S ->
              of_nat (size (X ∩ S)) / of_nat (size X) == 1) as Hall.
    { intros X HX HXS. assert (X ∩ S = X) as -> by set_solver.
      pose proof (of_nat_pos _ (size_pos X HX)). field. lra. }
    assert (of_nat (size (R ∩ S)) / of_nat (size R) == 0) as Hnone.
    { assert (R ∩ S = ∅) as -> by set_solver. rewrite size_empty.
      unfold Qdiv. by rewrite Qmult_0_l. }
    destruct (decide (G = ∅)) as [|HG].
    + destruct (decide (S = ∅)); [lra|]. rewrite count_members, Hnone. lra.
    + assert (S <> ∅) as HS by set_solver.
      rewrite !(decide_False (P := S = ∅)) by done.
      rewrite !count_members, Hnone, (Hall G) by done. lra.
Qed.

Lemma entity_overlap_cases_witness :
  _entity_overlap_check "Revenue was $450 billion, up 9%."
    ["Revenue was $394.3 billion, an increase of 8%."]
  < _entity_overlap_check "Revenue was $394.3 billion, up 8%."
      ["Revenue was $394.3 billion, an increase of 8%."].
Proof.
  apply (entity_overlap_cases "Revenue was $450 billion, up 9%."
           ["Revenue was $394.3 billion, an increase of 8%."]);
    apply (bool_decide_unpack _); vm_compute; exact I.
Defined.
End EntityOverlap.

(** ** C9: the excerpt of a citation *)

Section Excerpt.
Import PyStr Schemas VectorStore HybridRetriever.

Lemma length_snoc (s : string) (c : ascii) :
  String.length (snoc s c) = S (String.length s).
Proof. unfold snoc. induction s as [|d s IH]; simpl; [done|]. by rewrite IH. Qed.

Lemma length_rev (s : string) : String.length (rev s) = String.length s.
Proof.
  induction s as [|c s IH]; simpl; [done|]. by rewrite length_snoc, IH.
Qed.

Lemma length_lstrip (s : string) : String.length (lstrip s) <= String.length s.
Proof.
  induction s as [|c s IH]; simpl; [done|]. destruct (isspace c); simpl; lia.
Qed.

(** Stripping does not lengthen a string. *)
Lemma length_strip (s : string) : String.length (strip s) <= String.length s.
Proof.
  unfold strip, rstrip. rewrite length_rev.
  etrans; [apply length_lstrip|]. rewrite length_rev. apply length_lstrip.
Qed.

Lemma length_slice_to (n : nat) (s : string) :
  String.length (slice_to n s) = Nat.min n (String.length s).
Proof.
  unfold slice_to. revert s. induction n as [|n IH]; intros [|c s]; simpl;
    [done..|]. by rewrite IH.
Qed.

Lemma slice_to_all (n : nat) (s : string) :
  String.length s <= n -> slice_to n s = s.
Proof.
  unfold slice_to. revert s. induction n as [|n IH]; intros [|c s] H; simpl in *;
    [done|lia|done|]. rewrite IH; [done|lia].
Qed.

Lemma length_append (s t : string) :
  String.length (s ++ t) = String.length s + String.length t.
Proof. induction s as [|c s IH]; simpl; [done|]. by rewrite IH. Qed.

(** C9 fails on the code as stated: for a content of 201 letters the
    excerpt is the first 200 of them followed by three dots, 203
    characters in all; and for a content that starts with a blank the
    excerpt is not the start of the content, the blank being stripped. *)
Lemma excerpt_longer_than_200 :
  let excerpt := text_excerpt (citation_of (chunk_of_content long_content)) in
  String.length excerpt = 203
  /\ ~ String.length excerpt <= 200
  /\ text_excerpt (citation_of (chunk_of_content " 8% growth")) = "8% growth"
  /\ text_excerpt (citation_of (chunk_of_content " 8% growth"))
     <> slice_to 200 " 8% growth".
Proof. vm_compute. repeat split; [lia | discriminate]. Qed.

(** C9, amended. For every chunk the citation built for it has as excerpt
    the first 200 characters of the content with the blanks at both ends
    stripped, followed by three dots exactly when the content has more
    than 200 characters; the excerpt has at most 203 characters, and at
    most 200 when the content has no more than 200. One citation is
    built for each result, in order. *)
Theorem citation_excerpt (results : list Chunk) :
  _build_citations results = map citation_of results
  /\ length (_build_citations results) = length results
  /\ forall result : Chunk,
       let excerpt := text_excerpt (citation_of result) in
       let head := strip (slice_to 200 (content result)) in
       (200 < String.length (content result) ->
          excerpt = head ++ "..." /\ String.length excerpt <= 203)
       /\ (String.length (content result) <= 200 ->
             excerpt = strip (content result)
             /\ String.length excerpt <= 200)
       /\ String.length head <= 200.
Proof.
  split; [done|]. split; [apply length_map|]. intros result excerpt head.
  assert (String.length head <= 200) as Hhead.
  { subst head. etrans; [apply length_strip|]. rewrite length_slice_to. lia. }
  subst excerpt. cbn [citation_of text_excerpt]. fold head.
  split; [|split; [|done]].
  - intros H. assert (Nat.ltb 200 (String.length (content result)) = true) as ->
      by (apply Nat.ltb_lt; lia).
    split; [done|]. rewrite length_append. simpl. lia.
  - intros H. assert (Nat.ltb 200 (String.length (content result)) = false) as ->
      by (apply Nat.ltb_ge; lia).
    split; [|done]. subst head. by rewrite slice_to_all.
Qed.

Lemma citation_excerpt_witness :
  text_excerpt (citation_of (chunk_of_content long_content))
  = strip (slice_to 200 long_content) ++ "..."
  /\ String.length (text_excerpt (citation_of (chunk_of_content long_content)))
     <= 203.
Proof.
  apply (citation_excerpt [] ). vm_compute. lia.
Defined.
End Excerpt.

(** ** C6: the consistency score *)

Section Consistency.
Import PyNum Json LLM ConsistencyScorer.
Local Open Scope Q_scope.

Lemma sample_loop_spec (llm : LLMClient) (k : nat) (acc : list string)
    (n : nat) :
  sample_loop llm k acc n = (Ok (acc ++ successes llm n k)%list, (n + k)%nat).
Proof.
  revert acc n. induction k as [|k IH]; intros acc n; simpl.
  - by rewrite app_nil_r, Nat.add_0_r.
  - unfold mbind, run_bind, try_except, generate, mret, run_ret.
    destruct (reply llm n) as [c|]; simpl; rewrite IH.
    + by rewrite <- app_assoc, Nat.add_succ_r.
    + by rewrite Nat.add_succ_r.
Qed.

Lemma successes_none (llm : LLMClient) (n k : nat) :
  (forall i, (i < k)%nat -> reply llm (n + i) = None) <-> successes llm n k = [].
Proof.
  revert n. induction k as [|k IH]; intros n; simpl.
  - split; [done|]. intros _ i Hi. lia.
  - split.
    + intros H. rewrite <- (Nat.add_0_r n) at 1. rewrite H by lia.
      apply IH. intros i Hi. rewrite Nat.add_succ_comm. apply H. lia.
    + destruct (reply llm n) eqn:E; [done|]. intros H i Hi.
      destruct i as [|i]; [by rewrite Nat.add_0_r|].
      rewrite <- Nat.add_succ_comm. apply IH; [done|lia].
Qed.

(** X21. When every one of the requested sample generations fails, the
    consistency scorer returns the score 0.5 exactly, with no sample
    counted and one explicit note as its only discrepancy, after as many
    calls of the model as samples were asked for. *)
Theorem consistency_no_samples (llm : LLMClient)
    (original_response query : string) (requested n : nat) :
  (forall i, (i < requested)%nat -> reply llm (n + i) = None) ->
  score llm original_response query requested n
  = (Ok {| consistency_score := 0.5;
           num_samples := 0%nat;
           discrepancies :=
             [JStr "Failed to generate comparison samples"] |},
     (n + requested)%nat).
Proof.
  intros H. apply successes_none in H.
  unfold score, mbind, run_bind. rewrite sample_loop_spec, H. done.
Qed.

Lemma consistency_no_samples_witness :
  score {| reply := fun _ => None |} "Revenue grew 8%." "q" 2%nat 0%nat
  = (Ok {| consistency_score := 0.5; num_samples := 0%nat;
           discrepancies := [JStr "Failed to generate comparison samples"] |},
     2%nat).
Proof.
  apply (consistency_no_samples {| reply := fun _ => None |}
           "Revenue grew 8%." "q" 2%nat 0%nat).
  intros i Hi. reflexivity.
Defined.

(** C6 fails on the code.  The [except] clause of the pairwise
    comparison names JSONDecodeError, KeyError and TypeError only, as
    that of the judge step does: a score spelt as a word makes [float]
    raise ValueError and a reply that is a list makes [parsed.get] raise
    AttributeError, neither is caught, and [null] for the discrepancies
    makes [extend] raise TypeError outside the [try] block.  Each time
    the comparison does not count 0.5 for its pair: the scorer raises,
    and so does the whole evaluation. *)
Theorem pair_misshapen_reply_raises :
  _compare_pair (pair_run pair_score_as_word) "q" "Revenue grew 8%."
    "Revenue rose 8%." 1%nat
  = (Raise ValueError, 2%nat)
  /\ score (pair_run pair_score_as_word) "Revenue grew 8%." "q" 1%nat 0%nat
     = (Raise ValueError, 2%nat)
  /\ _compare_pair (pair_run pair_as_list) "q" "Revenue grew 8%."
       "Revenue rose 8%." 1%nat
     = (Raise AttributeError, 2%nat)
  /\ score (pair_run pair_as_list) "Revenue grew 8%." "q" 1%nat 0%nat
     = (Raise AttributeError, 2%nat)
  /\ score (pair_run pair_discrepancies_null) "Revenue grew 8%." "q" 1%nat
       0%nat
     = (Raise TypeError, 2%nat)
  /\ EvaluationPipeline.evaluate Config.default
       (evaluation_run pair_score_as_word) embeddings_sample
       "Revenue grew 8%." ["Revenue grew 8% year over year."] "q" []
       [("user", "q")] true 0%nat
     = (Raise ValueError, 4%nat).
Proof. repeat split; vm_compute; reflexivity. Qed.

(** What the clause does recover: a reply that is not JSON, and [null]
    for the score, on which [float] raises TypeError.  The pair counts
    0.5, with one note as its discrepancy. *)
Lemma pair_recovered_replies (llm : LLMClient) query a b n c :
  reply llm n = Some c ->
  decoded c = None
  \/ decoded c = Some (JObj [("consistency_score", JNull)]) ->
  exists note,
    _compare_pair llm query a b n
    = (Ok {| pair_score := 0.5;
             pair_discrepancies := JArr [JStr note] |}, S n).
Proof.
  intros Hc Hd.
  unfold _compare_pair, try_except, mbind, run_bind, generate, lift.
  rewrite Hc. unfold parse_pair, loads.
  destruct Hd as [->| ->]; by eexists.
Qed.
End Consistency.

(** ** C2: the regeneration cycle *)

Section Regeneration.
Import PyNum Schemas Workflow.
Local Open Scope Q_scope.

Variable SYSTEM_PROMPT : string.
Variable user_prompt : string -> list string -> QueryType -> string.
Variable upper : string -> string.
Variable self : QueryOrchestrator.

Local Abbreviation run_node := (run_node SYSTEM_PROMPT user_prompt upper self).
Local Abbreviation run_from := (run_from SYSTEM_PROMPT user_prompt upper self).

(** The edge back to [generate] is taken exactly when there is an
    evaluation, its hallucination score exceeds 0.8, and fewer than
    [MAX_REGENERATION_ATTEMPTS] generations were made. *)
Lemma should_regenerate_iff (state : WorkflowState) :
  _should_regenerate state = regenerate
  <-> exists e, evaluation state = Some e
                /\ 0.8 < hallucination_score e
                /\ (generation_attempts state < MAX_REGENERATION_ATTEMPTS)%nat.
Proof.
  unfold _should_regenerate. destruct (evaluation state) as [e|].
  - destruct (gt_spec (hallucination_score e) 0.8) as [Hh|Hh];
      destruct (Nat.ltb_spec (generation_attempts state)
                  MAX_REGENERATION_ATTEMPTS) as [Ha|Ha]; simpl.
    + split; [|done]. intros _. by exists e.
    + split; [done|]. intros (e' & [= <-] & _ & ?). lia.
    + split; [done|]. intros (e' & [= <-] & ? & _). lra.
    + split; [done|]. intros (e' & [= <-] & ? & _). lra.
  - split; [done|]. by intros (e & ? & _).
Qed.

(** What each node does to the attempt counter and to the request for an
    evaluation. *)
Lemma run_node_attempts (n : node) (state state' : WorkflowState)
    (calls calls' : nat) :
  run_node n state calls = (Ok state', calls') ->
  generation_attempts state'
  = (generation_attempts state + if decide (n = generate) then 1 else 0)%nat
  /\ (n = evaluate -> response_text state' = response_text state
                      /\ is_Some (evaluation state')).
Proof.
  destruct n; simpl.
  - unfold _retrieve_node, mbind, run_bind, lift, mret, run_ret.
    destruct (HybridRetriever.retrieve _ _ _ _ _ _) as [[chunks cits]|e];
      [|done].
    intros [= <- _]. simpl. split; [lia|done].
  - unfold _generate_node, mbind, run_bind, mret, run_ret.
    destruct (LLM.generate _ calls) as [[c|e] k]; [|done].
    intros [= <- _]. by simpl.
  - unfold _evaluate_node, mbind, run_bind, mret, run_ret.
    destruct (EvaluationPipeline.evaluate _ _ _ _ _ _ _ _ _ calls)
      as [[ev|e] k]; [|done].
    intros [= <- _]. simpl. split; [lia|]. intros _. split; [done|by eexists].
  - unfold _guardrails_node, mret, run_ret. intros [= <- _]. simpl.
    split; [lia|done].
  - unfold _assemble_node, mret, run_ret. intros [= <- _]. split; [lia|done].
Qed.

Lemma next_node_bounds (n n' : node) (state state' : WorkflowState)
    (calls calls' : nat) :
  run_node n state calls = (Ok state', calls') ->
  next_node n state' = Some n' ->
  (S (steps_left n' (generation_attempts state'))
   <= steps_left n (generation_attempts state))%nat
  /\ ((if decide (n = generate) then 1 else 0)
      + generations_left n' (generation_attempts state')
      <= generations_left n (generation_attempts state))%nat.
Proof.
  intros Hrun Hnext. apply run_node_attempts in Hrun as [Ha _].
  destruct n; simpl in Hnext; repeat case_decide; try done.
  - injection Hnext as <-.
    unfold steps_left, generations_left, MAX_REGENERATION_ATTEMPTS. lia.
  - destruct (_should_evaluate state'); injection Hnext as <-;
      unfold steps_left, generations_left, MAX_REGENERATION_ATTEMPTS; lia.
  - destruct (_should_regenerate state') eqn:E; injection Hnext as <-.
    + apply should_regenerate_iff in E as (e & _ & _ & Hlt).
      unfold steps_left, generations_left, MAX_REGENERATION_ATTEMPTS in *. lia.
    + unfold steps_left, generations_left, MAX_REGENERATION_ATTEMPTS. lia.
  - injection Hnext as <-.
    unfold steps_left, generations_left, MAX_REGENERATION_ATTEMPTS. lia.
Qed.

(** A run from any node stays within these two bounds, and a limit that
    covers the first one is never hit: a larger limit changes nothing. *)
Lemma run_from_bounded (limit : nat) (n : node) (state : WorkflowState)
    (trace : list node) (calls : nat) :
  (steps_left n (generation_attempts state) <= limit)%nat ->
  let '(r, trace', _) := run_from limit n state trace calls in
  (length trace'
   <= length trace + steps_left n (generation_attempts state))%nat
  /\ (count_occ node_eq_dec trace' generate
      <= count_occ node_eq_dec trace generate
         + generations_left n (generation_attempts state))%nat
  /\ forall limit', (limit <= limit')%nat ->
       run_from limit' n state trace calls
       = run_from limit n state trace calls.
Proof.
  revert n state trace calls.
  induction limit as [|limit IH]; intros n state trace calls Hlimit.
  { destruct n; simpl in Hlimit; lia. }
  simpl. destruct (run_node n state calls) as [[state'|e] calls'] eqn:Hrun.
  2: { rewrite length_app, count_occ_app. simpl.
       split; [destruct n; simpl; lia|]. split.
       - destruct n; simpl; lia.
       - intros [|limit'] Hle; [lia|]. simpl. by rewrite Hrun. }
  destruct (next_node n state') as [n'|] eqn:Hnext.
  2: { rewrite length_app, count_occ_app. simpl.
       split; [destruct n; simpl; lia|]. split.
       - destruct n; simpl in *; try done; lia.
       - intros [|limit'] Hle; [lia|]. simpl. by rewrite Hrun, Hnext. }
  destruct (next_node_bounds _ _ _ _ _ _ Hrun Hnext) as [Hsteps Hgens].
  specialize (IH n' state' (trace ++ [n])%list calls' ltac:(lia)).
  destruct (run_from limit n' state' (trace ++ [n])%list calls')
    as [[r trace'] calls''] eqn:Hrest.
  destruct IH as (Hlen & Hcount & Hindep).
  rewrite length_app in Hlen. rewrite count_occ_app in Hcount. simpl in *.
  split; [lia|]. split.
  - destruct (node_eq_dec n generate) as [->|Hne].
    + rewrite decide_True in Hgens by done. lia.
    + rewrite decide_False in Hgens by done. lia.
  - intros [|limit'] Hle; [lia|]. simpl. rewrite Hrun, Hnext.
    apply Hindep. lia.
Qed.

(** C2. The edge from [evaluate] back to [generate] is taken if and only
    if the hallucination score of the evaluation exceeds 0.8 and fewer
    than 2 generation attempts were made.  In every execution - whatever
    the collaborators answer, and also when a node raises - [generate]
    runs at most 2 times and at most 7 nodes run, so the step limit of
    the graph is never what ends a run: any limit of 7 or more gives the
    same run.  Once 2 attempts were made, the evaluated state goes on to
    [guardrails] as it is, with the response of the last attempt. *)
Theorem regeneration_bounded (request : QueryRequest) (calls : nat) :
  (forall state : WorkflowState,
     _should_regenerate state = regenerate
     <-> exists e, evaluation state = Some e
                   /\ 0.8 < hallucination_score e
                   /\ (generation_attempts state < 2)%nat)
  /\ (let '(_, trace, _) :=
        execute SYSTEM_PROMPT user_prompt upper self request calls in
      (count_occ node_eq_dec trace generate
       <= MAX_REGENERATION_ATTEMPTS)%nat
      /\ (length trace <= 7)%nat)
  /\ (forall limit : nat, (7 <= limit)%nat ->
        run_from limit retrieve (initial_state request) [] calls
        = execute SYSTEM_PROMPT user_prompt upper self request calls)
  /\ (forall (limit : nat) (state state' : WorkflowState)
        (trace : list node) (k k' : nat),
        (MAX_REGENERATION_ATTEMPTS <= generation_attempts state)%nat ->
        run_node evaluate state k = (Ok state', k') ->
        response_text state' = response_text state
        /\ next_node evaluate state' = Some guardrails
        /\ run_from (S limit) evaluate state trace k
           = run_from limit guardrails state' (trace ++ [evaluate])%list k').
Proof.
  split; [exact should_regenerate_iff|].
  pose proof (run_from_bounded 7 retrieve (initial_state request) [] calls)
    as H7.
  pose proof (run_from_bounded RECURSION_LIMIT retrieve
                (initial_state request) [] calls) as H25.
  unfold execute, ainvoke.
  destruct (run_from 7 retrieve (initial_state request) [] calls)
    as [[r7 trace7] calls7] eqn:E7.
  destruct (run_from RECURSION_LIMIT retrieve (initial_state request) []
              calls) as [[r trace] calls''] eqn:E25.
  simpl in H7, H25. unfold RECURSION_LIMIT, MAX_REGENERATION_ATTEMPTS in *.
  destruct (H7 ltac:(lia)) as (_ & _ & Hindep7).
  destruct (H25 ltac:(lia)) as (Hlen & Hcount & _).
  split; [split; lia|]. split.
  - intros limit Hlimit. rewrite (Hindep7 limit Hlimit).
    rewrite <- E25. symmetry. apply Hindep7. lia.
  - intros limit state state' tr k k' Hattempts Hrun.
    destruct (run_node_attempts _ _ _ _ _ Hrun) as [Ha [Htext _]]; [done|].
    rewrite decide_False in Ha by done.
    assert (next_node evaluate state' = Some guardrails) as Hnext.
    { simpl. destruct (_should_regenerate state') eqn:E; [|done].
      apply should_regenerate_iff in E as (e & _ & _ & Hlt).
      unfold MAX_REGENERATION_ATTEMPTS in Hlt. lia. }
    split; [done|]. split; [done|].
    cbn [Workflow.run_from]. by rewrite Hrun, Hnext.
Qed.
End Regeneration.

(** A run in which both attempts are judged hallucinated: the answers
    quote a figure that no source has, the judge scores them 1.0 and the
    embeddings find no similarity. *)

Section RegenerationSample.
Import PyNum Json LLM Embeddings VectorStore Schemas Workflow.
Local Open Scope Q_scope.

(** The run generates twice, then goes on to the guardrails with the
    second answer and its verdict. *)
Lemma run_sample_regenerates_once :
  snd (fst run_sample)
  = [retrieve; generate; evaluate; generate; evaluate; guardrails; assemble]
  /\ snd run_sample = 8%nat
  /\ match fst (fst run_sample) with
     | Ok final =>
         generation_attempts final = 2%nat
         /\ option_map status (evaluation final) = Some FAILED
     | Raise _ => False
     end.
Proof. vm_compute. repeat split. Qed.

Lemma regeneration_bounded_witness :
  let '(_, trace, _) :=
    execute "system" (fun _ _ _ => "user") (fun s => s) orchestrator_sample
      request_sample 0 in
  (count_occ node_eq_dec trace generate <= MAX_REGENERATION_ATTEMPTS)%nat
  /\ (length trace <= 7)%nat.
Proof.
  pose proof (regeneration_bounded "system" (fun _ _ _ => "user")
                (fun s => s) orchestrator_sample request_sample 0%nat)
    as (_ & H & _).
  exact H.
Defined.
End RegenerationSample.

(** ** C7 and C10: reciprocal rank fusion *)

Section Fusion.
Import PyNum PyStr Schemas Embeddings VectorStore HybridRetriever.
Local Open Scope Q_scope.

Lemma dict_add_keys (scores : list (string * Q)) (id : string) (t : Q) :
  map fst (dict_add scores id t)
  = if decide (id ∈ map fst scores) then map fst scores
    else (map fst scores ++ [id])%list.
Proof.
  induction scores as [|[key v] rest IH]; simpl; [done|].
  destruct (String.eqb_spec key id) as [->|Hne]; simpl.
  - rewrite decide_True; [done|]. by left.
  - rewrite IH. destruct (decide (id ∈ map fst rest)) as [Hin|Hin].
    + rewrite decide_True; [done|]. by right.
    + rewrite decide_False; [done|]. intros [?|?]%elem_of_cons; congruence.
Qed.

Lemma dict_add_get (scores : list (string * Q)) (id id' : string) (t : Q) :
  dict_get (dict_add scores id t) id'
  = if decide (id = id') then Some (default 0 (dict_get scores id) + t)
    else dict_get scores id'.
Proof.
  induction scores as [|[key v] rest IH]; simpl.
  - destruct (String.eqb_spec id id') as [->|Hne].
    + by rewrite decide_True.
    + by rewrite decide_False.
  - destruct (String.eqb_spec key id) as [->|Hne]; simpl.
    + destruct (String.eqb_spec id id') as [->|Hne'].
      * by rewrite decide_True.
      * by rewrite decide_False.
    + rewrite IH. destruct (decide (id = id')) as [->|Hne'].
      * destruct (String.eqb_spec key id'); [congruence|done].
      * done.
Qed.

Lemma filter_filter_notin (K : list string) (id : string) (l : list string) :
  filter (fun x => x ∉ (K ++ [id])%list) l
  = filter (fun x => x ∉ K) (filter (fun x => x <> id) l).
Proof.
  induction l as [|x l IH]; [done|].
  rewrite !filter_cons.
  destruct (decide (x <> id)) as [Hx|Hx].
  - rewrite filter_cons. destruct (decide (x ∉ K)) as [HK|HK].
    + rewrite decide_True, IH; [done|]. set_solver.
    + rewrite decide_False, IH; [done|]. set_solver.
  - rewrite decide_False, IH; [done|]. set_solver.
Qed.

Lemma filter_notin_ne (K : list string) (id : string) (l : list string) :
  id ∈ K ->
  filter (fun x => x ∉ K) (filter (fun x => x <> id) l)
  = filter (fun x => x ∉ K) l.
Proof.
  intros Hid. induction l as [|x l IH]; [done|].
  rewrite !filter_cons. destruct (decide (x <> id)) as [Hx|Hx].
  - rewrite filter_cons. by rewrite IH.
  - rewrite IH. rewrite decide_False; [done|]. 
    intros Hn. apply Hn. apply dec_stable in Hx. by subst.
Qed.

Lemma keys_after_cons (K : list string) (c : Chunk) (l : list Chunk) :
  keys_after K (c :: l)
  = keys_after (if decide (chunk_id c ∈ K) then K
                else (K ++ [chunk_id c])%list) l.
Proof.
  unfold keys_after. simpl. rewrite filter_cons.
  destruct (decide (chunk_id c ∈ K)) as [Hin|Hin].
  - rewrite decide_False by (intros H; by apply H).
    by rewrite filter_notin_ne.
  - rewrite decide_True by done.
    by rewrite <- app_assoc, filter_filter_notin.
Qed.

Lemma score_semantic_keys alpha k rank semantic scores chunk_map :
  map fst (fst (score_semantic alpha k rank semantic scores chunk_map))
  = keys_after (map fst scores) semantic.
Proof.
  revert rank scores chunk_map.
  induction semantic as [|c l IH]; intros rank scores chunk_map; simpl.
  - unfold keys_after. simpl. by rewrite app_nil_r.
  - by rewrite IH, dict_add_keys, keys_after_cons.
Qed.

Lemma score_keyword_keys alpha k rank keyword scores chunk_map :
  map fst (fst (score_keyword alpha k rank keyword scores chunk_map))
  = keys_after (map fst scores) keyword.
Proof.
  revert rank scores chunk_map.
  induction keyword as [|c l IH]; intros rank scores chunk_map; simpl.
  - unfold keys_after. simpl. by rewrite app_nil_r.
  - by rewrite IH, dict_add_keys, keys_after_cons.
Qed.

Lemma keys_after_app (K : list string) (l1 l2 : list Chunk) :
  keys_after (keys_after K l1) l2 = keys_after K (l1 ++ l2).
Proof.
  revert K. induction l1 as [|c l1 IH]; intros K.
  - unfold keys_after at 2. simpl. by rewrite app_nil_r.
  - simpl. by rewrite !keys_after_cons, IH.
Qed.

Lemma keys_after_nil (l : list Chunk) :
  keys_after [] l = first_seen (map chunk_id l).
Proof.
  unfold keys_after. simpl. induction (first_seen _) as [|x xs IH]; [done|].
  rewrite filter_cons, decide_True by set_solver. by rewrite IH.
Qed.

(** The dict of the fusion lists the ids in the order of their first
    occurrence in the semantic list followed by the keyword list. *)
Lemma rrf_scores_keys semantic keyword alpha k :
  map fst (fst (rrf_scores semantic keyword alpha k))
  = first_seen (map chunk_id (semantic ++ keyword)).
Proof.
  unfold rrf_scores.
  destruct (score_semantic alpha k 0 semantic [] ∅) as [scores cm] eqn:E.
  rewrite score_keyword_keys.
  pose proof (score_semantic_keys alpha k 0 semantic [] ∅) as H.
  rewrite E in H. simpl in H.
  by rewrite H, keys_after_app, keys_after_nil.
Qed.

(** *** The sort *)

Lemma insert_desc_perm (x : string * Q) (l : list (string * Q)) :
  Permutation (insert_desc x l) (x :: l).
Proof.
  induction l as [|y l IH]; simpl; [done|].
  destruct (lt (snd x) (snd y)); [|done].
  rewrite IH. apply perm_swap.
Qed.

Lemma sorted_desc_perm (scores : list (string * Q)) :
  Permutation (sorted_desc scores) scores.
Proof.
  induction scores as [|x l IH]; simpl; [done|].
  rewrite insert_desc_perm. by constructor.
Qed.

Lemma insert_desc_sorted (x : string * Q) (l : list (string * Q)) :
  StronglySorted score_ge l -> StronglySorted score_ge (insert_desc x l).
Proof.
  induction l as [|y l IH]; intros Hs; simpl.
  - constructor; constructor.
  - apply StronglySorted_inv in Hs as [Hs Hy].
    destruct (lt_spec (snd x) (snd y)) as [Hlt|Hge].
    + constructor; [by apply IH|].
      apply Forall_forall. intros z Hz. rewrite insert_desc_perm in Hz.
      apply elem_of_cons in Hz as [->|Hz]; [unfold score_ge; lra|].
      rewrite Forall_forall in Hy. by apply Hy.
    + constructor; [by constructor|].
      constructor; [unfold score_ge; lra|].
      eapply Forall_impl; [exact Hy|]. unfold score_ge. intros z Hz. lra.
Qed.

Lemma sorted_desc_sorted (scores : list (string * Q)) :
  StronglySorted score_ge (sorted_desc scores).
Proof.
  induction scores as [|x l IH]; simpl; [constructor|].
  by apply insert_desc_sorted.
Qed.

(** The sort is stable: among the entries of one score, the order of the
    dict is kept. *)
Lemma insert_desc_stable (v : Q) (x : string * Q) (l : list (string * Q)) :
  List.filter (same_score v) (insert_desc x l)
  = List.filter (same_score v) (x :: l).
Proof.
  induction l as [|y l IH]; [done|]. simpl in *.
  destruct (lt_spec (snd x) (snd y)) as [Hlt|Hge]; [|done].
  simpl. rewrite IH. unfold same_score.
  destruct (Qeq_bool (snd x) v) eqn:Ex; [|done].
  destruct (Qeq_bool (snd y) v) eqn:Ey; [|done].
  apply Qeq_bool_iff in Ex, Ey. lra.
Qed.

Lemma sorted_desc_stable (v : Q) (scores : list (string * Q)) :
  List.filter (same_score v) (sorted_desc scores)
  = List.filter (same_score v) scores.
Proof.
  induction scores as [|x l IH]; [done|].
  simpl sorted_desc. rewrite insert_desc_stable. simpl. by rewrite IH.
Qed.

(** *** The fused list *)

Lemma covers_add scores chunk_map (c : Chunk) (t : Q)
    (chunk_map' : gmap string Chunk) :
  covers scores chunk_map ->
  chunk_map' = <[chunk_id c := c]> chunk_map
  \/ (chunk_map' = chunk_map /\ is_Some (chunk_map !! chunk_id c)) ->
  covers (dict_add scores (chunk_id c) t) chunk_map'.
Proof.
  intros [Hdom Hid] Hmap. split.
  - intros id Hin. rewrite dict_add_keys in Hin.
    assert (id ∈ map fst scores \/ id = chunk_id c) as [Hold| ->].
    { destruct (decide (chunk_id c ∈ map fst scores)); [by left|].
      apply elem_of_app in Hin as [?|?%list_elem_of_singleton]; auto. }
    + destruct Hmap as [->|[-> _]]; [|by apply Hdom].
      destruct (decide (chunk_id c = id)) as [<-|Hne].
      * rewrite lookup_insert_eq. by eexists.
      * rewrite lookup_insert_ne by done. by apply Hdom.
    + destruct Hmap as [->|[-> ?]]; [|done].
      rewrite lookup_insert_eq. by eexists.
  - intros id c' Hc'. destruct Hmap as [->|[-> _]]; [|by apply Hid].
    destruct (decide (chunk_id c = id)) as [<-|Hne].
    + rewrite lookup_insert_eq in Hc'. congruence.
    + rewrite lookup_insert_ne in Hc' by done. by apply Hid.
Qed.

Lemma score_semantic_covers alpha k rank semantic scores chunk_map :
  covers scores chunk_map ->
  covers (fst (score_semantic alpha k rank semantic scores chunk_map))
         (snd (score_semantic alpha k rank semantic scores chunk_map)).
Proof.
  revert rank scores chunk_map.
  induction semantic as [|c l IH]; intros rank scores chunk_map H; [done|].
  simpl. apply IH. apply (covers_add _ chunk_map); [done|by left].
Qed.

Lemma score_keyword_covers alpha k rank keyword scores chunk_map :
  covers scores chunk_map ->
  covers (fst (score_keyword alpha k rank keyword scores chunk_map))
         (snd (score_keyword alpha k rank keyword scores chunk_map)).
Proof.
  revert rank scores chunk_map.
  induction keyword as [|c l IH]; intros rank scores chunk_map H; [done|].
  simpl. apply IH. apply (covers_add _ chunk_map); [done|].
  destruct (chunk_map !! chunk_id c) eqn:E; [right|left]; [|done].
  split; [done|]. rewrite ?E. by eexists.
Qed.

Lemma rrf_scores_covers semantic keyword alpha k :
  covers (fst (rrf_scores semantic keyword alpha k))
         (snd (rrf_scores semantic keyword alpha k)).
Proof.
  unfold rrf_scores.
  pose proof (score_semantic_covers alpha k 0 semantic [] ∅) as H.
  destruct (score_semantic alpha k 0 semantic [] ∅) as [scores cm].
  apply score_keyword_covers, H. split.
  - intros id Hid. by apply elem_of_nil in Hid.
  - intros id c Hc. by rewrite lookup_empty in Hc.
Qed.

(** The fusion never raises, and the list it returns shows the sorted
    scores: one result per id, under its fused score. *)
Lemma rrf_returns semantic keyword alpha k :
  exists fused,
    _reciprocal_rank_fusion semantic keyword alpha k = Ok fused
    /\ ranking fused = sorted_desc (fst (rrf_scores semantic keyword alpha k))
    /\ Forall (fun c => is_Some (rrf_score c)) fused.
Proof.
  unfold _reciprocal_rank_fusion.
  pose proof (rrf_scores_covers semantic keyword alpha k) as [Hdom Hid].
  destruct (rrf_scores semantic keyword alpha k) as [scores chunk_map].
  simpl in *.
  assert (forall x, x ∈ sorted_desc scores -> fst x ∈ map fst scores) as Hin.
  { intros x Hx. rewrite sorted_desc_perm in Hx. by apply list_elem_of_fmap_2. }
  induction (sorted_desc scores) as [|[id s] l IH].
  - by exists [].
  - destruct IH as (fused & Hf & Hr & Hs).
    { intros x Hx. apply Hin. by right. }
    destruct (Hdom id) as [c Hc]; [apply (Hin (id, s)); by left|].
    cbn [mapM]. unfold mbind at 1, result_bind at 1. rewrite Hc.
    unfold mbind at 1, result_bind at 1. rewrite Hf. eexists.
    split; [reflexivity|]. split.
    + unfold ranking in *. simpl. rewrite Hr. by rewrite (Hid _ _ Hc).
    + constructor; [by eexists|done].
Qed.

Lemma first_seen_NoDup (ids : list string) : NoDup (first_seen ids).
Proof.
  induction ids as [|id rest IH]; simpl; [constructor|].
  constructor; [|by apply NoDup_filter].
  rewrite list_elem_of_filter. by intros [? _].
Qed.

Lemma first_seen_elem (ids : list string) (x : string) :
  x ∈ first_seen ids <-> x ∈ ids.
Proof.
  induction ids as [|id rest IH]; simpl; [done|].
  rewrite !elem_of_cons, list_elem_of_filter, IH.
  destruct (decide (x = id)); naive_solver.
Qed.

Lemma list_filter_sublist {A : Type} (p : A -> bool) (l : list A) :
  sublist (List.filter p l) l.
Proof.
  induction l as [|x l IH]; simpl; [done|].
  destruct (p x); by constructor.
Qed.

(** C7 fails on the code as stated: with equal weights, a chunk found by
    the semantic search alone and a chunk found by the keyword search
    alone have the same score, and whichever was in the semantic list is
    ranked first; so no order on the ids decides the ties. *)
Lemma tie_order_follows_input :
  ranking <$> _reciprocal_rank_fusion [chunk_with_id "a"] [chunk_with_id "b"]
                0.5 60
  = Ok [("a", 0 + 0.5 / of_nat 61); ("b", 0 + (1 - 0.5) / of_nat 61)]
  /\ ranking <$> _reciprocal_rank_fusion [chunk_with_id "b"]
                   [chunk_with_id "a"] 0.5 60
     = Ok [("b", 0 + 0.5 / of_nat 61); ("a", 0 + (1 - 0.5) / of_nat 61)]
  /\ 0 + 0.5 / of_nat 61 == 0 + (1 - 0.5) / of_nat 61
  /\ ~ tie_break_on_identity.
Proof.
  assert (0 + 0.5 / of_nat 61 == 0 + (1 - 0.5) / of_nat 61) as Htie by done.
  split; [done|]. split; [done|]. split; [done|].
  intros (before & Hanti & Hrule).
  assert (before "a" "b") as Hab.
  { by apply (Hrule [chunk_with_id "a"] [chunk_with_id "b"] 0.5 60%nat
                _ [] ("a", 0 + 0.5 / of_nat 61) []
                ("b", 0 + (1 - 0.5) / of_nat 61) [] eq_refl eq_refl). }
  assert (before "b" "a") as Hba.
  { by apply (Hrule [chunk_with_id "b"] [chunk_with_id "a"] 0.5 60%nat
                _ [] ("b", 0 + 0.5 / of_nat 61) []
                ("a", 0 + (1 - 0.5) / of_nat 61) [] eq_refl eq_refl). }
  by specialize (Hanti _ _ Hab Hba).
Qed.

(** C7, amended. The fusion is a function of its two lists, the weight
    and the constant: it always returns, and what it returns is fixed by
    them.  The candidates are the distinct ids of the two lists; they are
    ranked by fused score, highest first; and candidates of equal score
    stand in the order in which their ids first occur in the semantic
    list followed by the keyword list. *)
Theorem rrf_ranking_order (semantic keyword : list Chunk) (alpha : Q)
    (k : nat) :
  exists fused : list Chunk,
    _reciprocal_rank_fusion semantic keyword alpha k = Ok fused
    /\ (forall fused',
          _reciprocal_rank_fusion semantic keyword alpha k = Ok fused' ->
          fused' = fused)
    /\ map fst (ranking fused)
        ≡ₚ first_seen (map chunk_id (semantic ++ keyword))
    /\ StronglySorted (fun x y => snd y <= snd x) (ranking fused)
    /\ forall v : Q,
         sublist (map fst (List.filter (same_score v) (ranking fused)))
                 (first_seen (map chunk_id (semantic ++ keyword))).
Proof.
  destruct (rrf_returns semantic keyword alpha k) as (fused & Hf & Hr & _).
  exists fused. split; [done|]. split; [congruence|].
  rewrite Hr, <- (rrf_scores_keys semantic keyword alpha k). split; [|split].
  - by rewrite sorted_desc_perm.
  - apply sorted_desc_sorted.
  - intros v. rewrite sorted_desc_stable.
    apply fmap_sublist, list_filter_sublist.
Qed.
End Fusion.

Section FusionBounds.
Import PyNum PyStr Schemas Embeddings VectorStore HybridRetriever.
Local Open Scope Q_scope.

Lemma occurrences_cons (id : string) (c : Chunk) (l : list Chunk) :
  occurrences id (c :: l)
  = ((if decide (chunk_id c = id) then 1 else 0) + occurrences id l)%nat.
Proof.
  unfold occurrences. rewrite filter_cons. by destruct (decide _).
Qed.

Lemma occurrences_app (id : string) (l1 l2 : list Chunk) :
  occurrences id (l1 ++ l2) = (occurrences id l1 + occurrences id l2)%nat.
Proof. unfold occurrences. by rewrite filter_app, length_app. Qed.

Lemma occurrences_notin (id : string) (l : list Chunk) :
  id ∉ map chunk_id l -> occurrences id l = 0%nat.
Proof.
  induction l as [|c l IH]; [done|]. simpl. intros H.
  rewrite occurrences_cons, decide_False, IH; [done|set_solver..].
Qed.

Lemma occurrences_NoDup (id : string) (l : list Chunk) :
  NoDup (map chunk_id l) -> (occurrences id l <= 1)%nat.
Proof.
  induction l as [|c l IH]; [unfold occurrences; simpl; lia|].
  simpl. intros [Hc Hl]%NoDup_cons. rewrite occurrences_cons.
  destruct (decide (chunk_id c = id)) as [<-|Hne]; [|by apply IH].
  rewrite occurrences_notin by done. lia.
Qed.

Lemma sum_acc_bounds (a b : Q) (l : list Q) (acc : Q) :
  Forall (fun x => a <= x <= b) l ->
  acc + a * of_nat (length l) <= fold_left Qplus l acc
  <= acc + b * of_nat (length l).
Proof.
  intros H. revert acc. induction H as [|x l [Hx1 Hx2] _ IH]; intros acc.
  - cbn [fold_left length]. change (of_nat 0) with 0. lra.
  - cbn [fold_left length]. specialize (IH (acc + x)).
    rewrite of_nat_S. lra.
Qed.

(** The mean of numbers between two bounds is between them. *)
Lemma mean_bounds (a b : Q) (l : list Q) :
  l <> [] -> Forall (fun x => a <= x <= b) l ->
  a <= sum l / of_nat (length l) <= b.
Proof.
  intros Hne H. pose proof (sum_acc_bounds a b l 0 H) as [Hlo Hhi].
  assert (0 < of_nat (length l)) as Hpos.
  { apply of_nat_pos. destruct l; [done|simpl; lia]. }
  unfold sum. split.
  - apply Qle_shift_div_l; [done|]. lra.
  - apply Qle_shift_div_r; [done|]. lra.
Qed.

(** One term of the fusion: a weight in the unit interval over a rank. *)
Lemma term_bounds (w : Q) (k rank : nat) :
  0 <= w <= 1 ->
  0 <= w / of_nat (k + rank + 1) <= 1 / of_nat (k + 1)
  /\ (0 < w -> 0 < w / of_nat (k + rank + 1)).
Proof.
  intros [Hw0 Hw1].
  assert (0 < of_nat (k + 1)) as Hk by (apply of_nat_pos; lia).
  assert (of_nat (k + 1) <= of_nat (k + rank + 1)) as Hle
    by (apply of_nat_le; lia).
  assert (0 < of_nat (k + rank + 1)) as Hn by lra.
  split; [split|].
  - apply Qle_shift_div_l; [done|]. lra.
  - apply Qle_shift_div_r; [done|].
    assert (1 / of_nat (k + 1) * of_nat (k + 1) == 1) as E by (field; lra).
    assert (0 <= 1 / of_nat (k + 1)) by (apply Qle_shift_div_l; [done|lra]).
    nra.
  - intros Hpos. apply Qlt_shift_div_l; [done|]. lra.
Qed.

Lemma bounded_add (B : Q) (occ : string -> nat) scores (c : Chunk)
    (l : list Chunk) (t : Q) :
  0 <= t <= B ->
  bounded B (fun id => (occ id + occurrences id l)%nat) scores ->
  bounded B (fun id => (occ id + occurrences id (l ++ [c]))%nat)
    (dict_add scores (chunk_id c) t).
Proof.
  intros Ht H id s. rewrite dict_add_get.
  rewrite occurrences_app, occurrences_cons. unfold occurrences at 2. simpl.
  destruct (decide (chunk_id c = id)) as [<-|Hne].
  - intros [= <-].
    replace (occ (chunk_id c) + (occurrences (chunk_id c) l + (1 + 0)))%nat
      with (S (occ (chunk_id c) + occurrences (chunk_id c) l)) by lia.
    rewrite of_nat_S.
    destruct (dict_get scores (chunk_id c)) as [s|] eqn:E; simpl.
    + specialize (H _ _ E). simpl in H. nra.
    + pose proof (of_nat_nonneg (occ (chunk_id c)
                                 + occurrences (chunk_id c) l)).
      nra.
  - intros E. specialize (H _ _ E). simpl in H.
    by rewrite !Nat.add_0_r.
Qed.

Lemma positive_add scores (id : string) (t : Q) :
  0 < t -> positive scores -> positive (dict_add scores id t).
Proof.
  intros Ht H id' s. rewrite dict_add_get.
  destruct (decide (id = id')) as [<-|Hne]; [|apply H].
  intros [= <-]. destruct (dict_get scores id) as [s|] eqn:E; simpl.
  - specialize (H _ _ E). lra.
  - lra.
Qed.

Lemma score_semantic_terms alpha k rank l scores chunk_map :
  fst (score_semantic alpha k rank l scores chunk_map)
  = add_terms alpha k rank l scores.
Proof.
  revert rank scores chunk_map.
  induction l as [|c l IH]; intros rank scores chunk_map; [done|].
  simpl. by rewrite IH.
Qed.

Lemma score_keyword_terms alpha k rank l scores chunk_map :
  fst (score_keyword alpha k rank l scores chunk_map)
  = add_terms (1 - alpha) k rank l scores.
Proof.
  revert rank scores chunk_map.
  induction l as [|c l IH]; intros rank scores chunk_map; [done|].
  simpl. by rewrite IH.
Qed.

Lemma rrf_scores_terms semantic keyword alpha k :
  fst (rrf_scores semantic keyword alpha k)
  = add_terms (1 - alpha) k 0 keyword (add_terms alpha k 0 semantic []).
Proof.
  unfold rrf_scores.
  pose proof (score_semantic_terms alpha k 0 semantic [] ∅) as H.
  destruct (score_semantic alpha k 0 semantic [] ∅) as [scores cm].
  simpl in H. subst scores. apply score_keyword_terms.
Qed.

Lemma bounded_ext (B : Q) (f g : string -> nat) scores :
  (forall id, f id = g id) -> bounded B f scores -> bounded B g scores.
Proof. intros E H id s Hs. rewrite <- E. by apply H. Qed.

Lemma add_terms_bounded (w : Q) (k rank : nat) (l seen : list Chunk)
    (occ : string -> nat) scores :
  0 <= w <= 1 ->
  bounded (1 / of_nat (k + 1)) (fun id => (occ id + occurrences id seen)%nat)
    scores ->
  bounded (1 / of_nat (k + 1))
    (fun id => (occ id + occurrences id (seen ++ l))%nat)
    (add_terms w k rank l scores).
Proof.
  intros Hw. revert rank seen scores.
  induction l as [|c l IH]; intros rank seen scores H; simpl.
  - eapply bounded_ext; [|exact H]. intros id. by rewrite app_nil_r.
  - eapply bounded_ext; [|apply (IH (S rank) (seen ++ [c])%list)].
    + intros id. simpl. by rewrite <- app_assoc.
    + apply bounded_add; [|done]. apply term_bounds. done.
Qed.

Lemma add_terms_positive (w : Q) (k rank : nat) (l : list Chunk) scores :
  0 < w <= 1 -> positive scores -> positive (add_terms w k rank l scores).
Proof.
  intros Hw. revert rank scores.
  induction l as [|c l IH]; intros rank scores H; [done|]. simpl.
  apply IH, positive_add; [|done]. apply term_bounds; lra.
Qed.

Lemma dict_get_elem scores (id : string) (s : Q) :
  NoDup (map fst scores) -> (id, s) ∈ scores -> dict_get scores id = Some s.
Proof.
  induction scores as [|[key v] rest IH]; intros Hnd Hin.
  - by apply elem_of_nil in Hin.
  - simpl in *. apply NoDup_cons in Hnd as [Hkey Hnd].
    apply elem_of_cons in Hin as [[= -> ->]|Hin].
    + by rewrite String.eqb_refl.
    + destruct (String.eqb_spec key id) as [->|Hne]; [|by apply IH].
      exfalso. apply Hkey. by apply (list_elem_of_fmap_2 fst _ (id, s)).
Qed.

(** The scores of the fusion, for a weight in the unit interval. *)
Lemma rrf_scores_bounds semantic keyword alpha k (id : string) (s : Q) :
  0 <= alpha <= 1 ->
  (id, s) ∈ fst (rrf_scores semantic keyword alpha k) ->
  0 <= s <= of_nat (occurrences id semantic + occurrences id keyword)
            / of_nat (k + 1)
  /\ (0 < alpha < 1 -> 0 < s).
Proof.
  intros Ha Hin. apply dict_get_elem in Hin.
  2: { rewrite rrf_scores_keys. apply first_seen_NoDup. }
  rewrite rrf_scores_terms in Hin. split.
  - assert (bounded (1 / of_nat (k + 1))
              (fun id => (occurrences id semantic
                          + occurrences id ([] ++ keyword))%nat)
              (add_terms (1 - alpha) k 0 keyword
                 (add_terms alpha k 0 semantic []))) as Hb.
    { apply add_terms_bounded; [lra|].
      eapply bounded_ext;
        [|apply (add_terms_bounded alpha k 0 semantic [] (fun _ => 0%nat) []);
          [done|by intros ? ? ?]].
      intros id'. unfold occurrences at 3. simpl. lia. }
    specialize (Hb _ _ Hin). simpl in Hb.
    unfold Qdiv in *. lra.
  - intros Hstrict.
    eapply (add_terms_positive (1 - alpha) k 0 keyword); [lra| |exact Hin].
    apply add_terms_positive; [lra|by intros ? ? ?].
Qed.
End FusionBounds.

(** ** C10: the relevance of the citations *)

Section Relevance.
Import PyNum PyStr Schemas Embeddings VectorStore HybridRetriever.
Local Open Scope Q_scope.

Lemma keyword_loop_occurrences (store : VectorStoreBase) (terms : list string)
    (top_k : nat) (f : list (string * string)) (acc : list Chunk)
    (id : string) :
  distinct_ids store ->
  (occurrences id (keyword_loop store terms top_k f acc)
   <= occurrences id acc + length terms)%nat.
Proof.
  intros [_ Hkw]. revert acc.
  induction terms as [|t terms IH]; intros acc; simpl; [lia|].
  etrans; [apply IH|].
  destruct (keyword_search store t top_k f) as [r|e] eqn:E; [|lia].
  rewrite occurrences_app.
  pose proof (occurrences_NoDup id r (Hkw _ _ _ _ E)). lia.
Qed.

Lemma citation_relevance (c : Chunk) (s : Q) :
  rrf_score c = Some s -> Schemas.relevance_score (citation_of c) = s.
Proof. intros H. unfold citation_of. simpl. by rewrite H. Qed.

(** C10 fails on the code as stated: the weight is a setting, and with
    the weight 1 a chunk that only the keyword search finds is fused with
    the score 0, which its citation then carries: a relevance that is not
    strictly positive. *)
Lemma relevance_zero_at_weight_one :
  exists chunks c,
    retrieve settings_alpha_one
      {| embed_query := fun _ => Ok [1]; similarities := fun _ _ => Ok [] |}
      keyword_only_store "revenue" 5 []
    = Ok (chunks, [c])
    /\ cit_chunk_id c = "a"
    /\ Schemas.relevance_score c == 0
    /\ ~ 0 < Schemas.relevance_score c.
Proof.
  eexists _, _. split; [vm_compute; reflexivity|].
  split; [reflexivity|]. split; [reflexivity|]. cbn. lra.
Qed.

Lemma ranking_elem (fused : list Chunk) (c : Chunk) (s : Q) :
  c ∈ fused -> rrf_score c = Some s -> (chunk_id c, s) ∈ ranking fused.
Proof.
  intros Hc Hs. unfold ranking.
  apply (list_elem_of_fmap_2' _ _ c); [done|]. by rewrite Hs.
Qed.

(** C10, amended. For a weight between 0 and 1, every candidate of the
    fusion has a fused score that is not negative - strictly positive when
    the weight is strictly between 0 and 1, as the default 0.7 is - and at
    most n / (k + 1), n being the number of occurrences of its id in the
    two lists.  In a retrieval (k = 60) over an index whose searches
    return a chunk at most once, n is at most 1 + 3, so every citation
    carries a relevance between 0 and 4/61; hence the retrieval-relevance
    component of the confidence score is below 0.07 on such citations. *)
Theorem rrf_score_bounds :
  (forall (semantic keyword : list Chunk) (alpha : Q) (k : nat)
          (fused : list Chunk) (id : string) (s : Q),
     0 <= alpha <= 1 ->
     _reciprocal_rank_fusion semantic keyword alpha k = Ok fused ->
     (id, s) ∈ ranking fused ->
     0 <= s <= of_nat (occurrences id semantic + occurrences id keyword)
               / of_nat (k + 1)
     /\ (0 < alpha < 1 -> 0 < s))
  /\ (forall (settings : Config.Settings) (embeddings : EmbeddingService)
             (store : VectorStoreBase) (query : string) (top_k : nat)
             (metadata_filter : list (string * string))
             (chunks : list Chunk) (citations : list Citation),
        0 <= Config.hybrid_search_alpha settings <= 1 ->
        distinct_ids store ->
        retrieve settings embeddings store query top_k metadata_filter
        = Ok (chunks, citations) ->
        Forall (fun c =>
                  0 <= Schemas.relevance_score c <= 4 / 61
                  /\ (0 < Config.hybrid_search_alpha settings < 1 ->
                      0 < Schemas.relevance_score c)) citations
        /\ 0 <= ConfidenceScorer._score_retrieval_relevance citations
           < 0.07).
Proof.
  assert (forall semantic keyword alpha k fused id s,
            0 <= alpha <= 1 ->
            _reciprocal_rank_fusion semantic keyword alpha k = Ok fused ->
            (id, s) ∈ ranking fused ->
            0 <= s <= of_nat (occurrences id semantic
                              + occurrences id keyword) / of_nat (k + 1)
            /\ (0 < alpha < 1 -> 0 < s)) as Hfun.
  { intros semantic keyword alpha k fused id s Ha Hf Hin.
    destruct (rrf_returns semantic keyword alpha k) as (fused' & Hf' & Hr & _).
    assert (fused' = fused) as -> by congruence.
    rewrite Hr, sorted_desc_perm in Hin. by apply rrf_scores_bounds. }
  split; [exact Hfun|].
  intros settings embeddings store query top_k metadata_filter chunks
    citations Halpha Hdistinct.
  unfold retrieve.
  set (n := or_else top_k (Config.retrieval_top_k settings)).
  unfold mbind at 1, result_bind at 1.
  destruct (embed_query embeddings query) as [qe|e]; [|done].
  unfold mbind at 1, result_bind at 1.
  destruct (search store qe (n * 2) metadata_filter) as [semantic|e] eqn:Es;
    [|done].
  set (keyword := if is_chroma store then _ else []).
  unfold mbind, result_bind.
  destruct (rrf_returns semantic keyword (Config.hybrid_search_alpha settings)
              RRF_K) as (fused & Hf & _ & Hsome).
  rewrite Hf. unfold mret, result_ret. intros [= <- <-].
  set (final := firstn _ fused).
  assert (Forall (fun c =>
                    0 <= Schemas.relevance_score c <= 4 / 61
                    /\ (0 < Config.hybrid_search_alpha settings < 1 ->
                        0 < Schemas.relevance_score c))
            (_build_citations final)) as Hall.
  { unfold _build_citations. apply Forall_fmap, Forall_forall.
    intros c Hc. unfold compose.
    assert (c ∈ fused) as Hcf.
    { rewrite <- (take_drop (or_else (Config.rerank_top_k settings) n) fused).
      apply elem_of_app. by left. }
    rewrite Forall_forall in Hsome. destruct (Hsome c Hcf) as [s Hs].
    rewrite (citation_relevance c s Hs).
    destruct (Hfun semantic keyword _ RRF_K fused (chunk_id c) s Halpha Hf
                (ranking_elem fused c s Hcf Hs)) as [[Hlo Hhi] Hpos].
    split; [|done]. split; [done|].
    eapply Qle_trans; [exact Hhi|].
    assert (occurrences (chunk_id c) semantic <= 1)%nat as H1.
    { apply occurrences_NoDup. by eapply (proj1 Hdistinct). }
    assert (occurrences (chunk_id c) keyword <= 3)%nat as H3.
    { subst keyword. destruct (is_chroma store).
      - etrans; [by apply keyword_loop_occurrences|].
        unfold occurrences at 1. simpl. rewrite length_take. lia.
      - unfold occurrences. simpl. lia. }
    apply Qle_shift_div_r; [by vm_compute|].
    apply (Qle_trans _ (of_nat 4)); [apply of_nat_le; lia|].
    vm_compute. discriminate. }
  split; [done|].
  unfold ConfidenceScorer._score_retrieval_relevance.
  generalize dependent (_build_citations final). intros cits Hall.
  destruct cits as [|c0 cs]; [split; [lra|by vm_compute]|].
  set (cits := c0 :: cs) in *.
  assert (0 <= sum (map Schemas.relevance_score cits)
               / of_nat (length cits) <= 4 / 61) as [Hlo Hhi].
  { rewrite <- (length_map Schemas.relevance_score).
    apply mean_bounds; [done|].
    apply Forall_fmap. eapply Forall_impl; [exact Hall|].
    intros c [Hc _]. exact Hc. }
  rewrite clamp_id; [split; [done|]|split; [done|]].
  - eapply Qle_lt_trans; [exact Hhi|]. by vm_compute.
  - eapply Qle_trans; [exact Hhi|]. by vm_compute.
Qed.

Lemma rrf_score_bounds_witness :
  match retrieve Config.default
          {| embed_query := fun _ => Ok [1];
             similarities := fun _ _ => Ok [] |}
          two_chunk_store "revenue and debt" 5 []
  with
  | Ok (_, citations) =>
      0 <= ConfidenceScorer._score_retrieval_relevance citations < 0.07
  | Raise _ => False
  end.
Proof.
  pose proof (proj2 rrf_score_bounds Config.default
                {| embed_query := fun _ => Ok [1];
                   similarities := fun _ _ => Ok [] |}
                two_chunk_store "revenue and debt" 5%nat []) as H.
  destruct (retrieve _ _ _ _ _ _) as [[chunks citations]|e] eqn:E;
    [|by vm_compute in E].
  apply (H chunks citations); [by vm_compute| |done].
  split; intros ? ? ? r [= <-]; repeat constructor; set_solver.
Defined.
End Relevance.

(** ** The formula of the fused score *)

Section FusionFormula.
Import PyNum PyStr Schemas Embeddings VectorStore HybridRetriever.
Local Open Scope Q_scope.

Lemma add_terms_sum (w : Q) (k rank : nat) (l : list Chunk) scores
    (id : string) (s : Q) :
  dict_get (add_terms w k rank l scores) id = Some s ->
  s == default 0 (dict_get scores id) + rank_sum w k rank l id.
Proof.
  revert rank scores. induction l as [|c l IH]; intros rank scores H; simpl.
  - simpl in H. rewrite H. simpl. lra.
  - simpl in H. apply IH in H. rewrite H, dict_add_get.
    destruct (decide (chunk_id c = id)) as [<-|]; simpl; lra.
Qed.

Lemma add_terms_keeps (w : Q) (k rank : nat) (l : list Chunk) scores
    (id : string) :
  is_Some (dict_get scores id) ->
  is_Some (dict_get (add_terms w k rank l scores) id).
Proof.
  revert rank scores. induction l as [|c l IH]; intros rank scores H; [done|].
  simpl. apply IH. rewrite dict_add_get. destruct (decide _); [by eexists|done].
Qed.

Lemma add_terms_none (w : Q) (k rank : nat) (l : list Chunk) scores
    (id : string) :
  dict_get (add_terms w k rank l scores) id = None ->
  rank_sum w k rank l id == 0.
Proof.
  revert rank scores. induction l as [|c l IH]; intros rank scores H; [done|].
  simpl in *. destruct (decide (chunk_id c = id)) as [Heq|Hne].
  - exfalso.
    assert (is_Some (dict_get (add_terms w k (S rank) l
                        (dict_add scores (chunk_id c)
                           (w / of_nat (k + rank + 1)))) id)) as [x Hx].
    { apply add_terms_keeps. rewrite dict_add_get, decide_True by done.
      by eexists. }
    congruence.
  - rewrite (IH _ _ H). lra.
Qed.

(** X1. For each candidate of the fusion the fused score is the sum of
    [alpha / (k + rank + 1)] over its ranks in the semantic list and of
    [(1 - alpha) / (k + rank + 1)] over its ranks in the keyword list, a
    list in which it does not stand contributing zero; the candidates are
    the ids that stand in one of the lists, each once. *)
Theorem rrf_score_formula (semantic keyword : list Chunk) (alpha : Q)
    (k : nat) :
  exists fused : list Chunk,
    _reciprocal_rank_fusion semantic keyword alpha k = Ok fused
    /\ NoDup (map chunk_id fused)
    /\ (forall id, id ∈ map chunk_id fused
                   <-> id ∈ map chunk_id (semantic ++ keyword))
    /\ forall c, c ∈ fused ->
         exists s, rrf_score c = Some s
                   /\ s == rank_sum alpha k 0 semantic (chunk_id c)
                          + rank_sum (1 - alpha) k 0 keyword (chunk_id c).
Proof.
  destruct (rrf_returns semantic keyword alpha k) as (fused & Hf & Hr & Hs).
  exists fused. split; [done|].
  assert (map chunk_id fused = map fst (ranking fused)) as Hids.
  { unfold ranking. rewrite <- list_fmap_compose. done. }
  assert (map fst (ranking fused)
          ≡ₚ first_seen (map chunk_id (semantic ++ keyword))) as Hperm.
  { by rewrite Hr, sorted_desc_perm, rrf_scores_keys. }
  split; [|split].
  - rewrite Hids, Hperm. apply first_seen_NoDup.
  - intros id. by rewrite Hids, Hperm, first_seen_elem.
  - intros c Hc. rewrite Forall_forall in Hs. destruct (Hs c Hc) as [s Hsc].
    exists s. split; [done|].
    pose proof (ranking_elem fused c s Hc Hsc) as Hin.
    rewrite Hr, sorted_desc_perm in Hin.
    apply dict_get_elem in Hin.
    2: { rewrite rrf_scores_keys. apply first_seen_NoDup. }
    rewrite rrf_scores_terms in Hin.
    apply add_terms_sum in Hin. rewrite Hin.
    destruct (dict_get (add_terms alpha k 0 semantic []) (chunk_id c))
      as [s0|] eqn:E; simpl.
    + apply add_terms_sum in E. simpl in E. rewrite E. lra.
    + rewrite (add_terms_none _ _ _ _ _ _ E). lra.
Qed.
End FusionFormula.

(** ** The evaluation pipeline: skipped consistency, and the flags *)

Section Pipeline.
Import PyNum Schemas Config LLM Embeddings EvaluationPipeline.
Local Open Scope Q_scope.

(** A detection run calls the model once, for the judge step. *)
Lemma detect_calls (llm : LLMClient) (embeddings : EmbeddingService)
    response_text source_chunks query n r n' :
  HallucinationDetector.detect llm embeddings response_text source_chunks
    query n = (r, n') ->
  n' = S n.
Proof.
  rewrite detect_cases, judge_cases.
  destruct (reply llm n) as [c|]; [|congruence].
  destruct (HallucinationDetector.parse_judge c) as [j|e];
    [|destruct (parse_errors e)]; congruence.
Qed.

(** X2. When the consistency check is not asked for, or there is no prompt
    history, the pipeline calls the model for the judge step of the
    detection only, and the consistency score of the result is 1.0. *)
Theorem evaluate_skips_consistency (settings : Settings) (llm : LLMClient)
    (embeddings : EmbeddingService) (response_text : string)
    (source_chunks : list string) (query : string)
    (citations : list Citation) (messages : list (string * string))
    (run_consistency : bool) (n n' : nat) (r : EvaluationResult) :
  run_consistency = false \/ messages = [] ->
  evaluate settings llm embeddings response_text source_chunks query
    citations messages run_consistency n = (Ok r, n') ->
  semantic_consistency_score r = 1.0 /\ n' = S n.
Proof.
  intros Hskip. unfold evaluate, mbind, run_bind, mret, run_ret, lift.
  assert (run_consistency && negb (bool_decide (messages = [])) = false) as ->.
  { destruct Hskip as [->| ->]; [reflexivity|]. apply andb_false_r. }
  destruct (HallucinationDetector.detect _ _ _ _ _ n) as [[hall|e] n1] eqn:Hd;
    [|congruence].
  apply detect_calls in Hd as ->.
  intros H. injection H as H <-.
  apply make_EvaluationResult_ok in H as ->. split; reflexivity.
Qed.

End Pipeline.

Section PipelineSample.
Import PyNum Schemas LLM Embeddings EvaluationPipeline.
Local Open Scope Q_scope.

Lemma evaluation_sample_returns :
  { r : EvaluationResult | evaluation_sample 0%nat = (Ok r, 1%nat) }.
Proof. eexists. vm_compute. reflexivity. Defined.

Lemma evaluate_skips_consistency_witness :
  exists r : EvaluationResult,
    evaluation_sample 0%nat = (Ok r, 1%nat)
    /\ semantic_consistency_score r = 1.0.
Proof.
  destruct evaluation_sample_returns as [r Hr]. exists r.
  split; [exact Hr|]. unfold evaluation_sample in Hr.
  pose proof (evaluate_skips_consistency _ _ _ _ _ _ _ _ false 0 1 r
                (or_introl eq_refl) Hr) as [H _].
  exact H.
Defined.

End PipelineSample.

(** ** tests/unit/test_confidence_scorer.py, run on the model *)

Section ConfidenceTests.
Import PyNum Schemas ConfidenceScorer.
Local Open Scope Q_scope.

(** The assertions of the six tests of [TestConfidenceScorer] hold of
    the scorer: the well cited answer scores above 0.6 and the hedged one
    below, citations raise the citation density, hedging raises the
    hedging penalty, no citation gives the retrieval relevance 0.0, and
    the breakdown has the five components. *)
Theorem confidence_scorer_tests :
  let query := "What was Apple's revenue in 2023?" in
  let chunks := ["Revenue increased 8% to $394.3 billion."] in
  0.6 < confidence_score
          (score_default high_quality_response query sample_citations chunks)
  /\ confidence_score
       (score_default low_quality_response query sample_citations chunks)
     < 0.6
  /\ citation_density_score
       (score_default
          "Revenue was approximately some amount. Growth was notable."
          "revenue" sample_citations ["revenue"])
     < citation_density_score
         (score_default
            "Revenue was $394B [Source 1]. Growth was 8% [Source 2]."
            "revenue" sample_citations ["revenue"])
  /\ hedging_penalty
       (score_default
          "Revenue increased 8% to $394.3 billion in FY2023 [Source 1]."
          "revenue" sample_citations ["revenue"])
     < hedging_penalty
         (score_default
            "It seems like it may have increased. It is possible that revenue grew."
            "revenue" sample_citations ["revenue"])
  /\ retrieval_relevance_score
       (score_default "Some response" "query" [] ["source"]) == 0.0
  /\ ["source_coverage"; "citation_density"; "specificity";
      "hedging_penalty"; "retrieval_relevance"]%string
     ⊆ map fst (breakdown (score_default high_quality_response "revenue"
                             sample_citations ["revenue"])).
Proof.
  cbv zeta. repeat apply conj; try (vm_compute; reflexivity).
  match goal with
  | |- _ ⊆ ?l => let l' := eval vm_compute in l in change l with l'
  end.
  set_solver.
Qed.
End ConfidenceTests.

(** ** The confidence score and the two outside factors *)

Section ConfidenceMonotone.
Import PyNum Schemas ConfidenceScorer.
Local Open Scope Q_scope.

Lemma round_half_even_mono (x y : Q) :
  x <= y -> (round_half_even x <= round_half_even y)%Z.
Proof.
  intros Hxy. pose proof (floor_bounds x) as [Hxl Hxu].
  pose proof (floor_bounds y) as [Hyl Hyu].
  assert (Qfloor x <= Qfloor y)%Z as Hf by by apply Qfloor_resp_le.
  destruct (Z.eq_dec (Qfloor x) (Qfloor y)) as [E|Hne].
  - unfold round_half_even. rewrite <- E in *.
    destruct (Qcompare_spec (x - inject_Z (Qfloor x)) (1 # 2));
      destruct (Qcompare_spec (y - inject_Z (Qfloor x)) (1 # 2));
      try destruct (Z.even (Qfloor x)); first [lia | lra].
  - apply Z.le_trans with (Qfloor y).
    + apply round_half_even_le. apply Qle_trans with (inject_Z (Qfloor x + 1)).
      * rewrite inject_Z_plus. change (inject_Z 1) with 1. lra.
      * rewrite <- Zle_Qle. lia.
    + by apply round_half_even_ge.
Qed.

Lemma round_mono (x y : Q) (n : nat) : x <= y -> round x n <= round y n.
Proof.
  intros Hxy. pose proof (pow10_pos n) as Hp. unfold round.
  assert (round_half_even (x * pow10 n) <= round_half_even (y * pow10 n))%Z
    as H by (apply round_half_even_mono; nra).
  rewrite Zle_Qle in H.
  apply Qle_shift_div_l; [done|].
  assert (inject_Z (round_half_even (x * pow10 n)) / pow10 n * pow10 n
          == inject_Z (round_half_even (x * pow10 n))) as -> by (field; lra).
  done.
Qed.

Lemma clamp_mono (x y : Q) :
  x <= y -> min2 (max2 x 0.0) 1.0 <= min2 (max2 y 0.0) 1.0.
Proof.
  intros Hxy. unfold min2, max2.
  destruct (gt_spec 0.0 x); destruct (gt_spec 0.0 y);
    repeat match goal with
           | |- context [lt ?a ?b] => destruct (lt_spec a b)
           end; lra.
Qed.

(** X4. The confidence score does not rise with the hallucination score and
    does not fall with the consistency score, the response, the query,
    the citations and the sources being the same. *)
Theorem confidence_monotone (response_text query : string)
    (citations : list Citation) (source_chunks : list string)
    (h1 h2 c1 c2 : Q) :
  h1 <= h2 -> c1 <= c2 ->
  confidence_score (score response_text query citations source_chunks h2 c1)
  <= confidence_score (score response_text query citations source_chunks h1 c2).
Proof.
  intros Hh Hc. cbn [score confidence_score].
  apply round_mono, clamp_mono. unfold composite. lra.
Qed.

Lemma confidence_monotone_witness :
  confidence_score (score "Revenue grew 8% [Source 1]." "revenue" []
                      ["Revenue grew 8%."] 0.9 0.5)
  <= confidence_score (score "Revenue grew 8% [Source 1]." "revenue" []
                         ["Revenue grew 8%."] 0.1 1).
Proof.
  apply (confidence_monotone "Revenue grew 8% [Source 1]." "revenue" []
           ["Revenue grew 8%."] 0.1 0.9 0.5 1); lra.
Defined.
End ConfidenceMonotone.

(** ** Failed calls of the model, and the number of calls *)

Section ModelCalls.
Import PyNum Schemas Config Json LLM Embeddings EvaluationPipeline.
Local Open Scope Q_scope.

(** X6. The [except] clause of the judge step does not cover a failed call of
    the model: the detection raises [LLMError], and so does the
    evaluation, after that one call. *)
Theorem judge_call_failure (settings : Settings) (llm : LLMClient)
    (embeddings : EmbeddingService) (response_text : string)
    (source_chunks : list string) (query : string)
    (citations : list Citation) (messages : list (string * string))
    (run_consistency : bool) (n : nat) :
  reply llm n = None ->
  HallucinationDetector.detect llm embeddings response_text source_chunks
    query n = (Raise LLMError, S n)
  /\ evaluate settings llm embeddings response_text source_chunks query
       citations messages run_consistency n = (Raise LLMError, S n).
Proof.
  intros H.
  assert (HallucinationDetector.detect llm embeddings response_text
            source_chunks query n = (Raise LLMError, S n)) as Hd.
  { by rewrite detect_cases, judge_cases, H. }
  split; [done|]. unfold evaluate, mbind, run_bind. by rewrite Hd.
Qed.

Lemma judge_call_failure_witness :
  evaluate Config.default {| reply := fun _ => None |} embeddings_sample
    "r" ["s"] "q" [] [] true 0%nat
  = (Raise LLMError, 1%nat).
Proof.
  apply (judge_call_failure Config.default {| reply := fun _ => None |}
           embeddings_sample "r" ["s"] "q" [] [] true 0 eq_refl).
Defined.

Lemma compare_pair_calls (llm : LLMClient) query a b n r n' :
  ConsistencyScorer._compare_pair llm query a b n = (r, n') -> n' = S n.
Proof.
  unfold ConsistencyScorer._compare_pair, try_except, mbind, run_bind,
    generate, lift.
  destruct (reply llm n) as [c|]; [|simpl; congruence].
  destruct (ConsistencyScorer.parse_pair c) as [p|e];
    [|destruct (parse_errors e)]; cbv [mret run_ret]; simpl; congruence.
Qed.

Lemma compare_loop_calls (llm : LLMClient) query original alts ps ds n r n' :
  ConsistencyScorer.compare_loop llm query original alts ps ds n = (r, n') ->
  (n <= n' <= n + length alts)%nat.
Proof.
  revert ps ds n. induction alts as [|alt alts IH]; intros ps ds n; simpl.
  { intros [= _ <-]. lia. }
  unfold mbind at 1, run_bind at 1.
  destruct (ConsistencyScorer._compare_pair llm query original alt n)
    as [[p|e] n1] eqn:Ep; apply compare_pair_calls in Ep as ->.
  2: { intros [= _ <-]. lia. }
  unfold mbind at 1, run_bind at 1, lift at 1.
  destruct (iter (ConsistencyScorer.pair_discrepancies p)) as [items|e].
  - intros H%IH. lia.
  - intros [= _ <-]. lia.
Qed.

Lemma successes_length (llm : LLMClient) (n k : nat) :
  (length (successes llm n k) <= k)%nat.
Proof.
  revert n. induction k as [|k IH]; intros n; simpl; [lia|].
  destruct (reply llm n); simpl; specialize (IH (S n)); lia.
Qed.

Lemma score_calls (llm : LLMClient) (original_response query : string)
    (num_samples n : nat) (r : result ConsistencyScorer.ConsistencyResult)
    (n' : nat) :
  ConsistencyScorer.score llm original_response query num_samples n = (r, n') ->
  (n + num_samples <= n' <= n + 2 * num_samples)%nat.
Proof.
  unfold ConsistencyScorer.score, mbind, run_bind.
  rewrite sample_loop_spec. cbn [app].
  pose proof (successes_length llm n num_samples) as Hlen.
  destruct (successes llm n num_samples) as [|alt alts] eqn:E.
  { intros [= _ <-]. lia. }
  destruct (ConsistencyScorer.compare_loop _ _ _ _ _ _ _) as [[[ps ds]|e] n1]
    eqn:Hc; apply compare_loop_calls in Hc; intros [= _ <-]; lia.
Qed.

(** X7. The consistency scorer calls the model once for each sample it asks
    for, and at most once more for each: between [num_samples] and twice
    [num_samples] calls, whatever the model answers and also when the
    scorer raises. *)
Theorem consistency_calls_bound (llm : LLMClient)
    (original_response query : string) (num_samples n : nat)
    (r : result ConsistencyScorer.ConsistencyResult) (n' : nat) :
  ConsistencyScorer.score llm original_response query num_samples n = (r, n') ->
  (n + num_samples <= n' <= n + 2 * num_samples)%nat.
Proof. apply score_calls. Qed.

Lemma consistency_calls_bound_witness :
  exists r,
    ConsistencyScorer.score consistency_run_sample "Revenue grew 8%."
      "What was the growth?" 2%nat 0%nat = (r, 4%nat)
    /\ (0 + 2 <= 4 <= 0 + 2 * 2)%nat.
Proof.
  eexists. split; [reflexivity|].
  exact (consistency_calls_bound consistency_run_sample "Revenue grew 8%."
           "What was the growth?" 2 0 _ 4 eq_refl).
Defined.

(** Without the consistency check the consistency score is 1.0. *)
Lemma evaluate_skipped (settings : Settings) (llm : LLMClient)
    (embeddings : EmbeddingService) response_text source_chunks query
    citations (messages : list (string * string)) (run_consistency : bool)
    n r n' :
  run_consistency = false \/ messages = [] ->
  evaluate settings llm embeddings response_text source_chunks query
    citations messages run_consistency n = (Ok r, n') ->
  semantic_consistency_score r = 1.0.
Proof.
  intros Hskip. unfold evaluate, mbind, run_bind, mret, run_ret, lift.
  assert (run_consistency && negb (bool_decide (messages = [])) = false) as ->.
  { destruct Hskip as [->| ->]; [reflexivity|]. apply andb_false_r. }
  destruct (HallucinationDetector.detect _ _ _ _ _ n) as [[hall|e] n1];
    [|congruence].
  intros H. injection H as H _.
  by apply make_EvaluationResult_ok in H as ->.
Qed.

(** X8. A sample that cannot be generated is left out, but a comparison that
    cannot be made is not: when a sample was obtained and the call that
    compares the first one fails, the scorer raises [LLMError]. *)
Theorem comparison_call_failure (llm : LLMClient)
    (original_response query : string) (num_samples n : nat) :
  successes llm n num_samples <> [] ->
  reply llm (n + num_samples) = None ->
  ConsistencyScorer.score llm original_response query num_samples n
  = (Raise LLMError, S (n + num_samples)).
Proof.
  intros Hne Hfail. unfold ConsistencyScorer.score, mbind, run_bind.
  rewrite sample_loop_spec. cbn [app].
  destruct (successes llm n num_samples) as [|alt alts]; [done|].
  cbn [ConsistencyScorer.compare_loop]. unfold mbind at 1, run_bind at 1.
  unfold ConsistencyScorer._compare_pair, try_except, mbind, run_bind,
    generate. by rewrite Hfail.
Qed.

Lemma comparison_call_failure_witness :
  ConsistencyScorer.score comparison_fails_sample "Revenue grew 8%." "q" 2%nat
    0%nat
  = (Raise LLMError, 3%nat).
Proof.
  apply (comparison_call_failure comparison_fails_sample "Revenue grew 8%."
           "q" 2 0); [discriminate|reflexivity].
Defined.
End ModelCalls.

(** ** The retrieval *)

Section Retrieval.
Import PyNum PyStr Schemas Config Embeddings VectorStore HybridRetriever.
Local Open Scope Q_scope.

Lemma fused_ids semantic keyword alpha k fused :
  _reciprocal_rank_fusion semantic keyword alpha k = Ok fused ->
  NoDup (map chunk_id fused)
  /\ (forall id, id ∈ map chunk_id fused
                 <-> id ∈ map chunk_id (semantic ++ keyword))
  /\ Forall (fun c => is_Some (rrf_score c)) fused.
Proof.
  intros Hf.
  destruct (rrf_returns semantic keyword alpha k) as (fused' & Hf' & Hr & Hs).
  assert (fused' = fused) as -> by congruence.
  assert (map chunk_id fused = map fst (ranking fused)) as Hids.
  { unfold ranking. by rewrite <- list_fmap_compose. }
  assert (map fst (ranking fused)
          ≡ₚ first_seen (map chunk_id (semantic ++ keyword))) as Hperm.
  { by rewrite Hr, sorted_desc_perm, rrf_scores_keys. }
  split; [|split; [|done]].
  - rewrite Hids, Hperm. apply first_seen_NoDup.
  - intros id. by rewrite Hids, Hperm, first_seen_elem.
Qed.

Lemma firstn_NoDup {A : Type} (n : nat) (l : list A) :
  NoDup l -> NoDup (firstn n l).
Proof.
  intros H. eapply sublist_NoDup; [exact H|apply sublist_take].
Qed.

(** X9. A retrieval fails only with the exception of the embedding of the
    query or of the semantic search: a keyword search that raises is
    passed over, and the fusion never raises.  Otherwise it returns at
    most [rerank_top_k] results - the [top_k] of the call bounds them only
    when [rerank_top_k] is 0 -, no two with the same id, each with its
    fused score, and one citation for each result, in the same order. *)
Theorem retrieve_results (settings : Settings) (embeddings : EmbeddingService)
    (store : VectorStoreBase) (query : string) (top_k : nat)
    (metadata_filter : list (string * string)) :
  match embed_query embeddings query with
  | Raise e =>
      retrieve settings embeddings store query top_k metadata_filter
      = Raise e
  | Ok query_embedding =>
      match search store query_embedding (fetch_size settings top_k * 2)
              metadata_filter with
      | Raise e =>
          retrieve settings embeddings store query top_k metadata_filter
          = Raise e
      | Ok semantic =>
          exists chunks citations,
            retrieve settings embeddings store query top_k metadata_filter
            = Ok (chunks, citations)
            /\ (length chunks <= result_limit settings top_k)%nat
            /\ NoDup (map chunk_id chunks)
            /\ Forall (fun c => is_Some (rrf_score c)) chunks
            /\ length citations = length chunks
            /\ map cit_chunk_id citations = map chunk_id chunks
      end
  end.
Proof.
  unfold retrieve, fetch_size, result_limit, mbind, result_bind, mret,
    result_ret.
  destruct (embed_query embeddings query) as [v|e]; [|reflexivity].
  destruct (search store v _ metadata_filter) as [semantic|e]; [|reflexivity].
  set (keyword := if is_chroma store then _ else _).
  destruct (rrf_returns semantic keyword (hybrid_search_alpha settings) RRF_K)
    as (fused & Hf & _).
  rewrite Hf.
  apply fused_ids in Hf as (Hnd & _ & Hs).
  eexists _, _. split; [reflexivity|]. split; [|split; [|split; [|split]]].
  - rewrite length_take. unfold fetch_size. lia.
  - rewrite <- firstn_map. by apply firstn_NoDup.
  - by apply Forall_take.
  - unfold _build_citations. by rewrite length_map.
  - unfold _build_citations. rewrite <- list_fmap_compose. done.
Qed.

Lemma dict_add_fresh (scores : list (string * Q)) (id : string) (t : Q) :
  id ∉ map fst scores -> dict_add scores id t = (scores ++ [(id, 0 + t)])%list.
Proof.
  induction scores as [|[key v] rest IH]; simpl; [done|].
  intros Hn. destruct (String.eqb_spec key id) as [->|Hne].
  - exfalso. apply Hn. by left.
  - rewrite IH; [done|]. intros H. apply Hn. by right.
Qed.

Lemma score_semantic_keeps alpha k rank l scores chunk_map (c : Chunk) :
  chunk_id c ∉ map chunk_id l ->
  chunk_map !! chunk_id c = Some c ->
  snd (score_semantic alpha k rank l scores chunk_map) !! chunk_id c = Some c.
Proof.
  revert rank scores chunk_map.
  induction l as [|d l IH]; intros rank scores chunk_map Hc Hm; [done|].
  cbn [score_semantic]. apply IH.
  - intros H. apply Hc. simpl. by right.
  - rewrite lookup_insert_ne; [done|]. intros H. apply Hc. rewrite <- H.
    simpl. by left.
Qed.

Lemma score_semantic_fresh alpha k rank l scores chunk_map :
  NoDup (map chunk_id l) ->
  (forall c, c ∈ l -> chunk_id c ∉ map fst scores) ->
  fst (score_semantic alpha k rank l scores chunk_map)
  = (scores ++ ranking (ranked alpha k rank l))%list
  /\ forall c, c ∈ l ->
       snd (score_semantic alpha k rank l scores chunk_map) !! chunk_id c
       = Some c.
Proof.
  revert rank scores chunk_map.
  induction l as [|c l IH]; intros rank scores chunk_map Hnd Hfresh.
  { simpl. split; [by rewrite app_nil_r|]. by intros c ?%elem_of_nil. }
  simpl in Hnd. apply NoDup_cons in Hnd as [Hc Hnd].
  cbn [score_semantic].
  destruct (IH (S rank)
              (dict_add scores (chunk_id c) (alpha / of_nat (k + rank + 1)))
              (<[chunk_id c := c]> chunk_map) Hnd) as [IH1 IH2].
  { intros c' Hc'. rewrite dict_add_fresh by (apply Hfresh; by left).
    rewrite map_app. simpl. intros [H|H%list_elem_of_singleton]%elem_of_app.
    - apply (Hfresh c'); [by right|done].
    - apply Hc. rewrite <- H. by apply list_elem_of_fmap_2. }
  split.
  - rewrite IH1, dict_add_fresh by (apply Hfresh; by left).
    by rewrite <- app_assoc.
  - intros c' [->|Hc']%elem_of_cons; [|by apply IH2].
    apply score_semantic_keeps; [done|]. by rewrite lookup_insert_eq.
Qed.

Lemma ranked_ids alpha k rank l :
  map chunk_id (ranked alpha k rank l) = map chunk_id l.
Proof.
  revert rank. induction l as [|c l IH]; intros rank; [done|].
  simpl. by rewrite IH.
Qed.

Lemma ranked_contents alpha k rank l :
  map content (ranked alpha k rank l) = map content l.
Proof.
  revert rank. induction l as [|c l IH]; intros rank; [done|].
  simpl. by rewrite IH.
Qed.

Lemma ranking_ranked alpha k rank (c : Chunk) l :
  ranking (ranked alpha k rank (c :: l))
  = (chunk_id c, 0 + alpha / of_nat (k + rank + 1))
    :: ranking (ranked alpha k (S rank) l).
Proof. reflexivity. Qed.

Lemma rank_term_le (alpha : Q) (k rank : nat) :
  0 < alpha ->
  alpha / of_nat (k + S rank + 1) <= alpha / of_nat (k + rank + 1).
Proof.
  intros Ha. pose proof (of_nat_pos (k + rank + 1) ltac:(lia)) as H1.
  pose proof (of_nat_pos (k + S rank + 1) ltac:(lia)) as H2.
  pose proof (of_nat_le (k + rank + 1) (k + S rank + 1) ltac:(lia)) as H3.
  apply Qle_shift_div_l; [done|].
  assert (alpha / of_nat (k + S rank + 1) * of_nat (k + rank + 1)
          == alpha * (of_nat (k + rank + 1) / of_nat (k + S rank + 1))) as ->
    by (field; lra).
  assert (of_nat (k + rank + 1) / of_nat (k + S rank + 1) <= 1).
  { apply Qle_shift_div_r; [done|]. lra. }
  nra.
Qed.

Lemma sorted_desc_ranked alpha k rank l :
  0 < alpha ->
  sorted_desc (ranking (ranked alpha k rank l))
  = ranking (ranked alpha k rank l).
Proof.
  intros Ha. revert rank. induction l as [|c l IH]; intros rank; [done|].
  rewrite ranking_ranked. cbn [sorted_desc foldr].
  fold (sorted_desc (ranking (ranked alpha k (S rank) l))).
  rewrite IH. destruct l as [|d l]; [done|].
  rewrite ranking_ranked. cbn [insert_desc snd].
  destruct (lt_spec (0 + alpha / of_nat (k + rank + 1))
              (0 + alpha / of_nat (k + S rank + 1))) as [Hlt|_]; [|done].
  pose proof (rank_term_le alpha k rank Ha). lra.
Qed.

Lemma keyword_loop_silent (store : VectorStoreBase) terms n f :
  keyword_silent store -> keyword_loop store terms n f [] = [].
Proof.
  intros H. induction terms as [|t terms IH]; [done|]. simpl.
  destruct (H t n f) as [-> | [e ->]]; done.
Qed.

(** X10. When the semantic search returns each chunk at most once and no
    keyword search finds anything - or the index has none -, the fusion
    with a positive weight keeps the order of the semantic search: the
    retrieval returns its first results, as many as the limit allows, the
    one at rank [i] with the fused score [alpha / (61 + i)]. *)
Theorem retrieve_semantic_only (settings : Settings)
    (embeddings : EmbeddingService) (store : VectorStoreBase)
    (query : string) (top_k : nat) (metadata_filter : list (string * string))
    (query_embedding : list Q) (semantic : list Chunk) :
  embed_query embeddings query = Ok query_embedding ->
  search store query_embedding (fetch_size settings top_k * 2) metadata_filter
  = Ok semantic ->
  NoDup (map chunk_id semantic) ->
  is_chroma store = false \/ keyword_silent store ->
  0 < hybrid_search_alpha settings ->
  let chunks :=
    firstn (result_limit settings top_k)
      (ranked (hybrid_search_alpha settings) RRF_K 0 semantic) in
  retrieve settings embeddings store query top_k metadata_filter
  = Ok (chunks, _build_citations chunks)
  /\ map chunk_id chunks
     = firstn (result_limit settings top_k) (map chunk_id semantic)
  /\ map content chunks
     = firstn (result_limit settings top_k) (map content semantic).
Proof.
  intros He Hs Hnd Hkw Ha chunks. split.
  - unfold retrieve. rewrite He. unfold mbind at 1, result_bind at 1.
    fold (fetch_size settings top_k). rewrite Hs.
    unfold mbind at 1, result_bind at 1.
    assert ((if is_chroma store
             then keyword_loop store (firstn 3 (_extract_key_terms query))
                    (fetch_size settings top_k) metadata_filter []
             else []) = []) as ->.
    { destruct Hkw as [->|Hkw]; [done|].
      destruct (is_chroma store); [|done]. by apply keyword_loop_silent. }
    assert (_reciprocal_rank_fusion semantic [] (hybrid_search_alpha settings)
              RRF_K
            = Ok (ranked (hybrid_search_alpha settings) RRF_K 0 semantic))
      as ->; [|done].
    unfold _reciprocal_rank_fusion, rrf_scores.
    destruct (score_semantic_fresh (hybrid_search_alpha settings) RRF_K 0
                semantic [] ∅ Hnd) as [H1 H2].
    { intros c _. apply not_elem_of_nil. }
    destruct (score_semantic _ _ _ semantic [] ∅) as [scores chunk_map].
    simpl in H1, H2. cbn [score_keyword]. subst scores.
    rewrite sorted_desc_ranked by done.
    revert H2. generalize 0%nat at 1 2. clear Hs Hnd chunks.
    induction semantic as [|c l IH]; intros rank H2; [done|].
    rewrite ranking_ranked. cbn [ranked mapM].
    unfold mbind at 1, result_bind at 1.
    rewrite (H2 c) by by left.
    unfold mbind at 1, result_bind at 1.
    rewrite IH; [done|]. intros c' Hc'. apply H2. by right.
  - subst chunks. rewrite <- !firstn_map.
    by rewrite ranked_ids, ranked_contents.
Qed.

Lemma retrieve_semantic_only_witness :
  exists chunks citations,
    retrieve Config.default embeddings_sample semantic_store "revenue" 5
      []
    = Ok (chunks, citations)
    /\ map chunk_id chunks = ["a"; "b"].
Proof.
  destruct (retrieve_semantic_only Config.default embeddings_sample
              semantic_store "revenue" 5 [] [1; 0]
              [chunk_with_id "a"; chunk_with_id "b"] eq_refl eq_refl)
    as (H1 & H2 & _).
  - apply (bool_decide_unpack _). by vm_compute.
  - by left.
  - by vm_compute.
  - eexists _, _. split; [exact H1|exact H2].
Defined.
End Retrieval.

(** ** The runs of the workflow *)

Section Runs.
Import PyNum Schemas LLM Workflow.
Local Open Scope Q_scope.

Variable SYSTEM_PROMPT : string.
Variable user_prompt : string -> list string -> QueryType -> string.
Variable upper : string -> string.
Variable self : QueryOrchestrator.

Local Abbreviation run_node := (run_node SYSTEM_PROMPT user_prompt upper self).
Local Abbreviation run_from := (run_from SYSTEM_PROMPT user_prompt upper self).
Local Abbreviation execute := (execute SYSTEM_PROMPT user_prompt upper self).

Lemma run_from_step (limit : nat) (n : node) (state : WorkflowState)
    (trace : list node) (calls : nat) :
  run_from (S limit) n state trace calls
  = match run_node n state calls with
    | (Raise e, calls') => (Raise e, (trace ++ [n])%list, calls')
    | (Ok state', calls') =>
        match next_node n state' with
        | None => (Ok state', (trace ++ [n])%list, calls')
        | Some n' => run_from limit n' state' (trace ++ [n])%list calls'
        end
    end.
Proof. reflexivity. Qed.

Lemma retrieve_node_calls state calls r calls' :
  run_node retrieve state calls = (r, calls') -> calls' = calls.
Proof.
  simpl. unfold _retrieve_node, mbind, run_bind, lift, mret, run_ret.
  destruct (HybridRetriever.retrieve _ _ _ _ _ _) as [[chunks cits]|e];
    by intros [= _ <-].
Qed.

Lemma retrieve_node_keeps state calls state' calls' :
  run_node retrieve state calls = (Ok state', calls') ->
  include_evaluation state' = include_evaluation state
  /\ generation_attempts state' = generation_attempts state
  /\ evaluation state' = evaluation state
  /\ warnings state' = warnings state
  /\ pii_entities_found state' = pii_entities_found state.
Proof.
  simpl. unfold _retrieve_node, mbind, run_bind, lift, mret, run_ret.
  destruct (HybridRetriever.retrieve _ _ _ _ _ _) as [[chunks cits]|e];
    [|done].
  by intros [= <- _].
Qed.

Lemma generate_node_calls state calls r calls' :
  run_node generate state calls = (r, calls') -> calls' = S calls.
Proof.
  simpl. unfold _generate_node, mbind, run_bind, LLM.generate, mret, run_ret.
  destruct (reply (_llm_client self) calls); by intros [= _ <-].
Qed.

Lemma generate_node_keeps state calls state' calls' :
  run_node generate state calls = (Ok state', calls') ->
  (exists c, reply (_llm_client self) calls = Some c
             /\ response_text state' = text c)
  /\ include_evaluation state' = include_evaluation state
  /\ generation_attempts state' = S (generation_attempts state)
  /\ evaluation state' = evaluation state
  /\ warnings state' = warnings state
  /\ pii_entities_found state' = pii_entities_found state.
Proof.
  simpl. unfold _generate_node, mbind, run_bind, LLM.generate, mret, run_ret.
  destruct (reply (_llm_client self) calls) as [c|]; [|done].
  intros [= <- _]. simpl. split; [by exists c|].
  repeat split. lia.
Qed.

Lemma evaluate_calls settings llm embeddings response_text source_chunks
    query citations messages run_consistency n r n' :
  EvaluationPipeline.evaluate settings llm embeddings response_text
    source_chunks query citations messages run_consistency n = (r, n') ->
  if run_consistency then (S n <= n' <= n + 5)%nat else n' = S n.
Proof.
  unfold EvaluationPipeline.evaluate, mbind, run_bind, mret, run_ret, lift.
  destruct (HallucinationDetector.detect _ _ _ _ _ n) as [[hall|e] n1] eqn:Hd;
    apply detect_calls in Hd as ->.
  2: { intros [= _ <-]. destruct run_consistency; lia. }
  destruct run_consistency; cbn [andb].
  2: { by intros [= _ <-]. }
  destruct (negb _).
  2: { intros [= _ <-]. lia. }
  destruct (ConsistencyScorer.score _ _ _ _ (S n)) as [[cons|e] n2] eqn:Hs;
    apply score_calls in Hs;
    unfold ConsistencyScorer.DEFAULT_NUM_SAMPLES in Hs;
    intros [= _ <-]; lia.
Qed.

Lemma evaluate_node_calls state calls r calls' :
  run_node evaluate state calls = (r, calls') ->
  if (generation_attempts state =? 1)%nat
  then (S calls <= calls' <= calls + 5)%nat
  else calls' = S calls.
Proof.
  simpl. unfold _evaluate_node, mbind, run_bind, mret, run_ret.
  destruct (EvaluationPipeline.evaluate _ _ _ _ _ _ _ _ _ calls)
    as [[ev|e] k] eqn:E; apply evaluate_calls in E; by intros [= _ <-].
Qed.

Lemma evaluate_node_keeps state calls state' calls' :
  run_node evaluate state calls = (Ok state', calls') ->
  (exists e, evaluation state' = Some e
             /\ ((generation_attempts state =? 1)%nat = false ->
                 semantic_consistency_score e = 1.0))
  /\ response_text state' = response_text state
  /\ include_evaluation state' = include_evaluation state
  /\ generation_attempts state' = generation_attempts state
  /\ warnings state' = warnings state
  /\ pii_entities_found state' = pii_entities_found state.
Proof.
  simpl. unfold _evaluate_node, mbind, run_bind, mret, run_ret.
  destruct (EvaluationPipeline.evaluate _ _ _ _ _ _ _ _ _ calls)
    as [[ev|e] k] eqn:E; [|done].
  intros [= <- _]. simpl. split; [|done]. exists ev. split; [done|].
  intros Hrc. rewrite Hrc in E.
  by eapply evaluate_skipped in E; [|left].
Qed.

Lemma guardrails_node_keeps state calls state' calls' :
  run_node guardrails state calls = (Ok state', calls') ->
  calls' = calls
  /\ (warnings state = [] -> pii_entities_found state = 0%nat ->
      guarded self (response_text state) state')
  /\ include_evaluation state' = include_evaluation state
  /\ generation_attempts state' = generation_attempts state
  /\ evaluation state' = evaluation state.
Proof.
  simpl. unfold _guardrails_node, mret, run_ret. intros [= <- <-].
  split; [done|]. split; [|done]. intros Hw Hp. unfold guarded. simpl.
  rewrite Hw, Hp. by destruct (was_redacted _).
Qed.

Lemma run_from_guardrails (limit : nat) (state : WorkflowState)
    (trace : list node) (calls : nat) :
  exists final,
    run_from (S (S limit)) guardrails state trace calls
    = (Ok final, (trace ++ [guardrails; assemble])%list, calls)
    /\ run_node guardrails state calls = (Ok final, calls).
Proof.
  eexists. split; [|reflexivity].
  rewrite run_from_step. cbn [Workflow.run_node].
  unfold _guardrails_node at 1, mret at 1, run_ret at 1.
  cbn [next_node]. rewrite run_from_step. cbn [Workflow.run_node].
  unfold _assemble_node, mret, run_ret. cbn [next_node].
  by rewrite <- app_assoc.
Qed.

Lemma should_regenerate_spent (state : WorkflowState) :
  (MAX_REGENERATION_ATTEMPTS <= generation_attempts state)%nat ->
  _should_regenerate state = continue.
Proof.
  intros H. destruct (_should_regenerate state) eqn:E; [|done].
  apply should_regenerate_iff in E as (e & _ & _ & Hlt). lia.
Qed.

(** Every run of the workflow, in one statement: the calls of the model
    it makes, the nodes it runs, and the state it returns. *)
Lemma execute_run (request : QueryRequest) (calls : nat) :
  let '(r, trace, calls') := execute request calls in
  (calls <= calls'
   <= calls + if req_include_evaluation request then 8 else 1)%nat
  /\ (exists path, path ∈ paths (req_include_evaluation request)
                   /\ trace `prefix_of` path
                   /\ (is_Some (match r with
                                | Ok s => Some s
                                | Raise _ => None
                                end) -> trace = path))
  /\ match r with
     | Raise _ => True
     | Ok final =>
         generation_attempts final = count_occ node_eq_dec trace generate
         /\ (exists c k, (calls <= k < calls')%nat
                         /\ reply (_llm_client self) k = Some c
                         /\ guarded self (text c) final)
         /\ match evaluation final with
            | None => req_include_evaluation request = false
            | Some e =>
                req_include_evaluation request = true
                /\ (generation_attempts final = 2%nat ->
                    semantic_consistency_score e = 1.0)
            end
     end.
Proof.
  unfold Workflow.execute, ainvoke, RECURSION_LIMIT.
  set (s0 := initial_state request).
  assert (include_evaluation s0 = req_include_evaluation request
          /\ generation_attempts s0 = 0%nat /\ evaluation s0 = None
          /\ warnings s0 = [] /\ pii_entities_found s0 = 0%nat)
    as (Hi0 & Ha0 & He0 & Hw0 & Hp0) by done.
  clearbody s0.
  (* retrieve *)
  rewrite run_from_step.
  destruct (run_node retrieve s0 calls) as [[s1|e] k1] eqn:E1;
    pose proof (retrieve_node_calls _ _ _ _ E1) as ->.
  2: { split; [destruct (req_include_evaluation request); lia|].
       split; [|done]. unfold paths.
       destruct (req_include_evaluation request);
         eexists; (split; [by left|]); (split; [|by intros [? [=]]]);
         by eexists. }
  apply retrieve_node_keeps in E1 as (Hi1 & Ha1 & He1 & Hw1 & Hp1).
  rewrite Hi0 in Hi1. rewrite Ha0 in Ha1. rewrite He0 in He1.
  rewrite Hw0 in Hw1. rewrite Hp0 in Hp1. clear s0 Hi0 Ha0 He0 Hw0 Hp0.
  cbn [next_node app].
  (* generate *)
  rewrite run_from_step.
  destruct (run_node generate s1 calls) as [[s2|e] k2] eqn:E2;
    pose proof (generate_node_calls _ _ _ _ E2) as ->.
  2: { split; [destruct (req_include_evaluation request); lia|].
       split; [|done]. unfold paths.
       destruct (req_include_evaluation request);
         eexists; (split; [by left|]); (split; [|by intros [? [=]]]);
         by eexists. }
  apply generate_node_keeps in E2
    as ((c1 & Hc1 & Ht2) & Hi2 & Ha2 & He2 & Hw2 & Hp2).
  rewrite Hi1 in Hi2. rewrite Ha1 in Ha2. rewrite He1 in He2.
  rewrite Hw1 in Hw2. rewrite Hp1 in Hp2. clear s1 Hi1 Ha1 He1 Hw1 Hp1.
  cbn [next_node app]. unfold _should_evaluate. rewrite Hi2.
  destruct (req_include_evaluation request) eqn:Hincl.
  2: { (* no evaluation *)
       destruct (run_from_guardrails 21 s2 [retrieve; generate] (S calls))
         as (final & -> & Eg).
       apply guardrails_node_keeps in Eg as (_ & Hg & _ & Haf & Hef).
       split; [lia|]. split.
       { exists path_skip. split; [by left|]. by split. }
       split; [by rewrite Haf, Ha2|]. split.
       - exists c1, calls. split; [lia|]. split; [done|].
         rewrite <- Ht2. by apply Hg.
       - by rewrite Hef, He2. }
  (* the first evaluation *)
  rewrite run_from_step.
  destruct (run_node evaluate s2 (S calls)) as [[s3|e] k3] eqn:E3;
    pose proof (evaluate_node_calls _ _ _ _ E3) as Hk3;
    rewrite Ha2 in Hk3; cbn [Nat.eqb] in Hk3.
  2: { split; [lia|]. split; [|done]. exists path_once.
       split; [by left|]. split; [|by intros [? [=]]]. by eexists. }
  apply evaluate_node_keeps in E3
    as ((e1 & He3 & _) & Ht3 & Hi3 & Ha3 & Hw3 & Hp3).
  rewrite Ht2 in Ht3. rewrite Hi2 in Hi3. rewrite Ha2 in Ha3.
  rewrite Hw2 in Hw3. rewrite Hp2 in Hp3. clear s2 Ht2 Hi2 Ha2 He2 Hw2 Hp2.
  cbn [next_node app].
  destruct (_should_regenerate s3) eqn:Hregen.
  2: { (* no regeneration *)
       destruct (run_from_guardrails 20 s3 [retrieve; generate; evaluate] k3)
         as (final & -> & Eg).
       apply guardrails_node_keeps in Eg as (_ & Hg & _ & Haf & Hef).
       split; [lia|]. split.
       { exists path_once. split; [by left|]. by split. }
       split; [by rewrite Haf, Ha3|]. split.
       - exists c1, calls. split; [lia|]. split; [done|].
         rewrite <- Ht3. by apply Hg.
       - rewrite Hef, He3. split; [done|]. rewrite Haf, Ha3. lia. }
  (* the second generation *)
  rewrite run_from_step.
  destruct (run_node generate s3 k3) as [[s4|e] k4] eqn:E4;
    pose proof (generate_node_calls _ _ _ _ E4) as ->.
  2: { split; [lia|]. split; [|done]. exists path_twice.
       split; [by right; left|]. split; [|by intros [? [=]]]. by eexists. }
  apply generate_node_keeps in E4
    as ((c2 & Hc2 & Ht4) & Hi4 & Ha4 & He4 & Hw4 & Hp4).
  rewrite Hi3 in Hi4. rewrite Ha3 in Ha4. rewrite He3 in He4.
  rewrite Hw3 in Hw4. rewrite Hp3 in Hp4.
  clear s3 Ht3 Hi3 Ha3 He3 Hw3 Hp3 Hregen.
  cbn [next_node app]. unfold _should_evaluate. rewrite Hi4.
  (* the second evaluation *)
  rewrite run_from_step.
  destruct (run_node evaluate s4 (S k3)) as [[s5|e] k5] eqn:E5;
    pose proof (evaluate_node_calls _ _ _ _ E5) as Hk5;
    rewrite Ha4 in Hk5; cbn [Nat.eqb] in Hk5; subst k5.
  2: { split; [lia|]. split; [|done]. exists path_twice.
       split; [by right; left|]. split; [|by intros [? [=]]]. by eexists. }
  apply evaluate_node_keeps in E5
    as ((e2 & He5 & Hcons) & Ht5 & Hi5 & Ha5 & Hw5 & Hp5).
  rewrite Ha4 in Hcons. specialize (Hcons eq_refl).
  rewrite Ht4 in Ht5. rewrite Hi4 in Hi5. rewrite Ha4 in Ha5.
  rewrite Hw4 in Hw5. rewrite Hp4 in Hp5. clear s4 Ht4 Hi4 Ha4 He4 Hw4 Hp4.
  cbn [next_node app].
  rewrite should_regenerate_spent
    by (rewrite Ha5; unfold MAX_REGENERATION_ATTEMPTS; lia).
  destruct (run_from_guardrails 18 s5
              [retrieve; generate; evaluate; generate; evaluate] (S (S k3)))
    as (final & -> & Eg).
  apply guardrails_node_keeps in Eg as (_ & Hg & _ & Haf & Hef).
  split; [lia|]. split.
  { exists path_twice. split; [by right; left|]. by split. }
  split; [by rewrite Haf, Ha5|]. split.
  - exists c2, k3. split; [lia|]. split; [done|].
    rewrite <- Ht5. by apply Hg.
  - by rewrite Hef, He5.
Qed.

(** X11. The nodes that a run of the workflow goes through are the start of
    one of the complete paths of the graph - with evaluation: retrieve,
    generate, evaluate, then either the guardrails and the assembly, or
    generate and evaluate once more before them; without: retrieve,
    generate, guardrails, assemble - and all of it when the run returns
    a state: no response is returned that did not go through the
    guardrails, and no evaluation runs when none is asked for. *)
Theorem execute_paths (request : QueryRequest) (calls : nat) :
  let '(r, trace, _) := execute request calls in
  exists path,
    path ∈ paths (req_include_evaluation request)
    /\ trace `prefix_of` path
    /\ forall final, r = Ok final -> trace = path.
Proof.
  pose proof (execute_run request calls) as H.
  destruct (execute request calls) as [[r trace] calls'].
  destruct H as (_ & (path & Hin & Hpre & Hfull) & _).
  exists path. split; [done|]. split; [done|].
  intros final ->. apply Hfull. by eexists.
Qed.

(** X12. A run of the workflow calls the model at most 8 times - one
    generation, its evaluation with the consistency check (at most 5
    calls), and one regeneration with its evaluation (1 call) - and at
    most once when no evaluation is asked for; also when it raises. *)
Theorem execute_calls_bound (request : QueryRequest) (calls : nat) :
  let '(_, _, calls') := execute request calls in
  (calls <= calls'
   <= calls + if req_include_evaluation request then 8 else 1)%nat.
Proof.
  pose proof (execute_run request calls) as H.
  destruct (execute request calls) as [[r trace] calls'].
  by destruct H as (H & _).
Qed.

(** X13. The consistency check runs on the first attempt only: the
    evaluation that a run returns after a regeneration has the
    consistency score 1.0, whatever the model answered. *)
Theorem regenerated_consistency (request : QueryRequest) (calls : nat)
    (final : WorkflowState) :
  fst (fst (execute request calls)) = Ok final ->
  generation_attempts final = 2%nat ->
  exists e, evaluation final = Some e /\ semantic_consistency_score e = 1.0.
Proof.
  pose proof (execute_run request calls) as H.
  destruct (execute request calls) as [[r trace] calls'].
  simpl. intros -> Ha.
  destruct H as (_ & (path & Hin & _ & Hfull) & Hcount & _ & He).
  destruct (evaluation final) as [e|].
  - exists e. split; [done|]. by apply He.
  - exfalso. rewrite He in Hin. apply list_elem_of_singleton in Hin.
    rewrite Hfull, Hin in Hcount by by eexists. rewrite Ha in Hcount.
    by vm_compute in Hcount.
Qed.

(** X14. The response that a run returns is the output of the content filter
    on the last generated text, redacted when the redactor found
    something; the attempts it counts are the generations that ran, one
    or two. *)
Theorem response_guarded (request : QueryRequest) (calls : nat)
    (final : WorkflowState) :
  fst (fst (execute request calls)) = Ok final ->
  (exists c k, reply (_llm_client self) k = Some c
               /\ guarded self (text c) final)
  /\ generation_attempts final
     = count_occ node_eq_dec (snd (fst (execute request calls))) generate
  /\ (1 <= generation_attempts final <= 2)%nat.
Proof.
  pose proof (execute_run request calls) as H.
  destruct (execute request calls) as [[r trace] calls'].
  simpl. intros ->.
  destruct H as (_ & (path & Hin & _ & Hfull) & Hcount & (c & k & _ & Hc & Hg)
                 & _).
  split; [by exists c, k|]. split; [done|].
  rewrite Hcount, Hfull by by eexists.
  unfold paths in Hin. destruct (req_include_evaluation request).
  - apply elem_of_cons in Hin as [->|Hin]; [vm_compute; lia|].
    apply list_elem_of_singleton in Hin as ->. vm_compute. lia.
  - apply list_elem_of_singleton in Hin as ->. vm_compute. lia.
Qed.
End Runs.

Section RunsSample.
Import PyNum Schemas LLM Workflow.
Local Open Scope Q_scope.

Lemma run_sample_returns :
  { final : WorkflowState
  | fst (fst (execute "system" (fun _ _ _ => "user") (fun s => s)
                orchestrator_sample request_sample 0%nat)) = Ok final
    /\ generation_attempts final = 2%nat }.
Proof. eexists. vm_compute. split; reflexivity. Defined.

Lemma regenerated_consistency_witness :
  exists final e,
    fst (fst (execute "system" (fun _ _ _ => "user") (fun s => s)
                orchestrator_sample request_sample 0%nat)) = Ok final
    /\ evaluation final = Some e /\ semantic_consistency_score e = 1.0.
Proof.
  destruct run_sample_returns as (final & Hf & Ha).
  pose proof (regenerated_consistency "system" (fun _ _ _ => "user")
                (fun s => s) orchestrator_sample request_sample 0%nat final
                Hf Ha) as (e & He & Hc).
  exists final, e. split; [exact Hf|]. split; [exact He|exact Hc].
Defined.

Lemma response_guarded_witness :
  exists final,
    fst (fst (execute "system" (fun _ _ _ => "user") (fun s => s)
                orchestrator_sample request_sample 0%nat)) = Ok final
    /\ (1 <= generation_attempts final <= 2)%nat.
Proof.
  destruct run_sample_returns as (final & Hf & Ha).
  pose proof (response_guarded "system" (fun _ _ _ => "user")
                (fun s => s) orchestrator_sample request_sample 0%nat final
                Hf) as (_ & _ & H).
  exists final. split; [exact Hf|exact H].
Defined.
End RunsSample.

(** ** What a pattern matches *)

Section Regex.
Import PyStr PyText Re.

Lemma append_cons (x : ascii) (a b : string) :
  (String x a ++ b)%string = String x (a ++ b).
Proof. reflexivity. Qed.

Lemma append_assoc (a b c : string) : ((a ++ b) ++ c = a ++ (b ++ c))%string.
Proof.
  induction a as [|x a IH]; [done|]. by rewrite !append_cons, IH.
Qed.

Lemma append_nil_r (a : string) : (a ++ "")%string = a.
Proof. induction a as [|x a IH]; [done|]. by rewrite append_cons, IH. Qed.

(** The matcher is sound: what it hands to its continuation is what is
    left after a text that the pattern matches. *)
Lemma rmatch_derives (r : regex) :
  forall (A : Type) prev s (k : option ascii -> string -> option A) x,
    rmatch r prev s k = Some x ->
    exists m rest prev',
      s = (m ++ rest)%string /\ derives r prev m rest prev'
      /\ k prev' rest = Some x.
Proof.
  induction r as [|p|r1 IH1 r2 IH2|r1 IH1 r2 IH2|r IH|];
    intros A prev s k x H; simpl in H.
  - exists "", s, prev. split; [done|]. split; [constructor|done].
  - destruct s as [|c s']; [done|]. destruct (p c) eqn:Ep; [|done].
    exists (String c ""), s', (Some c). split; [done|].
    split; [by constructor|done].
  - apply IH1 in H as (m1 & rest1 & p1 & -> & Hd1 & H).
    apply IH2 in H as (m2 & rest & p2 & -> & Hd2 & H).
    exists (m1 ++ m2)%string, rest, p2. split; [by rewrite append_assoc|].
    split; [by econstructor|done].
  - destruct (rmatch r1 prev s k) as [y|] eqn:E1.
    + injection H as ->. apply IH1 in E1 as (m & rest & p' & -> & Hd & Hk).
      exists m, rest, p'. split; [done|]. split; [by apply derives_alt_l|done].
    + apply IH2 in H as (m & rest & p' & -> & Hd & Hk).
      exists m, rest, p'. split; [done|]. split; [by apply derives_alt_r|done].
  - revert H. generalize (String.length s) at 1. intros fuel.
    revert prev s x. induction fuel as [|fuel IHf]; intros prev s x H.
    + exists "", s, prev. split; [done|]. split; [constructor|done].
    + match type of H with
      | match ?t with _ => _ end = _ => destruct t as [y|] eqn:E
      end.
      * injection H as ->.
        apply IH in E as (m1 & rest1 & p1 & -> & Hd1 & E).
        destruct (_ <? _)%nat; [|done].
        apply IHf in E as (m2 & rest & p2 & -> & Hd2 & E).
        exists (m1 ++ m2)%string, rest, p2.
        split; [by rewrite append_assoc|]. split; [by econstructor|done].
      * exists "", s, prev. split; [done|]. split; [constructor|done].
  - destruct (xorb _ _) eqn:E; [|done].
    exists "", s, prev. split; [done|]. split; [by constructor|done].
Qed.

Lemma match_at_derives (r : regex) prev s rest :
  match_at r prev s = Some rest ->
  exists m prev', s = (m ++ rest)%string /\ derives r prev m rest prev'.
Proof.
  unfold match_at. intros H.
  apply rmatch_derives in H as (m & rest' & p' & -> & Hd & [= <-]).
  by exists m, p'.
Qed.

Lemma length_app_string (a b : string) :
  String.length (a ++ b) = (String.length a + String.length b)%nat.
Proof.
  induction a as [|x a IH]; [done|]. rewrite append_cons. simpl. by rewrite IH.
Qed.

Lemma substring_prefix (m rest : string) :
  substring 0 (String.length m) (m ++ rest) = m.
Proof.
  induction m as [|x m IH]; [by destruct rest|].
  rewrite append_cons. simpl. by rewrite IH.
Qed.

Lemma matched_prefix (m rest : string) :
  substring 0 (String.length (m ++ rest) - String.length rest) (m ++ rest)
  = m.
Proof.
  rewrite length_app_string.
  replace (String.length m + String.length rest - String.length rest)%nat
    with (String.length m) by lia.
  apply substring_prefix.
Qed.

(** Every match that a scan reports is a text that the pattern matches,
    and it stands in the scanned text. *)
Lemma finditer_derives (fuel : nat) (r : regex) prev s m :
  m ∈ Re.finditer_go fuel r prev s ->
  (exists p rest p', derives r p m rest p') /\ exists i, occurs_at m s i.
Proof.
  revert prev s. induction fuel as [|fuel IH]; intros prev s; simpl.
  { by intros ?%elem_of_nil. }
  assert (forall c s' p, m ∈ Re.finditer_go fuel r p s' ->
            (exists p0 rest p', derives r p0 m rest p')
            /\ exists i, occurs_at m (String c s') i) as Hshift.
  { intros c s' p [Hd [i (b & a & -> & Hi)]]%IH. split; [done|].
    exists (S i), (String c b), a. split; [done|]. simpl. by rewrite Hi. }
  destruct (match_at r prev s) as [rest|] eqn:E.
  2: { destruct s as [|c s']; [by intros ?%elem_of_nil|]. apply Hshift. }
  apply match_at_derives in E as (m0 & p' & -> & Hd).
  rewrite matched_prefix.
  assert ((exists p rest p', derives r p m0 rest p')
          /\ exists i, occurs_at m0 (m0 ++ rest) i) as Hhere.
  { split; [by eexists _, _, _|]. by exists 0%nat, "", rest. }
  rewrite length_app_string.
  replace (String.length m0 + String.length rest - String.length rest)%nat
    with (String.length m0) by lia.
  destruct m0 as [|c0 m0].
  - simpl. destruct rest as [|c s'].
    + by intros ->%list_elem_of_singleton.
    + intros [->|H]%elem_of_cons; [done|]. by apply (Hshift c s' (Some c)).
  - cbn [String.length]. intros [->|H]%elem_of_cons; [done|].
    apply IH in H as [Hd' [i (b & a & -> & Hi)]]. split; [done|].
    exists (String.length (String c0 m0) + i)%nat, (String c0 m0 ++ b)%string, a.
    split; [by rewrite !append_assoc|].
    by rewrite length_app_string, Hi.
Qed.
End Regex.

(** ** The scan with positions *)

Section Spans.
Import PyStr PyText Re ReSpan.

Lemma append_empty (a b : string) : (a ++ b)%string = "" -> a = "" /\ b = "".
Proof. destruct a; [done|]. by rewrite append_cons. Qed.

Lemma derives_nullable r prev m rest prev' :
  derives r prev m rest prev' -> m = "" -> nullable r = true.
Proof.
  induction 1 as [| | r1 r2 prev m1 m2 rest p1 p2 _ IH1 _ IH2
                  | r1 r2 prev m rest p' _ IH | r1 r2 prev m rest p' _ IH
                  | | |]; intros Hm; simpl; try done.
  - apply append_empty in Hm as [-> ->]. by rewrite IH1, IH2.
  - by rewrite IH.
  - rewrite IH by done. apply orb_true_r.
Qed.

Lemma ordered_from_weaken (pos pos' : nat) (l : list span) :
  (pos' <= pos)%nat -> ordered_from pos l -> ordered_from pos' l.
Proof.
  destruct l as [|sp l]; [done|]. simpl. intros ? (? & ? & ?).
  split; [lia|]. by split.
Qed.

(** What a scan reports: spans in order, each with the text that stands
    between its two positions, a text that the pattern matches. *)
Lemma finditer_spans (fuel : nat) (r : regex) prev s (pos : nat) :
  ordered_from pos (ReSpan.finditer_go fuel r prev s pos)
  /\ forall sp, sp ∈ ReSpan.finditer_go fuel r prev s pos ->
       (pos <= span_start sp)%nat
       /\ span_end sp = (span_start sp + String.length (span_text sp))%nat
       /\ occurs_at (span_text sp) s (span_start sp - pos)
       /\ exists p rest p', derives r p (span_text sp) rest p'.
Proof.
  revert prev s pos. induction fuel as [|fuel IH]; intros prev s pos; simpl.
  { split; [done|]. by intros sp ?%elem_of_nil. }
  assert (forall c s' p,
            ordered_from pos (ReSpan.finditer_go fuel r p s' (S pos))
            /\ forall sp, sp ∈ ReSpan.finditer_go fuel r p s' (S pos) ->
                 (pos <= span_start sp)%nat
                 /\ span_end sp
                    = (span_start sp + String.length (span_text sp))%nat
                 /\ occurs_at (span_text sp) (String c s')
                      (span_start sp - pos)
                 /\ exists p0 rest p', derives r p0 (span_text sp) rest p')
    as Hshift.
  { intros c s' p. destruct (IH p s' (S pos)) as [Ho Hs]. split.
    - eapply ordered_from_weaken; [|exact Ho]. lia.
    - intros sp (Hle & He & (b & a & -> & Hi) & Hd)%Hs.
      split; [lia|]. split; [done|]. split; [|done].
      exists (String c b), a. split; [done|]. simpl. rewrite Hi. lia. }
  destruct (match_at r prev s) as [rest|] eqn:E.
  2: { destruct s as [|c s']; [|apply Hshift].
       split; [done|]. by intros sp ?%elem_of_nil. }
  apply match_at_derives in E as (m0 & p' & -> & Hd).
  rewrite matched_prefix, length_app_string.
  replace (String.length m0 + String.length rest - String.length rest)%nat
    with (String.length m0) by lia.
  set (found := {| span_start := pos;
                   span_end := (pos + String.length m0)%nat;
                   span_text := m0 |}).
  assert ((pos <= span_start found)%nat
          /\ span_end found
             = (span_start found + String.length (span_text found))%nat
          /\ occurs_at (span_text found) (m0 ++ rest)
               (span_start found - pos)
          /\ exists p rest0 p'0, derives r p (span_text found) rest0 p'0)
    as Hfound.
  { simpl. split; [done|]. split; [done|]. split; [|by eexists _, _, _].
    exists "", rest. split; [done|]. simpl. lia. }
  destruct m0 as [|c0 m0].
  - cbn [String.length]. destruct rest as [|c s'].
    + split; [simpl; lia|]. by intros sp ->%list_elem_of_singleton.
    + destruct (Hshift c s' (Some c)) as [Ho Hs]. split.
      * simpl. split; [done|]. split; [lia|].
        destruct (IH (Some c) s' (S pos)) as [Ho' _].
        eapply ordered_from_weaken; [|exact Ho']. lia.
      * intros sp [->|H]%elem_of_cons; [done|]. by apply Hs.
  - cbn [String.length].
    destruct (IH (last_char (String c0 m0)) rest
                (pos + S (String.length m0))%nat) as [Ho Hs].
    split.
    + simpl. split; [done|]. split; [lia|done].
    + intros sp [->|H]%elem_of_cons; [done|].
      apply Hs in H as (Hle & He & (b & a & -> & Hi) & Hd').
      split; [lia|]. split; [done|]. split; [|done].
      exists (String c0 m0 ++ b)%string, a.
      split; [by rewrite !append_assoc|].
      rewrite length_app_string, Hi. simpl. lia.
Qed.

Lemma substring_occurs (m s : string) (i : nat) :
  occurs_at m s i -> substring i (String.length m) s = m.
Proof.
  intros (b & a & -> & <-). induction b as [|c b IH].
  - apply (substring_prefix m a).
  - rewrite append_cons. exact IH.
Qed.

Lemma occurs_length (m s : string) (i : nat) :
  occurs_at m s i -> (i + String.length m <= String.length s)%nat.
Proof.
  intros (b & a & -> & <-). rewrite !length_app_string. lia.
Qed.
End Spans.

(** ** The redaction of PII *)

Section Redaction.
Import PyStr PyText Re ReSpan PIIRedactor.
Local Open Scope Q_scope.

Lemma detect_elem (text : string) (e : PIIEntity) :
  e ∈ _detect_with_regex text ->
  exists pattern sp,
    (entity_type e, pattern) ∈ PII_PATTERNS
    /\ sp ∈ finditer pattern text
    /\ e = entity_of (entity_type e) sp.
Proof.
  unfold _detect_with_regex. intros H.
  apply list_elem_of_In, in_flat_map in H as ([t pattern] & Hp & H).
  apply list_elem_of_In in Hp.
  apply list_elem_of_In, list_elem_of_fmap in H as (sp & -> & Hsp).
  by exists pattern, sp.
Qed.

Lemma redact_regex_entities (text : string) :
  let r := _redact_with_regex text in
  original_text r = text
  /\ entity_count r = length (entities_found r)
  /\ (was_redacted r = true <-> entities_found r <> [])
  /\ (was_redacted r = false -> redacted_text r = text)
  /\ forall e, e ∈ entities_found r ->
       (start e < end_ e <= String.length text)%nat
       /\ PIIRedactor.text e = substring (start e) (end_ e - start e) text
       /\ entity_type e ∈ [SSN; CREDIT_CARD; ACCOUNT_NUMBER; ROUTING_NUMBER;
                            EMAIL; PHONE]
       /\ confidence e == 0.9.
Proof.
  intros r.
  assert (entities_found r = _detect_with_regex text) as Hfound.
  { unfold r, _redact_with_regex. by destruct (_detect_with_regex text). }
  split; [|split; [|split; [|split]]].
  - unfold r, _redact_with_regex. by destruct (_detect_with_regex text).
  - unfold r, _redact_with_regex. by destruct (_detect_with_regex text).
  - unfold r, _redact_with_regex. by destruct (_detect_with_regex text).
  - unfold r, _redact_with_regex. by destruct (_detect_with_regex text).
  - rewrite Hfound. intros e (pattern & sp & Hp & Hsp & ->)%detect_elem.
    unfold finditer in Hsp.
    destruct (finditer_spans (S (String.length text)) pattern None text 0)
      as [_ Hs].
    apply Hs in Hsp as (_ & He & Ho & (p & rest & p' & Hd)).
    rewrite Nat.sub_0_r in Ho. cbn [entity_of start end_ PIIRedactor.text
      entity_type confidence] in *.
    assert (nullable pattern = false) as Hnull.
    { repeat (apply elem_of_cons in Hp as [[= _ ->]|Hp]; [done|]).
      by apply elem_of_nil in Hp. }
    assert (span_text sp <> "") as Hne.
    { intros Hm. apply (derives_nullable _ _ _ _ _ Hd) in Hm. congruence. }
    pose proof (occurs_length _ _ _ Ho) as Hlen.
    split; [|split; [|split; [|done]]].
    + destruct (span_text sp); [done|]. simpl in *. lia.
    + replace (span_end sp - span_start sp)%nat
        with (String.length (span_text sp)) by lia.
      symmetry. by apply substring_occurs.
    + repeat (apply elem_of_cons in Hp as [[= -> _]|Hp]; [set_solver|]).
      by apply elem_of_nil in Hp.
Qed.

(** What the workflow reads of a redaction. *)
Lemma redact_regex_view (self : PIIRedactor) (text : string) :
  let r := redact self text in
  (if was_redacted r then entity_count r else 0%nat)
  = length (detect_only self text)
  /\ (if was_redacted r then redacted_text r else text) = redacted_text r.
Proof.
  unfold redact, detect_only, _redact_with_regex.
  destruct (_enabled self); cbn [negb]; [|done].
  by destruct (_detect_with_regex text).
Qed.

(** X15. The redactor reports what it did: the entities are those that
    [detect_only] lists, the count is their number, the text is touched
    exactly when there is one, and every entity is a non-empty stretch of
    the text - of one of the six kinds that have a pattern - given with
    its two positions and the characters between them. *)
Theorem redact_entities (self : PIIRedactor) (text : string) :
  let r := redact self text in
  original_text r = text
  /\ entities_found r = detect_only self text
  /\ entity_count r = length (entities_found r)
  /\ (was_redacted r = true <-> entities_found r <> [])
  /\ (was_redacted r = false -> redacted_text r = text)
  /\ forall e, e ∈ entities_found r ->
       (start e < end_ e <= String.length text)%nat
       /\ PIIRedactor.text e = substring (start e) (end_ e - start e) text
       /\ entity_type e ∈ [SSN; CREDIT_CARD; ACCOUNT_NUMBER; ROUTING_NUMBER;
                            EMAIL; PHONE]
       /\ confidence e == 0.9.
Proof.
  unfold redact, detect_only. destruct (_enabled self); cbn [negb].
  - pose proof (redact_regex_entities text) as (H1 & H2 & H3 & H4 & H5).
    cbv zeta. split; [done|]. split; [|done].
    unfold _redact_with_regex. by destruct (_detect_with_regex text).
  - cbv zeta. cbn [original_text entities_found entity_count was_redacted
                     redacted_text length].
    split; [done|]. split; [done|]. split; [done|].
    split; [by split|]. split; [done|]. by intros e ?%elem_of_nil.
Qed.

Lemma slice_to_app (n : nat) (a b : string) :
  (n <= String.length a)%nat -> slice_to n (a ++ b) = slice_to n a.
Proof.
  unfold slice_to. revert a. induction n as [|n IH]; intros a Hn.
  - by destruct a, b.
  - destruct a as [|c a]; [simpl in Hn; lia|].
    rewrite append_cons. simpl. rewrite IH; [done|]. simpl in Hn. lia.
Qed.

Lemma slice_to_slice_to (n b : nat) (t : string) :
  (n <= b)%nat -> slice_to n (slice_to b t) = slice_to n t.
Proof.
  unfold slice_to. revert b t. induction n as [|n IH]; intros b t Hn.
  - by destruct (substring 0 b t), t.
  - destruct b as [|b]; [lia|]. destruct t as [|c t]; [done|].
    simpl. rewrite IH; [done|lia].
Qed.

Lemma slice_from_app (n : nat) (a tail : string) :
  (n <= String.length a)%nat ->
  slice_from n (a ++ tail) = (slice_from n a ++ tail)%string.
Proof.
  revert a. induction n as [|n IH]; intros a Hn; [done|].
  destruct a as [|c a]; [simpl in Hn; lia|].
  rewrite append_cons. simpl. apply IH. simpl in Hn. lia.
Qed.

Lemma slice_from_slice_to (n b : nat) (t : string) :
  (n <= b)%nat -> slice_from n (slice_to b t) = substring n (b - n) t.
Proof.
  unfold slice_to. revert b t. induction n as [|n IH]; intros b t Hn.
  - by rewrite Nat.sub_0_r.
  - destruct b as [|b]; [lia|]. destruct t as [|c t]; [done|].
    simpl. apply IH. lia.
Qed.

Lemma length_slice_to_le (n : nat) (t : string) :
  (n <= String.length t)%nat -> String.length (slice_to n t) = n.
Proof.
  unfold slice_to. revert t. induction n as [|n IH]; intros t Hn.
  - by destruct t.
  - destruct t as [|c t]; [simpl in Hn; lia|]. simpl. rewrite IH; [done|].
    simpl in Hn. lia.
Qed.

Lemma rebuild_snoc (text : string) (pos : nat) (asc : list PIIEntity)
    (e : PIIEntity) (bound : nat) :
  rebuild text pos (asc ++ [e]) bound
  = (rebuild text pos asc (start e)
     ++ REDACTION_MARKERS (entity_type e)
     ++ substring (end_ e) (bound - end_ e) text)%string.
Proof.
  revert pos. induction asc as [|d asc IH]; intros pos; simpl; [done|].
  by rewrite IH, !append_assoc.
Qed.

Lemma splice_all (text : string) (l : list PIIEntity) (bound : nat)
    (tail : string) :
  separated l bound -> (bound <= String.length text)%nat ->
  fold_left splice l (slice_to bound text ++ tail)%string
  = (rebuild text 0 (List.rev l) bound ++ tail)%string.
Proof.
  revert bound tail. induction l as [|e l IH]; intros bound tail Hsep Hb.
  - simpl. by rewrite Nat.sub_0_r.
  - destruct Hsep as (Hse & Heb & Hsep). cbn [fold_left List.rev].
    assert (splice (slice_to bound text ++ tail) e
            = (slice_to (start e) text
               ++ REDACTION_MARKERS (entity_type e)
               ++ substring (end_ e) (bound - end_ e) text ++ tail)%string)
      as ->.
    { unfold splice.
      rewrite slice_to_app by (rewrite length_slice_to_le; lia).
      rewrite slice_to_slice_to by lia.
      rewrite slice_from_app by (rewrite length_slice_to_le; lia).
      by rewrite slice_from_slice_to by lia. }
    rewrite IH by (done || lia).
    by rewrite rebuild_snoc, !append_assoc.
Qed.

Lemma slice_to_all_text (text : string) :
  slice_to (String.length text) text = text.
Proof.
  unfold slice_to. induction text as [|c t IH]; [done|]. simpl.
  by rewrite IH.
Qed.

Lemma redact_regex_disjoint (text : string) :
  let r := _redact_with_regex text in
  let entities := sorted_by_start_desc (entities_found r) in
  separated entities (String.length text) ->
  redacted_text r = rebuild text 0 (List.rev entities) (String.length text).
Proof.
  intros r entities Hsep. subst r entities. unfold _redact_with_regex in *.
  destruct (_detect_with_regex text) as [|e l] eqn:E.
  { simpl. by rewrite Nat.sub_0_r, slice_to_all_text. }
  cbn [redacted_text entities_found] in *.
  pose proof (splice_all text _ (String.length text) "" Hsep (le_n _)) as H.
  rewrite slice_to_all_text, !append_nil_r in H. exact H.
Qed.

(** X16. When the entities found lie apart, the redacted text is the text
    with each entity replaced by its marker and everything else kept; two
    entities that overlap are not covered. *)
Theorem redact_disjoint (self : PIIRedactor) (text : string) :
  separated (sorted_by_start_desc (entities_found (redact self text)))
    (String.length text) ->
  redacted_text (redact self text)
  = rebuild text 0
      (List.rev (sorted_by_start_desc (entities_found (redact self text))))
      (String.length text).
Proof.
  unfold redact. destruct (_enabled self); cbn [negb].
  - apply redact_regex_disjoint.
  - intros _. simpl. by rewrite Nat.sub_0_r, slice_to_all_text.
Qed.

Lemma redact_disjoint_witness :
  redacted_text
    (redact {| _enabled := true |}
       "Employee 123-45-6789 can be reached at john@example.com.")
  = "Employee [SSN_REDACTED] can be reached at [EMAIL_REDACTED].".
Proof.
  rewrite (redact_disjoint {| _enabled := true |}
             "Employee 123-45-6789 can be reached at john@example.com.").
  - vm_compute. reflexivity.
  - vm_compute. repeat split; lia.
Defined.
End Redaction.

(** ** Occurrences of a text, and [str.replace] *)

Section Occurrences.
Import PyStr PyText.

Lemma prefix_nil (s : string) : String.prefix "" s = true.
Proof. by destruct s. Qed.

Lemma prefix_cons (c d : ascii) (x s : string) :
  String.prefix (String c x) (String d s)
  = Ascii.eqb c d && String.prefix x s.
Proof.
  simpl. destruct (ascii_dec c d) as [->|Hne].
  - by rewrite Ascii.eqb_refl.
  - apply Ascii.eqb_neq in Hne. by rewrite Hne.
Qed.

Lemma prefix_spec (x s : string) :
  String.prefix x s = true <-> exists b, s = (x ++ b)%string.
Proof.
  revert s. induction x as [|c x IH]; intros s.
  - rewrite prefix_nil. split; [|done]. intros _. by exists s.
  - destruct s as [|d s].
    + split; [done|]. by intros [b [=]].
    + rewrite prefix_cons, andb_true_iff, IH. split.
      * intros [->%Ascii.eqb_eq [b ->]]. by exists b.
      * intros [b Hb]. rewrite append_cons in Hb. injection Hb as -> ->.
        split; [apply Ascii.eqb_refl|by exists b].
Qed.

Lemma contains_nil (x : string) : contains x "" = true <-> x = "".
Proof. destruct x; simpl; split; done. Qed.

Lemma contains_cons (x : string) (c : ascii) (s : string) :
  contains x (String c s)
  = String.prefix x (String c s) || contains x s.
Proof. reflexivity. Qed.

Lemma contains_spec (x s : string) :
  contains x s = true <-> exists a b, s = (a ++ x ++ b)%string.
Proof.
  induction s as [|c s IH].
  - rewrite contains_nil. split.
    + intros ->. by exists "", "".
    + intros (a & b & H). symmetry in H.
      apply append_empty in H as [_ H]. by apply append_empty in H as [? _].
  - rewrite contains_cons, orb_true_iff, prefix_spec, IH. split.
    + intros [[b ->]|(a & b & ->)]; [by exists "", b|].
      by exists (String c a), b.
    + intros ([|d a] & b & H).
      * left. by exists b.
      * right. rewrite append_cons in H. injection H as -> ->.
        by exists a, b.
Qed.

Lemma contains_app_l (x a b : string) :
  contains x a = true -> contains x (a ++ b) = true.
Proof.
  rewrite !contains_spec. intros (u & v & ->). exists u, (v ++ b)%string.
  by rewrite !append_assoc.
Qed.

Lemma contains_app_r (x a b : string) :
  contains x b = true -> contains x (a ++ b) = true.
Proof.
  rewrite !contains_spec. intros (u & v & ->). exists (a ++ u)%string, v.
  by rewrite !append_assoc.
Qed.

Lemma contains_trans (w m s : string) :
  contains w m = true -> contains m s = true -> contains w s = true.
Proof.
  rewrite !contains_spec. intros (a & b & ->) (u & v & ->).
  exists (u ++ a)%string, (b ++ v)%string. by rewrite !append_assoc.
Qed.

Lemma lower_app (a b : string) : lower (a ++ b) = (lower a ++ lower b)%string.
Proof.
  induction a as [|c a IH]; [done|]. rewrite append_cons. simpl.
  by rewrite IH.
Qed.

Lemma contains_lower (m s : string) :
  contains m s = true -> contains (lower m) (lower s) = true.
Proof.
  rewrite !contains_spec. intros (a & b & ->). exists (lower a), (lower b).
  by rewrite !lower_app.
Qed.

(** A text that has no [d] does not reach over a [d]. *)
Lemma prefix_before (d : ascii) (x u b : string) :
  lacks d x = true ->
  String.prefix x (u ++ String d b) = true -> String.prefix x u = true.
Proof.
  revert u. induction x as [|c x IH]; intros u Hl H; [apply prefix_nil|].
  simpl in Hl. apply andb_true_iff in Hl as [Hc Hl].
  destruct u as [|e u].
  - change ("" ++ String d b)%string with (String d b) in H.
    rewrite prefix_cons in H. apply andb_true_iff in H as [H _].
    by rewrite H in Hc.
  - rewrite append_cons, prefix_cons in H. rewrite prefix_cons.
    apply andb_true_iff in H as [-> H]. simpl. by apply IH.
Qed.

Lemma contains_apart (d : ascii) (x a b : string) :
  lacks d x = true ->
  contains x (a ++ String d b) = true ->
  contains x a = true \/ contains x b = true.
Proof.
  intros Hl. induction a as [|c a IH].
  - change ("" ++ String d b)%string with (String d b).
    rewrite contains_cons, orb_true_iff. intros [H|H]; [|by right].
    left. destruct x as [|e x]; [done|].
    rewrite prefix_cons in H. simpl in Hl.
    apply andb_true_iff in H as [H _]. by rewrite H in Hl.
  - rewrite append_cons, !contains_cons, !orb_true_iff.
    intros [H|H].
    + left. left. rewrite <- append_cons in H.
      by apply (prefix_before d x (String c a) b).
    + destruct (IH H) as [?|?]; auto.
Qed.

(** A text that does not end with [d] does not end on a final [d]. *)
Lemma prefix_not_last (d : ascii) (x' : string) (c : ascii) (u : string) :
  c <> d ->
  String.prefix (x' ++ String c "") (u ++ String d "") = true ->
  String.prefix (x' ++ String c "") u = true.
Proof.
  intros Hne. revert u. induction x' as [|e x' IH]; intros u H.
  - change ("" ++ String c "")%string with (String c "") in *.
    destruct u as [|f u].
    + change ("" ++ String d "")%string with (String d "") in H.
      rewrite prefix_cons in H. apply andb_true_iff in H as [H%Ascii.eqb_eq _].
      done.
    + rewrite append_cons, prefix_cons in H. rewrite prefix_cons.
      apply andb_true_iff in H as [-> _]. by rewrite prefix_nil.
  - rewrite append_cons in *. destruct u as [|f u].
    + change ("" ++ String d "")%string with (String d "") in H.
      rewrite prefix_cons in H. apply andb_true_iff in H as [_ H].
      by destruct x'.
    + rewrite append_cons, prefix_cons in H. rewrite prefix_cons.
      apply andb_true_iff in H as [-> H]. simpl. by apply IH.
Qed.

Lemma contains_not_last (d : ascii) (x' : string) (c : ascii) (a : string) :
  c <> d ->
  contains (x' ++ String c "") (a ++ String d "") = true ->
  contains (x' ++ String c "") a = true.
Proof.
  intros Hne. induction a as [|e a IH].
  - change ("" ++ String d "")%string with (String d "").
    rewrite contains_cons, orb_true_iff. intros [H|H].
    + apply (prefix_not_last d x' c "" Hne) in H. by destruct x'.
    + apply contains_nil in H. by destruct x'.
  - rewrite append_cons, !contains_cons, !orb_true_iff. intros [H|H].
    + left. rewrite <- append_cons in H. by apply prefix_not_last in H.
    + right. by apply IH.
Qed.

(** *** [str.replace] *)

Lemma replace_go_skip (old new a rest : string) :
  replace_go old new (String.length a) (a ++ rest)
  = replace_go old new 0 rest.
Proof. induction a as [|c a IH]; [done|]. rewrite append_cons. exact IH. Qed.

Lemma replace_go_found (old new rest : string) :
  old <> "" ->
  replace_go old new 0 (old ++ rest)
  = (new ++ replace_go old new 0 rest)%string.
Proof.
  intros Hne. destruct old as [|c old]; [done|].
  rewrite append_cons. cbn [replace_go].
  assert (String.prefix (String c old) (String c (old ++ rest)) = true) as ->.
  { rewrite <- append_cons. apply prefix_spec. by exists rest. }
  replace (String.length (String c old) - 1)%nat with (String.length old)
    by (simpl; lia).
  by rewrite replace_go_skip.
Qed.

Lemma replace_go_pass (old new : string) (c : ascii) (s : string) :
  String.prefix old (String c s) = false ->
  replace_go old new 0 (String c s) = String c (replace_go old new 0 s).
Proof. intros H. cbn [replace_go]. by rewrite H. Qed.

(** The cases of a replacement, by the length of the text. *)
Lemma replace_go_ind (old new : string) (P : string -> string -> Prop) :
  old <> "" ->
  P "" "" ->
  (forall rest out, P rest out -> P (old ++ rest)%string (new ++ out)%string) ->
  (forall c s out, String.prefix old (String c s) = false ->
                   P s out -> P (String c s) (String c out)) ->
  forall s, P s (replace_go old new 0 s).
Proof.
  intros Hne Hnil Hfound Hpass s.
  remember (String.length s) as n eqn:Hn. revert s Hn.
  induction n as [n IH] using lt_wf_ind. intros s ->.
  destruct s as [|c s]; [done|].
  destruct (String.prefix old (String c s)) eqn:E.
  - apply prefix_spec in E as [rest E]. rewrite E, replace_go_found by done.
    apply Hfound. apply (IH (String.length rest)); [|done].
    rewrite E, length_app_string. destruct old; [done|]. simpl. lia.
  - rewrite replace_go_pass by done. apply Hpass; [done|].
    apply (IH (String.length s)); [simpl; lia|done].
Qed.

(** With a [new] that starts with [d1] and ends with [d2], two characters
    that [x] does not have: when [x] stands in the result of a
    replacement it stood in the text or stands inside [new]. *)
Lemma replace_contains (old mid x : string) (d1 d2 : ascii) (s : string) :
  old <> "" -> lacks d1 x = true -> lacks d2 x = true ->
  contains x
    (replace_go old (String d1 (mid ++ String d2 "")) 0 s) = true ->
  contains x mid = true \/ contains x s = true.
Proof.
  intros Hne Hl1 Hl2.
  apply (replace_go_ind old (String d1 (mid ++ String d2 ""))
           (fun s out =>
              (forall y, lacks d1 y = true -> String.prefix y out = true ->
                         String.prefix y s = true)
              /\ (contains x out = true ->
                  contains x mid = true \/ contains x s = true)));
    [done|by split; [|right]|..].
  - intros rest out [_ IH]. split.
    + intros y Hl H. rewrite append_cons in H.
      destruct y as [|c y]; [apply prefix_nil|].
      rewrite prefix_cons in H. simpl in Hl.
      apply andb_true_iff in H as [H _]. by rewrite H in Hl.
    + intros H. rewrite append_cons, append_assoc in H.
      apply (contains_apart d1 x "" _ Hl1) in H as [H|H].
      { apply contains_nil in H as ->. right.
        by destruct (old ++ rest)%string. }
      apply (contains_apart d2 x mid _ Hl2) in H as [H|H]; [by left|].
      destruct (IH H) as [?|?]; [by left|]. right. by apply contains_app_r.
  - intros c s' out _ [IHp IHc].
    assert (forall y, lacks d1 y = true ->
                      String.prefix y (String c out) = true ->
                      String.prefix y (String c s') = true) as Hp.
    { intros y Hl H. destruct y as [|e y]; [done|].
      rewrite prefix_cons in *. apply andb_true_iff in H as [-> H].
      simpl in Hl. apply andb_true_iff in Hl as [_ Hl]. simpl.
      by apply IHp. }
    split; [done|]. intros H. rewrite contains_cons, orb_true_iff in H.
    destruct H as [H|H].
    + right. rewrite contains_cons. by rewrite (Hp x Hl1 H).
    + destruct (IHc H) as [?|Hs]; [by left|]. right. rewrite contains_cons.
      rewrite Hs. apply orb_true_r.
Qed.

(** And [old] itself stands nowhere in the result, unless it stands
    inside [new]. *)
Lemma replace_removes (old mid : string) (d1 d2 : ascii) (s : string) :
  old <> "" -> lacks d1 old = true -> lacks d2 old = true ->
  contains old mid = false ->
  contains old
    (replace_go old (String d1 (mid ++ String d2 "")) 0 s) = false.
Proof.
  intros Hne Hl1 Hl2 Hmid. apply not_true_is_false.
  apply (replace_go_ind old (String d1 (mid ++ String d2 ""))
           (fun s out =>
              (forall y, lacks d1 y = true -> String.prefix y out = true ->
                         String.prefix y s = true)
              /\ contains old out <> true)); [done|..].
  - split; [done|]. rewrite contains_nil. done.
  - intros rest out [_ IH]. split.
    + intros y Hl H. rewrite append_cons in H.
      destruct y as [|c y]; [apply prefix_nil|].
      rewrite prefix_cons in H. simpl in Hl.
      apply andb_true_iff in H as [H _]. by rewrite H in Hl.
    + intros H. rewrite append_cons, append_assoc in H.
      apply (contains_apart d1 old "" _ Hl1) in H as [H|H].
      { by apply contains_nil in H. }
      apply (contains_apart d2 old mid _ Hl2) in H as [H|H]; [congruence|].
      done.
  - intros c s' out Hpass [IHp IHc].
    assert (forall y, lacks d1 y = true ->
                      String.prefix y (String c out) = true ->
                      String.prefix y (String c s') = true) as Hp.
    { intros y Hl H. destruct y as [|e y]; [done|].
      rewrite prefix_cons in *. apply andb_true_iff in H as [-> H].
      simpl in Hl. apply andb_true_iff in Hl as [_ Hl]. simpl.
      by apply IHp. }
    split; [done|]. rewrite contains_cons, orb_true_iff. intros [H|H]; [|done].
    apply (Hp old Hl1) in H. congruence.
Qed.
End Occurrences.

(** ** What the matches of a pattern are made of *)

Section RegexAnalysis.
Import PyStr PyText Re.

Lemma all_ascii_elem (c : ascii) : c ∈ all_ascii.
Proof.
  unfold all_ascii. rewrite <- (ascii_nat_embedding c).
  apply list_elem_of_fmap_2, elem_of_seq.
  pose proof (nat_ascii_bounded c). lia.
Qed.

Lemma for_all_ascii_spec (f : ascii -> bool) (c : ascii) :
  for_all_ascii f = true -> f c = true.
Proof.
  unfold for_all_ascii. rewrite forallb_forall. intros H. apply H.
  apply list_elem_of_In, all_ascii_elem.
Qed.

Lemma class_spec (p q : ascii -> bool) (c : ascii) :
  for_all_ascii (fun c => negb (p c) || q c) = true -> p c = true ->
  q c = true.
Proof.
  intros H Hp. apply (for_all_ascii_spec _ c) in H. simpl in H.
  by rewrite Hp in H.
Qed.

Lemma all_chars_app (q : ascii -> bool) (a b : string) :
  all_chars q (a ++ b) = all_chars q a && all_chars q b.
Proof.
  induction a as [|c a IH]; [done|]. rewrite append_cons. simpl.
  by rewrite IH, andb_assoc.
Qed.

Lemma derives_consumes (q : ascii -> bool) r prev m rest prev' :
  derives r prev m rest prev' -> consumes q r = true ->
  all_chars q m = true.
Proof.
  induction 1 as [|p prev c rest Hp
                  | r1 r2 prev m1 m2 rest p1 p2 _ IH1 _ IH2
                  | r1 r2 prev m rest p' _ IH | r1 r2 prev m rest p' _ IH
                  | | r prev m1 m2 rest p1 p2 _ IH1 _ IH2 |];
    cbn [consumes all_chars]; intros Hq; try done.
  - by rewrite (class_spec _ _ _ Hq Hp).
  - apply andb_true_iff in Hq as [H1 H2].
    by rewrite all_chars_app, IH1, IH2.
  - apply andb_true_iff in Hq as [H1 H2]. by apply IH.
  - apply andb_true_iff in Hq as [H1 H2]. by apply IH.
  - by rewrite all_chars_app, IH1, IH2.
Qed.

Lemma derives_ends_with (q : ascii -> bool) r prev m rest prev' :
  derives r prev m rest prev' -> ends_with q r = true ->
  m = "" \/ exists m' c, m = (m' ++ String c "")%string /\ q c = true.
Proof.
  induction 1 as [|p prev c rest Hp
                  | r1 r2 prev m1 m2 rest p1 p2 H1 IH1 H2 IH2
                  | r1 r2 prev m rest p' _ IH | r1 r2 prev m rest p' _ IH
                  | | r prev m1 m2 rest p1 p2 H1 IH1 H2 IH2 |];
    cbn [ends_with]; intros Hq; try by left.
  - right. exists "", c. split; [done|]. by apply (class_spec p).
  - apply andb_true_iff in Hq as [Hq2 Hq1].
    destruct (IH2 Hq2) as [->|(m' & c & -> & Hc)].
    + rewrite append_nil_r.
      rewrite (derives_nullable _ _ _ _ _ H2 eq_refl) in Hq1. by apply IH1.
    + right. exists (m1 ++ m')%string, c. by rewrite append_assoc.
  - apply andb_true_iff in Hq as [? ?]. by apply IH.
  - apply andb_true_iff in Hq as [? ?]. by apply IH.
  - destruct (IH2 Hq) as [->|(m' & c & -> & Hc)].
    + rewrite append_nil_r. by apply IH1.
    + right. exists (m1 ++ m')%string, c. by rewrite append_assoc.
Qed.

Lemma letter_spec (p : ascii -> bool) (c0 c : ascii) :
  letter p = Some c0 -> p c = true -> lower_char c = c0.
Proof.
  unfold letter. intros H Hp.
  assert (c ∈ List.filter p all_ascii) as Hc.
  { apply list_elem_of_In, filter_In. split; [|done].
    apply list_elem_of_In, all_ascii_elem. }
  destruct (List.filter p all_ascii) as [|c1 l]; [done|].
  destruct (forallb _ l) eqn:E; [|done]. injection H as <-.
  apply elem_of_cons in Hc as [->|Hc]; [done|].
  rewrite forallb_forall in E. apply list_elem_of_In in Hc.
  by apply E, Ascii.eqb_eq in Hc.
Qed.

Lemma derives_spell r prev m rest prev' (w : string) :
  derives r prev m rest prev' -> spell r = Some w -> lower m = w.
Proof.
  intros H. revert w.
  induction H as [|p prev c rest Hp
                  | r1 r2 prev m1 m2 rest p1 p2 _ IH1 _ IH2
                  | | | | |]; cbn [spell]; intros w Hw; try done.
  - by injection Hw as <-.
  - destruct (letter p) as [c0|] eqn:E; [|done]. injection Hw as <-.
    cbn [lower]. by rewrite (letter_spec p c0 c E Hp).
  - destruct (spell r1) as [w1|]; [|done].
    destruct (spell r2) as [w2|]; [|done]. injection Hw as <-.
    by rewrite lower_app, (IH1 w1), (IH2 w2).
Qed.

Lemma has_word_app (words : list string) (a b : string) :
  existsb (fun x => contains x a) words = true
  \/ existsb (fun x => contains x b) words = true ->
  existsb (fun x => contains x (a ++ b)) words = true.
Proof.
  rewrite !existsb_exists.
  intros [(x & Hx & H)|(x & Hx & H)]; exists x; (split; [done|]).
  - by apply contains_app_l.
  - by apply contains_app_r.
Qed.

Lemma has_word_spelt (words : list string) (r : regex) (w : string) :
  spell r = Some w ->
  has_word words r = existsb (fun x => contains x w) words.
Proof. intros H. destruct r; cbn [has_word]; by rewrite H. Qed.

Lemma has_word_seq (words : list string) (r1 r2 : regex) :
  spell (Seq r1 r2) = None ->
  has_word words (Seq r1 r2) = has_word words r1 || has_word words r2.
Proof. intros H. cbn [has_word]. by rewrite H. Qed.

Lemma has_word_alt (words : list string) (r1 r2 : regex) :
  has_word words (Alt r1 r2) = has_word words r1 && has_word words r2.
Proof. reflexivity. Qed.

Lemma has_word_other (words : list string) (r : regex) :
  spell r = None ->
  match r with Seq _ _ | Alt _ _ => False | _ => True end ->
  has_word words r = false.
Proof. intros H. destruct r; cbn [has_word]; rewrite H; done. Qed.

Lemma derives_has_word (words : list string) r prev m rest prev' :
  derives r prev m rest prev' -> has_word words r = true ->
  existsb (fun x => contains x (lower m)) words = true.
Proof.
  intros H. induction H as [prev rest|p prev c rest Hp
                  | r1 r2 prev m1 m2 rest p1 p2 H1 IH1 H2 IH2
                  | r1 r2 prev m rest p' H1 IH | r1 r2 prev m rest p' H1 IH
                  | r prev rest | r prev m1 m2 rest p1 p2 H1 IH1 H2 IH2
                  | prev rest Hb]; intros Hw.
  - by rewrite (has_word_spelt words Eps "" eq_refl) in Hw.
  - destruct (spell (Chr p)) as [w|] eqn:E.
    + rewrite (has_word_spelt _ _ _ E) in Hw.
      by rewrite (derives_spell _ _ _ _ _ w (derives_chr p prev c rest Hp) E).
    + by rewrite (has_word_other _ _ E I) in Hw.
  - destruct (spell (Seq r1 r2)) as [w|] eqn:E.
    + rewrite (has_word_spelt _ _ _ E) in Hw.
      by rewrite (derives_spell _ _ _ _ _ w
                    (derives_seq _ _ _ _ _ _ _ _ H1 H2) E).
    + rewrite (has_word_seq _ _ _ E) in Hw.
      rewrite lower_app. apply has_word_app.
      apply orb_true_iff in Hw as [Hw|Hw]; [left; by apply IH1|].
      right. by apply IH2.
  - rewrite has_word_alt in Hw. apply andb_true_iff in Hw as [Hw _].
    by apply IH.
  - rewrite has_word_alt in Hw. apply andb_true_iff in Hw as [_ Hw].
    by apply IH.
  - by rewrite (has_word_other words (Star r) eq_refl I) in Hw.
  - by rewrite (has_word_other words (Star r) eq_refl I) in Hw.
  - by rewrite (has_word_other words WordBoundary eq_refl I) in Hw.
Qed.

Lemma all_chars_lacks (d : ascii) (s : string) :
  all_chars (fun c => negb (Ascii.eqb c d)) s = lacks d s.
Proof. induction s as [|c s IH]; [done|]. simpl. by rewrite IH. Qed.

Lemma all_chars_impl (q q' : ascii -> bool) (s : string) :
  (forall c, q c = true -> q' c = true) ->
  all_chars q s = true -> all_chars q' s = true.
Proof.
  intros Hq. induction s as [|c s IH]; [done|]. simpl.
  rewrite !andb_true_iff. intros [? ?]. split; [by apply Hq|by apply IH].
Qed.
End RegexAnalysis.

(** ** The content filter *)

Section Filtering.
Import PyStr PyText Re ContentFilter.

Lemma advice_patterns_checked :
  forallb advice_pattern INVESTMENT_ADVICE_PATTERNS = true.
Proof. by vm_compute. Qed.

Lemma derives_advice_text (r : regex) prev m rest prev' :
  advice_pattern r = true -> derives r prev m rest prev' -> advice_text m.
Proof.
  unfold advice_pattern. rewrite !andb_true_iff, negb_true_iff.
  intros [[[[[Hn H1] H2] H3] He] Hw] Hd.
  assert (m <> "") as Hne.
  { intros ->. by rewrite (derives_nullable _ _ _ _ _ Hd eq_refl) in Hn. }
  split; [done|]. rewrite <- !all_chars_lacks.
  split; [by apply (derives_consumes _ _ _ _ _ _ Hd)|].
  split; [by apply (derives_consumes _ _ _ _ _ _ Hd)|].
  split; [by apply (derives_consumes _ _ _ _ _ _ Hd)|].
  split; [|by apply (derives_has_word _ _ _ _ _ _ Hd)].
  destruct (derives_ends_with _ _ _ _ _ _ Hd He) as [?|(m' & c & -> & Hc)];
    [done|].
  exists m', c. split; [done|]. intros ->. done.
Qed.

Lemma advice_violation (text : string) (v : Violation) :
  v ∈ _check_investment_advice text ->
  violation_type v = INVESTMENT_ADVICE /\ severity v = "block"
  /\ advice_text (matched_text v)
  /\ exists r, r ∈ INVESTMENT_ADVICE_PATTERNS /\ matched_text v ∈ findall r text.
Proof.
  unfold _check_investment_advice. intros H.
  apply list_elem_of_In, in_flat_map in H as (r & Hr & H).
  apply list_elem_of_In, list_elem_of_fmap in H as (m & -> & Hm).
  split; [done|]. split; [done|]. cbn [matched_text].
  split; [|exists r; split; [by apply list_elem_of_In|done]].
  pose proof advice_patterns_checked as Hc. rewrite forallb_forall in Hc.
  apply Hc in Hr. unfold findall in Hm.
  apply finditer_derives in Hm as [(p & rest & p' & Hd) _].
  by apply (derives_advice_text r p m rest p').
Qed.

Lemma forward_looking_violation (text : string) (v : Violation) :
  v ∈ _check_forward_looking text ->
  violation_type v = FORWARD_LOOKING /\ severity v = "warn".
Proof.
  unfold _check_forward_looking. intros H.
  apply list_elem_of_In, in_flat_map in H as (r & Hr & H).
  by apply list_elem_of_In, list_elem_of_fmap in H as (m & -> & Hm).
Qed.

Lemma filter_keeps {A : Type} (f : A -> bool) (l : list A) :
  (forall x, x ∈ l -> f x = true) -> List.filter f l = l.
Proof.
  induction l as [|x l IH]; [done|]. intros H. simpl.
  rewrite (H x) by apply list_elem_of_here. rewrite IH; [done|].
  intros y Hy. apply H. by apply list_elem_of_further.
Qed.

Lemma filter_drops {A : Type} (f : A -> bool) (l : list A) :
  (forall x, x ∈ l -> f x = false) -> List.filter f l = [].
Proof.
  induction l as [|x l IH]; [done|]. intros H. simpl.
  rewrite (H x) by apply list_elem_of_here. apply IH.
  intros y Hy. apply H. by apply list_elem_of_further.
Qed.

Lemma existsb_none {A : Type} (f : A -> bool) (l : list A) :
  (forall x, x ∈ l -> f x = false) -> existsb f l = false.
Proof.
  induction l as [|x l IH]; [done|]. intros H. simpl.
  rewrite (H x) by apply list_elem_of_here. apply IH.
  intros y Hy. apply H. by apply list_elem_of_further.
Qed.

Lemma flat_map_matches {A : Type} (f : string -> A) (text : string)
    (l : list regex) :
  flat_map (fun r => map f (findall r text)) l
  = map f (flat_map (fun r => findall r text) l).
Proof.
  induction l as [|r l IH]; [done|]. simpl. by rewrite IH, map_app.
Qed.

(** The result of [filter] when the filter is on. *)
Lemma filter_enabled (self : ContentFilter) (text : string) :
  _enabled self = true ->
  filter self text
  = {| passed :=
         match _check_investment_advice text with [] => true | _ => false end;
       violations :=
         _check_investment_advice text ++ _check_forward_looking text
         ++ token_limit self text;
       warnings :=
         match _check_investment_advice text with
         | [] => []
         | _ => ["Investment advice content was removed from the response."]
         end
         ++ match _check_forward_looking text with
            | [] => []
            | _ => ["Forward-looking statement disclaimer added."]
            end;
       filtered_text :=
         (remove_matched text (_check_investment_advice text)
          ++ match _check_forward_looking text with
             | [] => ""
             | _ => FLS_DISCLAIMER
             end)%string |}.
Proof.
  intros He. unfold filter, token_limit. rewrite He. cbn [negb]. cbv zeta.
  pose proof (advice_violation text) as Ha.
  pose proof (forward_looking_violation text) as Hf.
  revert Ha Hf.
  generalize (_check_investment_advice text) as advice.
  generalize (_check_forward_looking text) as fls.
  generalize (_max_tokens self <? length (split text))%nat as long.
  generalize ("Response exceeds "
              ++ PyNum.decimal (Z.of_nat (_max_tokens self))
              ++ " token limit") as message.
  intros message long fls advice Ha Hf.
  change ([] ++ advice)%list with advice.
  assert (List.filter (fun v => String.eqb (severity v) "block") advice
          = advice) as Hblock.
  { apply filter_keeps. intros v (_ & -> & _)%Ha. done. }
  assert (List.filter (fun v => String.eqb (severity v) "block") fls = [])
    as Hwarn.
  { apply filter_drops. intros v [_ ->]%Hf. done. }
  assert (existsb (fun v => bool_decide (violation_type v = FORWARD_LOOKING))
            advice = false) as Hnone.
  { apply existsb_none. intros v (-> & _)%Ha. done. }
  assert (existsb (fun v => bool_decide (violation_type v = FORWARD_LOOKING))
            fls = match fls with [] => false | _ => true end) as Hsome.
  { destruct fls as [|v fls]; [done|]. simpl.
    destruct (Hf v) as [-> _]; [apply list_elem_of_here|]. done. }
  destruct long.
  - rewrite !List.filter_app, !existsb_app, Hblock, Hwarn, Hnone, Hsome.
    cbn [List.filter severity String.eqb Ascii.eqb Bool.eqb existsb
           violation_type app orb].
    rewrite app_nil_r, (bool_decide_eq_false_2 (TOKEN_LIMIT = FORWARD_LOOKING))
      by done.
    rewrite orb_false_r, <- app_assoc.
    destruct advice as [|va advice], fls as [|vf fls]; try reflexivity.
    all: cbn [app remove_matched fold_left length Nat.eqb];
      by rewrite ?app_nil_r, ?append_nil_r.
  - rewrite !List.filter_app, !existsb_app, Hblock, Hwarn, Hnone, Hsome.
    rewrite !app_nil_r. cbn [orb].
    destruct advice as [|va advice], fls as [|vf fls]; try reflexivity.
    all: cbn [app remove_matched fold_left length Nat.eqb];
      by rewrite ?app_nil_r, ?append_nil_r.
Qed.

Lemma removed_text : CONTENT_REMOVED = String "[" (REMOVED_INSIDE ++ String "]" "").
Proof. reflexivity. Qed.

(** A text with one of the words stands in no text that has none. *)
Lemma advice_text_absent (x s : string) :
  advice_text x ->
  existsb (fun w => contains w (lower s)) ADVICE_WORDS = false ->
  contains x s = false.
Proof.
  intros (_ & _ & _ & _ & _ & Hw) Hs. apply not_true_is_false. intros H.
  apply contains_lower in H. apply existsb_exists in Hw as (w & Hin & Hw).
  assert (existsb (fun w => contains w (lower s)) ADVICE_WORDS = true)
    as Hs'; [|congruence].
  apply existsb_exists. exists w. split; [done|].
  by apply (contains_trans w (lower x)).
Qed.

Lemma remove_step (cur : string) (v : Violation) :
  advice_text (matched_text v) ->
  remove_matched cur [v]
  = replace_go (matched_text v) CONTENT_REMOVED 0 cur.
Proof.
  intros [Hne _]. unfold remove_matched. cbn [fold_left].
  unfold replace. by destruct (matched_text v).
Qed.

(** The loop over the violations removes every matched text, and brings
    none back that was not there. *)
Lemma remove_matched_clean (blocking : list Violation) :
  (forall v, v ∈ blocking -> advice_text (matched_text v)) ->
  forall cur,
    (forall x, advice_text x -> contains x cur = false ->
               contains x (remove_matched cur blocking) = false)
    /\ forall v, v ∈ blocking ->
         contains (matched_text v) (remove_matched cur blocking) = false.
Proof.
  induction blocking as [|v l IH]; intros Hall cur.
  { split; [done|]. by intros v ?%elem_of_nil. }
  assert (advice_text (matched_text v)) as Hv
    by apply Hall, list_elem_of_here.
  assert (forall v', v' ∈ l -> advice_text (matched_text v')) as Hl.
  { intros v' Hv'. by apply Hall, list_elem_of_further. }
  assert (remove_matched cur (v :: l)
          = remove_matched (remove_matched cur [v]) l) as -> by reflexivity.
  rewrite remove_step by done. rewrite removed_text.
  destruct (IH Hl (replace_go (matched_text v)
                     (String "[" (REMOVED_INSIDE ++ String "]" "")) 0 cur))
    as [IHkeep IHgone].
  assert (forall x, advice_text x -> contains x REMOVED_INSIDE = false)
    as Hinside.
  { intros x Hx. by apply advice_text_absent. }
  split.
  - intros x Hx Hcur. apply IHkeep; [done|]. apply not_true_is_false.
    intros H. destruct Hx as (Hne & H1 & H2 & Hx).
    apply replace_contains in H as [H|H]; [|congruence|by apply Hv|done..].
    rewrite Hinside in H; [done|]. by split.
  - intros v' [->|Hv']%elem_of_cons; [|by apply IHgone].
    apply IHkeep; [done|]. destruct Hv as (Hne & H1 & H2 & Hv).
    apply replace_removes; [done..|]. apply Hinside. by split.
Qed.

(** The disclaimer brings no matched text back either. *)
Lemma disclaimer_clean (x cur : string) :
  advice_text x -> contains x cur = false ->
  contains x (cur ++ FLS_DISCLAIMER) = false.
Proof.
  intros Hx Hcur. apply not_true_is_false. intros H.
  assert (FLS_DISCLAIMER
          = (LF ++ LF ++ String "-"
               (slice_from 3 FLS_DISCLAIMER))%string) as E by reflexivity.
  rewrite E, <- !append_assoc in H.
  pose proof Hx as (_ & _ & _ & Hh & (m' & c & -> & Hc) & _).
  apply (contains_apart "-" _ _ _ Hh) in H as [H|H].
  - rewrite append_assoc in H. unfold LF in H.
    rewrite <- append_assoc in H.
    apply contains_not_last in H; [|done].
    apply contains_not_last in H; [|done]. congruence.
  - rewrite (advice_text_absent _ (slice_from 3 FLS_DISCLAIMER) Hx) in H;
      done.
Qed.

(** A response passes exactly when no investment advice pattern
    matches. *)
Lemma filter_passed_iff (self : ContentFilter) (text : string) :
  _enabled self = true ->
  passed (filter self text) = true
  <-> forall r, r ∈ INVESTMENT_ADVICE_PATTERNS -> findall r text = [].
Proof.
  intros He. rewrite (filter_enabled self text He). cbn [passed].
  unfold _check_investment_advice. rewrite flat_map_matches.
  destruct (flat_map _ INVESTMENT_ADVICE_PATTERNS) as [|m l] eqn:E.
  - split; [|done]. intros _ r Hr.
    destruct (findall r text) as [|m l] eqn:Er; [done|].
    assert (In m (flat_map (fun r => findall r text)
                    INVESTMENT_ADVICE_PATTERNS)) as Hin.
    { apply in_flat_map. exists r. split; [by apply list_elem_of_In|].
      rewrite Er. by left. }
    by rewrite E in Hin.
  - split; [done|]. intros H.
    assert (In m (flat_map (fun r => findall r text)
                    INVESTMENT_ADVICE_PATTERNS)) as Hin
        by (rewrite E; by left).
    apply in_flat_map in Hin as (r & Hr & Hm).
    apply list_elem_of_In in Hr. by rewrite (H r Hr) in Hm.
Qed.

(** What an investment advice pattern matched stands nowhere in the
    filtered text. *)
Lemma filter_advice_gone (self : ContentFilter) (text : string) (r : regex)
    (m : string) :
  _enabled self = true ->
  r ∈ INVESTMENT_ADVICE_PATTERNS -> m ∈ findall r text ->
  contains m (filtered_text (filter self text)) = false.
Proof.
  intros He Hr Hm. rewrite (filter_enabled self text He).
  cbn [filtered_text].
  set (v := {| violation_type := INVESTMENT_ADVICE;
               description := "Detected investment advice / recommendation";
               severity := "block";
               matched_text := m |}).
  assert (v ∈ _check_investment_advice text) as Hin.
  { unfold _check_investment_advice.
    apply list_elem_of_In, in_flat_map. exists r.
    split; [by apply list_elem_of_In|].
    apply list_elem_of_In. by apply list_elem_of_fmap_2. }
  pose proof (advice_violation text v Hin) as (_ & _ & Hx & _).
  destruct (remove_matched_clean (_check_investment_advice text)
              (fun v' Hv' =>
                 proj1 (proj2 (proj2 (advice_violation text v' Hv'))))
              text) as [_ Hgone].
  specialize (Hgone v Hin). cbn [matched_text v] in Hgone, Hx.
  destruct (_check_forward_looking text).
  - by rewrite append_nil_r.
  - by apply disclaimer_clean.
Qed.

(** X17. With the filter on, a response passes exactly when no investment
    advice pattern matches anywhere in it: forward-looking statements and
    the length never block. A response that passes is handed back as it
    is, with the disclaimer at its end when a forward-looking pattern
    matches, and with no warning but the one for that disclaimer. *)
Theorem filter_passes (self : ContentFilter) (text : string) :
  _enabled self = true ->
  (passed (filter self text) = true
   <-> forall r, r ∈ INVESTMENT_ADVICE_PATTERNS -> findall r text = [])
  /\ (passed (filter self text) = true ->
      forall fls, fls = flat_map (fun r => findall r text)
                          FORWARD_LOOKING_PATTERNS ->
        filtered_text (filter self text)
        = (text ++ match fls with [] => "" | _ => FLS_DISCLAIMER end)%string
        /\ warnings (filter self text)
           = match fls with
             | [] => []
             | _ => ["Forward-looking statement disclaimer added."]
             end).
Proof.
  intros He. split; [by apply filter_passed_iff|].
  rewrite (filter_enabled self text He).
  cbn [passed filtered_text warnings]. intros Hp fls ->.
  assert (_check_investment_advice text = []) as ->
    by by destruct (_check_investment_advice text).
  unfold _check_forward_looking. rewrite flat_map_matches.
  by destruct (flat_map _ FORWARD_LOOKING_PATTERNS).
Qed.

Lemma filter_passes_witness :
  passed (filter default "Revenue is expected to grow.") = true
  /\ filtered_text (filter default "Revenue is expected to grow.")
     = ("Revenue is expected to grow." ++ FLS_DISCLAIMER)%string.
Proof.
  destruct (filter_passes default "Revenue is expected to grow." eq_refl)
    as [Hiff Hpass].
  assert (passed (filter default "Revenue is expected to grow.") = true)
    as Hp.
  { apply Hiff. intros r Hr.
    repeat (apply elem_of_cons in Hr as [->|Hr]; [by vm_compute|]).
    by apply elem_of_nil in Hr. }
  split; [done|].
  destruct (Hpass Hp _ eq_refl) as [-> _]. by vm_compute.
Defined.

(** X18. With the filter on, no text that an investment advice pattern matched
    is left in the filtered text: each text reported as an investment
    advice violation is a non-empty part of the response, occurs nowhere
    in the filtered text, and the response does not pass. *)
Theorem filter_removes_advice (self : ContentFilter) (text : string)
    (v : Violation) :
  _enabled self = true ->
  v ∈ violations (filter self text) ->
  violation_type v = INVESTMENT_ADVICE ->
  passed (filter self text) = false
  /\ matched_text v <> ""
  /\ contains (matched_text v) text = true
  /\ contains (matched_text v) (filtered_text (filter self text)) = false.
Proof.
  intros He Hv Ht.
  assert (v ∈ _check_investment_advice text) as Hin.
  { rewrite (filter_enabled self text He) in Hv. cbn [violations] in Hv.
    apply elem_of_app in Hv as [?|Hv]; [done|].
    apply elem_of_app in Hv as [Hv|Hv].
    - apply forward_looking_violation in Hv as [Hv _]. congruence.
    - unfold token_limit in Hv. destruct (_ <? _)%nat.
      + apply list_elem_of_singleton in Hv. subst v. done.
      + by apply elem_of_nil in Hv. }
  pose proof (advice_violation text v Hin) as (_ & _ & Hx & r & Hr & Hm).
  split.
  { rewrite (filter_enabled self text He). cbn [passed].
    destruct (_check_investment_advice text); [by apply elem_of_nil in Hin|].
    done. }
  split; [by destruct Hx|]. split.
  - unfold findall in Hm.
    apply finditer_derives in Hm as [_ (i & b & a & -> & _)].
    apply contains_spec. by exists b, a.
  - by apply (filter_advice_gone self text r).
Qed.

Lemma filter_removes_advice_witness :
  contains "we recommend buy"
    (filtered_text (filter default "Overall we recommend buy now.")) = false.
Proof.
  refine (proj2 (proj2 (proj2
    (filter_removes_advice default "Overall we recommend buy now."
       {| violation_type := INVESTMENT_ADVICE;
          description := "Detected investment advice / recommendation";
          severity := "block";
          matched_text := "we recommend buy" |} eq_refl _ eq_refl)))).
  vm_compute. apply list_elem_of_here.
Defined.
End Filtering.

(** ** The guardrails in the workflow *)

Section GuardedRuns.
Import PyStr Re LLM Workflow.

(** X19. The answer of a run whose guardrails are the regex redactor and the
    content filter, the filter being on: the count of entities is the
    number of those that [detect_only] lists in the generated text; the
    response is the filtered redacted text; the filter has passed exactly
    when no investment advice pattern matches the redacted text; and
    nothing that such a pattern matches there is left in the response. *)
Theorem execute_guardrails (SYSTEM_PROMPT : string)
    (user_prompt : string -> list string -> QueryType -> string)
    (upper : string -> string) (self : QueryOrchestrator)
    (redactor : PIIRedactor.PIIRedactor)
    (content_filter : ContentFilter.ContentFilter)
    (request : QueryRequest) (calls : nat) (final : WorkflowState) :
  _pii_redactor self = Guardrails.redact redactor ->
  _content_filter self = Guardrails.filter content_filter ->
  ContentFilter._enabled content_filter = true ->
  fst (fst (execute SYSTEM_PROMPT user_prompt upper self request calls))
  = Ok final ->
  exists c k,
    reply (_llm_client self) k = Some c
    /\ let redacted :=
         PIIRedactor.redacted_text (PIIRedactor.redact redactor (text c)) in
       pii_entities_found final
       = length (PIIRedactor.detect_only redactor (text c))
       /\ response_text final
          = ContentFilter.filtered_text
              (ContentFilter.filter content_filter redacted)
       /\ (content_filter_passed final = true
           <-> forall r, r ∈ ContentFilter.INVESTMENT_ADVICE_PATTERNS ->
                         findall r redacted = [])
       /\ forall r m, r ∈ ContentFilter.INVESTMENT_ADVICE_PATTERNS ->
                      m ∈ findall r redacted ->
                      contains m (response_text final) = false.
Proof.
  intros Hpii Hfilter He Hok.
  pose proof (execute_run SYSTEM_PROMPT user_prompt upper self request calls)
    as H.
  destruct (execute SYSTEM_PROMPT user_prompt upper self request calls)
    as [[r trace] calls'].
  simpl in Hok. subst r.
  destruct H as (_ & _ & _ & (c & k & _ & Hc & Hg) & _).
  exists c, k. split; [done|]. cbv zeta.
  destruct Hg as (Hr & Hp & _ & Hn). rewrite Hpii, Hfilter in *.
  unfold Guardrails.redact, Guardrails.filter in *.
  cbn [was_redacted redacted_text entity_count filtered_text passed] in *.
  pose proof (redact_regex_view redactor (text c)) as [Hcount Hredacted].
  cbv zeta in Hcount, Hredacted. rewrite Hredacted in *.
  split; [by rewrite Hn|]. split; [done|]. split.
  - rewrite Hp. by apply filter_passed_iff.
  - intros r m Hin Hm. rewrite Hr. by apply (filter_advice_gone _ _ r).
Qed.
End GuardedRuns.

Section GuardedRunsSample.
Import PyStr Re LLM Workflow.
Local Open Scope Q_scope.

Lemma guarded_run_returns :
  { final : WorkflowState
  | fst (fst (execute "system" (fun _ _ _ => "user") (fun s => s)
                guarded_orchestrator unevaluated_request 0%nat)) = Ok final
    /\ response_text final
       = "Net sales grew 8% [Source 1]. "
         ++ "[CONTENT REMOVED: Investment advice is not provided by this "
         ++ "system]. Questions to [SSN_REDACTED]."
    /\ pii_entities_found final = 1%nat
    /\ content_filter_passed final = false }.
Proof. eexists. vm_compute. repeat split; reflexivity. Defined.

Lemma execute_guardrails_witness :
  exists final c k,
    fst (fst (execute "system" (fun _ _ _ => "user") (fun s => s)
                guarded_orchestrator unevaluated_request 0%nat)) = Ok final
    /\ reply (_llm_client guarded_orchestrator) k = Some c
    /\ forall r m,
         r ∈ ContentFilter.INVESTMENT_ADVICE_PATTERNS ->
         m ∈ findall r
               (PIIRedactor.redacted_text
                  (PIIRedactor.redact {| PIIRedactor._enabled := true |}
                     (text c))) ->
         contains m (response_text final) = false.
Proof.
  destruct guarded_run_returns as (final & Hf & _).
  destruct (execute_guardrails "system" (fun _ _ _ => "user") (fun s => s)
              guarded_orchestrator {| PIIRedactor._enabled := true |}
              ContentFilter.default unevaluated_request 0%nat final
              eq_refl eq_refl eq_refl Hf)
    as (c & k & Hc & _ & _ & _ & H).
  exists final, c, k. split; [exact Hf|]. split; [exact Hc|exact H].
Defined.
End GuardedRunsSample.

(** ** The sources of the prompt *)

Section Sources.
Import PyNum PyStr PyText Prompts.

Lemma contains_refl (x : string) : contains x x = true.
Proof. apply contains_spec. exists "", "". by rewrite append_nil_r. Qed.

Lemma contains_join (part sep : string) (parts : list string) :
  part ∈ parts -> contains part (join sep parts) = true.
Proof.
  induction parts as [|p rest IH]; [by intros ?%elem_of_nil|].
  intros Hin.
  assert (join sep (p :: rest)
          = match rest with
            | [] => p
            | _ => (p ++ sep ++ join sep rest)%string
            end) as -> by reflexivity.
  apply elem_of_cons in Hin as [->|Hin].
  - destruct rest; [apply contains_refl|].
    apply contains_app_l, contains_refl.
  - destruct rest as [|q rest]; [by apply elem_of_nil in Hin|].
    by apply contains_app_r, contains_app_r, IH.
Qed.

Lemma formatted_parts_lookup (chunks : list string) (start i : nat)
    (chunk : string) :
  chunks !! i = Some chunk ->
  ("[Source " ++ decimal (Z.of_nat (start + i)) ++ "]" ++ LF ++ chunk ++ LF)%string
  ∈ formatted_parts start chunks.
Proof.
  revert start i. induction chunks as [|c rest IH]; intros start i H; [done|].
  destruct i as [|i]; cbn [formatted_parts].
  - injection H as ->. rewrite Nat.add_0_r. apply list_elem_of_here.
  - apply list_elem_of_further.
    replace (start + S i)%nat with (S start + i)%nat by lia. by apply IH.
Qed.

(** X20. Every chunk stands in the formatted context under the number of its
    place, counted from 1: the marker [[Source N]], a line feed, the
    chunk as it is, and a line feed. *)
Theorem format_context_sources (chunks : list string) (i : nat)
    (chunk : string) :
  chunks !! i = Some chunk ->
  contains
    ("[Source " ++ decimal (Z.of_nat (S i)) ++ "]" ++ LF ++ chunk ++ LF)
    (_format_context chunks) = true.
Proof.
  intros H. unfold _format_context.
  destruct chunks as [|c rest] eqn:E; [done|]. rewrite <- E in *.
  apply contains_join. by apply (formatted_parts_lookup chunks 1 i).
Qed.

Lemma format_context_sources_witness :
  contains ("[Source 2]" ++ LF ++ "Net income was $97.0 billion." ++ LF)
    (_format_context ["Total net sales were $394.3 billion.";
                      "Net income was $97.0 billion."]) = true.
Proof.
  exact (format_context_sources
           ["Total net sales were $394.3 billion.";
            "Net income was $97.0 billion."] 1
           "Net income was $97.0 billion." eq_refl).
Defined.
End Sources.

(** ** Floats that are not numbers *)

Section Floats.
Import PyFloat.
Local Open Scope Q_scope.


Lemma add_nan_l (b : float) : add NaN b = NaN.
Proof. reflexivity. Qed.

Lemma mul_nan_r (a : float) : mul a NaN = NaN.
Proof. by destruct a. Qed.



(** A sum of numbers is the number that [PyNum.sum] gives. *)
Lemma sum_real (qs : list Q) : sum (map Real qs) = Real (PyNum.sum qs).
Proof.
  unfold sum, PyNum.sum. generalize 0.
  induction qs as [|q qs IH]; intros acc; [done|]. simpl. apply IH.
Qed.

(** The clamp written with the builtins lets NaN through: [max] and
    [min] keep their first argument when the comparison with the second
    is false. *)
Lemma clamp_nan : min2 (max2 NaN (Real 0.0)) (Real 1.0) = NaN.
Proof. reflexivity. Qed.

Lemma clamp_real (q : Q) :
  min2 (max2 (Real q) (Real 0.0)) (Real 1.0)
  = Real (PyNum.min2 (PyNum.max2 q 0.0) 1.0).
Proof.
  unfold min2, max2, lt, gt, PyNum.min2, PyNum.max2, PyNum.lt, PyNum.gt.
  destruct (Qle_bool 0.0 q); cbn [negb].
  - by destruct (Qle_bool q 1.0).
  - by destruct (Qle_bool 0.0 1.0).
Qed.

(** Every other float it brings into the unit interval. *)
Lemma clamp_unit (x : float) :
  x <> NaN -> in_unit (min2 (max2 x (Real 0.0)) (Real 1.0)).
Proof.
  intros Hx. destruct x as [q|[]|]; [| | |done].
  - rewrite clamp_real. apply clamp_range.
  - vm_compute. split; discriminate.
  - vm_compute. split; discriminate.
Qed.

Lemma round_in_unit (x : float) (n : nat) : in_unit x -> in_unit (round x n).
Proof. destruct x; [|done..]. apply round_unit. Qed.

Lemma round_clamp_unit (x : float) (n : nat) :
  x <> NaN -> in_unit (round (min2 (max2 x (Real 0.0)) (Real 1.0)) n).
Proof. intros. by apply round_in_unit, clamp_unit. Qed.
End Floats.

(** ** C4: the confidence score *)

Section ConfidenceFloats.
Import PyFloat WithNaN.ConfidenceScorer.
Local Open Scope Q_scope.


Lemma real_relevances_map (citations : list Citation) :
  real_relevances citations ->
  exists qs, map relevance_score citations = map Real qs.
Proof.
  induction 1 as [|c cs [q Hq] _ [qs IH]]; [by exists []|].
  exists (q :: qs). simpl. by rewrite Hq, IH.
Qed.

Lemma retrieval_relevance_in_unit (citations : list Citation) :
  real_relevances citations -> in_unit (_score_retrieval_relevance citations).
Proof.
  intros [qs Hqs]%real_relevances_map. unfold _score_retrieval_relevance.
  destruct citations as [|c cs]; [simpl; lra|].
  rewrite Hqs, sum_real. by apply clamp_unit.
Qed.

(** On numbers the scorer of this section is the one of the sections
    above. *)
Lemma retrieval_relevance_on_numbers (citations : list Schemas.Citation) :
  _score_retrieval_relevance (map of_schema citations)
  = Real (ConfidenceScorer._score_retrieval_relevance citations).
Proof.
  unfold _score_retrieval_relevance, ConfidenceScorer._score_retrieval_relevance.
  destruct citations as [|c cs]; [done|].
  assert (map relevance_score (map of_schema (c :: cs))
          = map Real (map Schemas.relevance_score (c :: cs))) as ->
    by (by rewrite !map_map).
  rewrite sum_real, length_map. apply clamp_real.
Qed.

Lemma score_on_numbers (response_text query : string)
    (citations : list Schemas.Citation) (source_chunks : list string)
    (h c : Q) :
  let r :=
    score response_text query (map of_schema citations) source_chunks
      (Real h) (Real c) in
  let r0 :=
    ConfidenceScorer.score response_text query citations source_chunks h c in
  confidence_score r = Real (ConfidenceScorer.confidence_score r0)
  /\ source_coverage_score r = Real (ConfidenceScorer.source_coverage_score r0)
  /\ citation_density_score r
     = Real (ConfidenceScorer.citation_density_score r0)
  /\ specificity_score r = Real (ConfidenceScorer.specificity_score r0)
  /\ hedging_penalty r = Real (ConfidenceScorer.hedging_penalty r0)
  /\ retrieval_relevance_score r
     = Real (ConfidenceScorer.retrieval_relevance_score r0).
Proof.
  intros r r0. subst r r0.
  cbn [score confidence_score source_coverage_score citation_density_score
       specificity_score hedging_penalty retrieval_relevance_score
       ConfidenceScorer.score ConfidenceScorer.confidence_score
       ConfidenceScorer.source_coverage_score
       ConfidenceScorer.citation_density_score
       ConfidenceScorer.specificity_score ConfidenceScorer.hedging_penalty
       ConfidenceScorer.retrieval_relevance_score].
  rewrite retrieval_relevance_on_numbers.
  split; [|done]. cbn [mul add sub neg]. by rewrite clamp_real.
Qed.



(** X23. For every response, query and source chunks, every list of citations
    whose relevances are numbers and every two outside factors that are
    numbers, the confidence score returned is a number of the unit
    interval, and so is each of the five component scores returned. *)
Theorem confidence_scores_in_unit
    (response_text query : string) (citations : list Citation)
    (source_chunks : list string) (hallucination_score consistency_score : Q) :
  real_relevances citations ->
  let r :=
    score response_text query citations source_chunks
      (Real hallucination_score) (Real consistency_score) in
  in_unit (confidence_score r)
  /\ in_unit (source_coverage_score r)
  /\ in_unit (citation_density_score r)
  /\ in_unit (specificity_score r)
  /\ in_unit (hedging_penalty r)
  /\ in_unit (retrieval_relevance_score r).
Proof.
  intros H r. subst r.
  cbn [score confidence_score source_coverage_score citation_density_score
       specificity_score hedging_penalty retrieval_relevance_score].
  pose proof (retrieval_relevance_in_unit _ H) as Hrr.
  split; [|split; [|split; [|split; [|split]]]].
  - apply round_clamp_unit.
    by destruct (_score_retrieval_relevance citations).
  - apply round_in_unit. exact (source_coverage_unit _ _).
  - apply round_in_unit. exact (citation_density_unit _).
  - apply round_in_unit. exact (specificity_unit _).
  - apply round_in_unit. exact (hedging_penalty_unit _).
  - by apply round_in_unit.
Qed.

Lemma confidence_scores_in_unit_witness :
  let r :=
    score "Revenue grew 8% [Source 1]." "What was the revenue growth?"
      [citation_sample] ["Revenue grew 8%."] (Real 0.1) (Real 0.9) in
  in_unit (confidence_score r)
  /\ in_unit (source_coverage_score r)
  /\ in_unit (citation_density_score r)
  /\ in_unit (specificity_score r)
  /\ in_unit (hedging_penalty r)
  /\ in_unit (retrieval_relevance_score r).
Proof.
  apply (confidence_scores_in_unit "Revenue grew 8% [Source 1]."
           "What was the revenue growth?" [citation_sample]
           ["Revenue grew 8%."] 0.1 0.9).
  repeat constructor. by exists 0.75.
Defined.
End ConfidenceFloats.

(** ** C3: the combined scores of the detector *)

Section DetectionFloats.
Import Json LLM Embeddings PyFloat WithNaN.HallucinationDetector.
Local Open Scope Q_scope.

Lemma detect_floats (llm : LLMClient) (embeddings : EmbeddingService)
    response_text source_chunks query n :
  detect llm embeddings response_text source_chunks query n
  = match _llm_judge_verification llm response_text source_chunks query n with
    | (Ok j, n') =>
        let e :=
          Real (HallucinationDetector._entity_overlap_check response_text
                  source_chunks) in
        let s :=
          Real (HallucinationDetector._semantic_similarity_check embeddings
                  response_text source_chunks) in
        (Ok {| hallucination_score :=
                 round (min2 (max2
                   (Real 0.6 * hallucination_score j
                    + Real 0.2 * (Real 1.0 - e)
                    + Real 0.2 * (Real 1.0 - s))%F (Real 0.0)) (Real 1.0)) 4;
               factual_grounding_score :=
                 round (min2 (max2
                   (Real 0.6 * factual_grounding_score j
                    + Real 0.2 * e + Real 0.2 * s)%F (Real 0.0)) (Real 1.0)) 4;
               claims := claims j;
               entity_overlap_score := round e 4;
               semantic_similarity_score := round s 4 |}, n')
    | (Raise e, n') => (Raise e, n')
    end.
Proof.
  unfold detect, mbind, run_bind, mret, run_ret.
  by destruct (_llm_judge_verification _ _ _ _ _) as [[j|e] n'].
Qed.

(** C3 fails on the code.  [min(max(x, 0.0), 1.0)] does not clamp NaN:
    in every run in which the judge step yields a result, the detector
    returns, and a score of the judge that is NaN - [float] reads it from
    the string NaN - makes the combined score returned NaN, which is not
    in the unit interval. *)
Theorem judge_nan_score_unclamped (llm : LLMClient)
    (embeddings : EmbeddingService) (response_text : string)
    (source_chunks : list string) (query : string) (n n' : nat)
    (judge : HallucinationResult) :
  _llm_judge_verification llm response_text source_chunks query n
  = (Ok judge, n') ->
  exists r : HallucinationResult,
    detect llm embeddings response_text source_chunks query n = (Ok r, n')
    /\ (hallucination_score judge = NaN ->
        hallucination_score r = NaN /\ ~ in_unit (hallucination_score r))
    /\ (factual_grounding_score judge = NaN ->
        factual_grounding_score r = NaN
        /\ ~ in_unit (factual_grounding_score r)).
Proof.
  intros Hj. rewrite detect_floats, Hj. eexists. split; [done|].
  cbn [hallucination_score factual_grounding_score].
  split; intros ->; rewrite mul_nan_r, !add_nan_l;
    (split; [reflexivity|intros []]).
Qed.

Lemma judge_nan_score_unclamped_witness :
  exists r : HallucinationResult,
    detect {| reply := fun _ => Some judge_score_not_a_number |}
      embeddings_sample
      "Revenue was $394.3 billion, an increase of 8%."
      ["Revenue was $394.3 billion, an increase of 8% year over year."]
      "What was the revenue?" 0%nat
    = (Ok r, 1%nat)
    /\ hallucination_score r = NaN
    /\ ~ in_unit (hallucination_score r).
Proof.
  destruct (judge_nan_score_unclamped
              {| reply := fun _ => Some judge_score_not_a_number |}
              embeddings_sample
              "Revenue was $394.3 billion, an increase of 8%."
              ["Revenue was $394.3 billion, an increase of 8% year over year."]
              "What was the revenue?" 0%nat 1%nat
              {| hallucination_score := NaN;
                 factual_grounding_score := Real 0.9;
                 claims := []; entity_overlap_score := Real 0.0;
                 semantic_similarity_score := Real 0.0 |} eq_refl)
    as (r & Hr & Hh & _).
  exists r. split; [exact Hr|]. exact (Hh eq_refl).
Defined.

(** X22. In every run in which the judge step yields a result with two scores
    that are not NaN, the detector returns, and its two combined scores
    are numbers of the unit interval. *)
Theorem detect_scores_in_unit (llm : LLMClient)
    (embeddings : EmbeddingService) (response_text : string)
    (source_chunks : list string) (query : string) (n n' : nat)
    (judge : HallucinationResult) :
  _llm_judge_verification llm response_text source_chunks query n
  = (Ok judge, n') ->
  hallucination_score judge <> NaN ->
  factual_grounding_score judge <> NaN ->
  exists r : HallucinationResult,
    detect llm embeddings response_text source_chunks query n = (Ok r, n')
    /\ in_unit (hallucination_score r)
    /\ in_unit (factual_grounding_score r).
Proof.
  intros Hj Hh Hg. rewrite detect_floats, Hj. eexists. split; [done|].
  cbn [hallucination_score factual_grounding_score].
  split; apply round_clamp_unit.
  - by destruct (hallucination_score judge) as [q|[]|].
  - by destruct (factual_grounding_score judge) as [q|[]|].
Qed.

Lemma detect_scores_in_unit_witness :
  exists r : HallucinationResult,
    detect {| reply := fun _ => Some judge_reply_sample |} embeddings_sample
      "Revenue was $394.3 billion, an increase of 8%."
      ["Revenue was $394.3 billion, an increase of 8% year over year."]
      "What was the revenue?" 0%nat
    = (Ok r, 1%nat)
    /\ in_unit (hallucination_score r)
    /\ in_unit (factual_grounding_score r).
Proof.
  apply (detect_scores_in_unit
           {| reply := fun _ => Some judge_reply_sample |} embeddings_sample
           "Revenue was $394.3 billion, an increase of 8%."
           ["Revenue was $394.3 billion, an increase of 8% year over year."]
           "What was the revenue?" 0%nat 1%nat
           {| hallucination_score := Real 0.2;
              factual_grounding_score := Real 0.9;
              claims := []; entity_overlap_score := Real 0.0;
              semantic_similarity_score := Real 0.0 |} eq_refl);
    discriminate.
Defined.
End DetectionFloats.
